(** * sigma-llm-doc: change-detection cache, validator and orchestrator

    A shallow embedding of the Python sources under [src/sigma_llm_doc]
    ([cache.py], [validator.py], [llm_provider.py], [processor.py],
    [cli.py]) and the properties of them stated in the specification.

    Python values are modelled as follows.
    - [str] is a sequence of Unicode code points: [list N].  The whitespace
      and line-boundary classes are the ones CPython uses for [str.strip],
      [str.splitlines] and the regular expression class [\s].
    - [dict] is an insertion-ordered association list with unique keys.
    - an exception that escapes a function is a constructor of the result
      type of that function.
    - a loaded YAML node carries, besides its value, what ruamel.yaml keeps
      on it and writes out again (comments, styles); the serializer and the
      parser themselves are parameters. *)

From Stdlib Require Import List NArith ZArith Bool Arith Lia String Ascii.
Import ListNotations.

Set Implicit Arguments.

(* ------------------------------------------------------------------ *)
(** ** Python strings *)

Module PyStr.

Local Open Scope N_scope.

Definition char := N.
Definition str := list char.

(** A literal: the code points of an ASCII string. *)
Definition lit (s : string) : str :=
  map N_of_ascii (list_ascii_of_string s).

Definition LF : char := 10.
Definition CR : char := 13.

(** [Py_UNICODE_ISSPACE]: what [str.strip], [str.isspace] and [\s] use. *)
Definition is_space (c : char) : bool :=
  ((9 <=? c) && (c <=? 13)) || ((28 <=? c) && (c <=? 32))
  || (c =? 133) || (c =? 160) || (c =? 5760)
  || ((8192 <=? c) && (c <=? 8202))
  || (c =? 8232) || (c =? 8233) || (c =? 8239) || (c =? 8287)
  || (c =? 12288).

(** [Py_UNICODE_ISLINEBREAK]: the boundaries of [str.splitlines]. *)
Definition is_linebreak (c : char) : bool :=
  ((10 <=? c) && (c <=? 13)) || ((28 <=? c) && (c <=? 30))
  || (c =? 133) || (c =? 8232) || (c =? 8233).

Fixpoint str_eqb (a b : str) : bool :=
  match a, b with
  | [], [] => true
  | x :: a', y :: b' => (x =? y) && str_eqb a' b'
  | _, _ => false
  end.

Definition is_empty (s : str) : bool :=
  match s with [] => true | _ :: _ => false end.

(** [s.lstrip()] *)
Fixpoint lstrip (s : str) : str :=
  match s with
  | [] => []
  | c :: r => if is_space c then lstrip r else s
  end.

(** [s.rstrip()] *)
Fixpoint rstrip (s : str) : str :=
  match s with
  | [] => []
  | c :: r =>
      match rstrip r with
      | [] => if is_space c then [] else [c]
      | r' => c :: r'
      end
  end.

(** [s.strip()] *)
Definition strip (s : str) : str := rstrip (lstrip s).

(** [s.rstrip(ch)] for a one-character argument. *)
Fixpoint rstrip_char (ch : char) (s : str) : str :=
  match s with
  | [] => []
  | c :: r =>
      match rstrip_char ch r with
      | [] => if c =? ch then [] else [c]
      | r' => c :: r'
      end
  end.

(** [s.startswith(p)] *)
Fixpoint startswith (s p : str) : bool :=
  match p, s with
  | [], _ => true
  | _ :: _, [] => false
  | y :: p', x :: s' => (x =? y) && startswith s' p'
  end.

(** [s.endswith(suf)]: some suffix of [s] is [suf]. *)
Fixpoint endswith (s suf : str) : bool :=
  str_eqb s suf || match s with [] => false | _ :: r => endswith r suf end.

(** [sub in s] *)
Fixpoint contains (s sub : str) : bool :=
  startswith s sub || match s with [] => false | _ :: r => contains r sub end.

(** [s.splitlines()]: a boundary ends the current line, CR LF counts as
    one boundary, and no empty line is produced after the last boundary. *)
Fixpoint splitlines (s : str) : list str :=
  match s with
  | [] => []
  | c :: rest =>
      if is_linebreak c then
        match rest with
        | d :: rest' =>
            if (c =? CR) && (d =? LF) then [] :: splitlines rest'
            else [] :: splitlines rest
        | [] => [[]]
        end
      else
        match splitlines rest with
        | [] => [[c]]
        | l :: ls => (c :: l) :: ls
        end
  end.

(** [sep.join(parts)] *)
Fixpoint join (sep : str) (parts : list str) : str :=
  match parts with
  | [] => []
  | [p] => p
  | p :: ps => p ++ sep ++ join sep ps
  end.

(** [s.replace(a, b)] for one-character [a] and [b]. *)
Definition replace_char (a b : char) (s : str) : str :=
  map (fun c => if c =? a then b else c) s.

(** [str(n)] for a natural number. *)
Definition digit (n : nat) : char := 48 + N.of_nat n.

Fixpoint str_of_nat_fuel (fuel n : nat) (acc : str) : str :=
  match fuel with
  | O => acc
  | S f =>
      let acc' := digit (Nat.modulo n 10) :: acc in
      match Nat.div n 10 with
      | O => acc'
      | q => str_of_nat_fuel f q acc'
      end
  end.

Definition str_of_nat (n : nat) : str := str_of_nat_fuel (S n) n [].

End PyStr.
Import PyStr.

(* ------------------------------------------------------------------ *)
(** ** processor.py: markdown cleanup *)

Module Markdown.

(** The state of the loop of [_clean_markdown]: [output] and [prev_blank]. *)
Definition clean_step (st : list str * bool) (line : str) : list str * bool :=
  let '(output, prev_blank) := st in
  let stripped := rstrip line in
  if is_empty stripped then
    ((if prev_blank then output else output ++ [[]]), true)
  else (output ++ [stripped], false).

Definition _clean_markdown (text : str) : str :=
  let lines := splitlines (strip text) in
  let '(output, _) := fold_left clean_step lines ([], true) in
  let result := join [LF] output in
  if endswith result [LF] then result else result ++ [LF].

End Markdown.
Import Markdown.


(* ------------------------------------------------------------------ *)
(** ** Python dictionaries and YAML documents *)

Module Dict.

Section WithValue.
Variable V : Type.

(** Bindings in insertion order; keys are unique in every dictionary
    built with [set] from the empty one. *)
Definition dict := list (str * V).

(** [d.get(k)] *)
Fixpoint get (k : str) (d : dict) : option V :=
  match d with
  | [] => None
  | (k', v) :: r => if str_eqb k' k then Some v else get k r
  end.

(** [k in d] *)
Definition mem (k : str) (d : dict) : bool :=
  match get k d with Some _ => true | None => false end.

(** [d[k] = v]: an existing binding is replaced where it stands, a new
    one goes to the end. *)
Fixpoint set (k : str) (v : V) (d : dict) : dict :=
  match d with
  | [] => [(k, v)]
  | (k', v') :: r =>
      if str_eqb k' k then (k', v) :: r else (k', v') :: set k v r
  end.

(** [del d[k]] *)
Fixpoint del (k : str) (d : dict) : dict :=
  match d with
  | [] => []
  | (k', v') :: r =>
      if str_eqb k' k then del k r else (k', v') :: del k r
  end.
End WithValue.

End Dict.

Module Yaml.

(** What ruamel.yaml keeps on a loaded node besides its value and writes
    out again on [dump]: the comments of a mapping or a sequence (its
    [ca] attribute, which files them under the key or index they follow),
    the quoting and block style of a scalar, anchors and tags.  The
    pipeline never reads it; it is carried because the serializer does. *)
Definition presentation := str.

(** A plain Python object, and a [LiteralScalarString]. *)
Definition PLAIN : presentation := [].
Definition LITERAL : presentation := lit "|".

(** A parsed YAML value.  [YOther] is any other scalar the loader
    constructs (a float, a date, bytes), given by what [bool()] and
    [str()] make of it.  Keys of mappings are text. *)
#[local] Unset Elimination Schemes.
Inductive yaml : Type :=
| YNull
| YStr (style : presentation) (s : str)
| YInt (style : presentation) (z : Z)
| YBool (style : presentation) (b : bool)
| YOther (style : presentation) (truth : bool) (text : str)
| YSeq (ca : presentation) (items : list yaml)
| YMap (ca : presentation) (m : list (str * yaml)).
#[local] Set Elimination Schemes.

(** Python truthiness of a loaded value. *)
Definition truthy (v : yaml) : bool :=
  match v with
  | YNull => false
  | YStr _ s => negb (is_empty s)
  | YInt _ z => negb (Z.eqb z 0)
  | YBool _ b => b
  | YOther _ truth _ => truth
  | YSeq _ items => match items with [] => false | _ :: _ => true end
  | YMap _ m => match m with [] => false | _ :: _ => true end
  end.

(** Whether [str(v).strip()] is the empty string.  [str(None)] is
    ["None"], a number has digits, a boolean is ["True"] or ["False"] and
    the rendering of a container is bracketed. *)
Definition str_blank (v : yaml) : bool :=
  match v with
  | YStr _ s => is_empty (strip s)
  | YOther _ _ text => is_empty (strip text)
  | _ => false
  end.

End Yaml.
Import Yaml.

(* ------------------------------------------------------------------ *)
(** ** validator.py *)

Module Validator.

Definition EM_DASH : char := 8212%N.

Definition REQUIRED_HEADERS : list str :=
  [ lit "### Technical Context";
    lit "### Investigation Steps";
    lit "### Prioritization";
    lit "### Blind Spots and Assumptions" ].

Definition DISCLAIMER_PREFIX : str := lit "> **Disclaimer:**".

Definition MINIMUM_LENGTH : nat := 200.

Record ValidationResult := {
  passed : bool;
  errors : list str
}.

(** [re.compile(r"^\s*\*\s", re.MULTILINE)] tried at one position that is
    the start of a line: all leading whitespace, a star, one whitespace. *)
Definition star_bullet_here (s : str) : bool :=
  match lstrip s with
  | 42%N :: c :: _ => is_space c
  | _ => false
  end.

(** [star_bullet_pattern.search(text)]: [^] holds at the start of the
    text and after every LF. *)
Fixpoint star_bullet_search (line_start : bool) (s : str) : bool :=
  (line_start && star_bullet_here s)
  || match s with
     | [] => false
     | c :: r => star_bullet_search (N.eqb c LF) r
     end.

(** The lines after the first line whose stripped text is [header]:
    [lines[idx + 1:]], or [None] on [StopIteration]. *)
Fixpoint lines_after (header : str) (lines : list str) : option (list str) :=
  match lines with
  | [] => None
  | line :: r =>
      if str_eqb (strip line) header then Some r else lines_after header r
  end.

(** The inner loop of [_check_section_content]. *)
Fixpoint has_content (lines : list str) : bool :=
  match lines with
  | [] => false
  | subsequent :: r =>
      let stripped := strip subsequent in
      if startswith stripped (lit "### ") then false
      else if negb (is_empty stripped) && negb (startswith stripped (lit ">"))
      then true
      else if startswith stripped (lit ">") then true
      else has_content r
  end.

Definition _check_section_content (text : str) (errors : list str) : list str :=
  let lines := splitlines (strip text) in
  fold_left
    (fun errors header =>
       match lines_after header lines with
       | None => errors
       | Some rest =>
           if has_content rest then errors
           else errors ++ [lit "Section '" ++ header
                           ++ lit "' has no content after the header"]
       end)
    REQUIRED_HEADERS errors.

Definition validate_response (text : str) : ValidationResult :=
  if is_empty text || is_empty (strip text) then
    {| passed := false; errors := [lit "Response is empty"] |}
  else
    let errors := [] in
    let errors :=
      if Nat.ltb (List.length (strip text)) MINIMUM_LENGTH then
        errors ++ [lit "Response too short (" ++ str_of_nat (List.length (strip text))
                   ++ lit " chars, minimum " ++ str_of_nat MINIMUM_LENGTH
                   ++ lit ")"]
      else errors in
    let errors :=
      fold_left
        (fun errors header =>
           if negb (contains text header) then
             errors ++ [lit "Missing required header: " ++ header]
           else errors)
        REQUIRED_HEADERS errors in
    let errors :=
      if negb (contains text DISCLAIMER_PREFIX) then
        errors ++ [lit "Missing disclaimer blockquote (> **Disclaimer:**)"]
      else errors in
    let errors :=
      if star_bullet_search true text then
        errors ++ [lit "Found * bullet(s) " ++ [EM_DASH]
                   ++ lit " must use dash-prefixed (-) bullets only"]
      else errors in
    let errors :=
      if contains text (lit "```") then
        errors ++ [lit "Found triple-backtick code block(s) " ++ [EM_DASH]
                   ++ lit " code blocks are not allowed"]
      else errors in
    let errors := _check_section_content text errors in
    {| passed := Nat.eqb (List.length errors) 0; errors := errors |}.

End Validator.
Import Validator.

(* ------------------------------------------------------------------ *)
(** ** The file system the run works on *)

Module Files.

(** An exception that leaves the function. *)
Inductive escaped : Type :=
| SystemExit (code : Z)
| TypeError
| AttributeError
| OSError
| UnicodeDecodeError
| RecursionError.

Inductive completion (A : Type) : Type :=
| Done (a : A)
| Escapes (e : escaped).
Arguments Done {A} a.
Arguments Escapes {A} e.

(** The outcome of writing a file: success, or an [OSError] with its
    message that leaves [remains] at the path ([None]: no file). *)
Inductive write_outcome (A : Type) : Type :=
| WriteOk
| WriteFails (msg : str) (remains : option A).
Arguments WriteOk {A}.
Arguments WriteFails {A} msg remains.

(** [yaml.load] of an open file or of a text. *)
Inductive load_outcome : Type :=
| LoadRaises (msg : str)
| Loaded (rule_data : yaml).

(** What is at a path under the output directory, as [Path.exists]
    and [open] see it. *)
Inductive out_file : Type :=
| OutNoStat                (* [stat] raises an [OSError] that [exists] passes
                              on: permission denied, name too long *)
| OutUnreadable            (* [exists] holds, [open] or the read raises *)
| OutText (text : str).    (* a file with this text *)

End Files.
Import Files.

(* ------------------------------------------------------------------ *)
(** ** cache.py *)

Module Cache.

Definition CACHE_VERSION : Z := 1%Z.

(** One entry of ["rules"] that is a JSON object.  The code reads both
    keys with [.get], so an entry read back from disk may lack either. *)
Record CacheEntry := {
  content_hash : option str;
  last_processed : option str
}.

(** A value stored under a path in ["rules"]: an entry object, or any
    other JSON value, of which the code takes the truth value only. *)
Inductive entry_value : Type :=
| EntryObject (entry : CacheEntry)
| EntryOther (truth : bool).

(** The value of ["rules"]: an object, or any other JSON value; [sized]
    tells whether [len()] applies to it (a list or a string) or not
    (null, a number, a boolean). *)
Inductive rules_value : Type :=
| RulesObject (r : Dict.dict entry_value)
| RulesOther (sized : bool).

(** [self.data]: the index [{version, prompt_hash, rules}].  [prompt_hash]
    and [rules] are read with [.get] and may be missing in an index read
    back from disk. *)
Record CacheIndex := {
  version : Z;
  prompt_hash : option str;
  rules : option rules_value
}.

(** The cache file [output_dir / CACHE_FILENAME] as [Path.exists],
    [open] and [json.load] see it. *)
Inductive cache_file : Type :=
| JsonNoStat                     (* [stat] raises an [OSError] that [exists]
                                    passes on *)
| JsonUnreadable                 (* [open] raises [OSError] *)
| JsonNotUtf8                    (* the read raises [UnicodeDecodeError] *)
| JsonInvalid                    (* [json.load] raises [JSONDecodeError] *)
| JsonTooDeep                    (* [json.load] raises [RecursionError] *)
| JsonNotDict                    (* valid JSON that is not an object *)
| JsonIndex (loaded : CacheIndex).

Record FS := {
  cache_path : option cache_file;          (* [None]: the file is absent *)
  out_files : Dict.dict out_file           (* by path under [output_dir] *)
}.

(** The index [__init__] starts from. *)
Definition empty_index : CacheIndex :=
  {| version := CACHE_VERSION; prompt_hash := Some [];
     rules := Some (RulesObject []) |}.

(** [Cache._load].  The [try] catches [JSONDecodeError] and [OSError]
    only, and [exists] and the [len()] of the debug message stand where
    nothing catches what they raise. *)
Definition _load (fs : FS) (data : CacheIndex) : completion CacheIndex :=
  match cache_path fs with
  | None => Done data
  | Some JsonNoStat => Escapes OSError
  | Some JsonUnreadable => Done data
  | Some JsonNotUtf8 => Escapes UnicodeDecodeError
  | Some JsonInvalid => Done data
  | Some JsonTooDeep => Escapes RecursionError
  | Some JsonNotDict => Done data
  | Some (JsonIndex loaded) =>
      if negb (Z.eqb (version loaded) CACHE_VERSION) then Done data
      else
        match rules loaded with
        | Some (RulesOther false) => Escapes TypeError     (* [len()] *)
        | _ => Done loaded
        end
  end.

(** [Cache.__init__] *)
Definition init (fs : FS) : completion CacheIndex := _load fs empty_index.

(** [Cache.save]: [w] tells whether the write goes through. *)
Definition save (w : write_outcome cache_file) (data : CacheIndex) (fs : FS) : FS :=
  match w with
  | WriteOk =>
      {| cache_path := Some (JsonIndex data); out_files := out_files fs |}
  | WriteFails _ remains =>
      {| cache_path := remains; out_files := out_files fs |}
  end.

(** [not entry]: an entry object is falsy when it is the empty
    dictionary. *)
Definition entry_falsy (e : entry_value) : bool :=
  match e with
  | EntryObject entry =>
      match content_hash entry, last_processed entry with
      | None, None => true
      | _, _ => false
      end
  | EntryOther truth => negb truth
  end.

Definition opt_str_eqb (a : option str) (b : str) : bool :=
  match a with Some x => str_eqb x b | None => false end.

(** [out_data.get("note", "") if out_data else ""] followed by the test
    [not note or not str(note).strip()]; [None] stands for the
    [AttributeError] of [.get] on a value that is not a mapping. *)
Definition note_blank (out_data : yaml) : option bool :=
  if truthy out_data then
    match out_data with
    | YMap _ m =>
        let note := match Dict.get (lit "note") m with
                    | Some v => v
                    | None => YStr PLAIN []
                    end in
        Some (negb (truthy note) || str_blank note)
    | _ => None
    end
  else Some true.

Section Loader.
(** [YAML().load] with [preserve_quotes], applied to the text of a
    file: a library function. *)
Variable yaml_load : str -> load_outcome.

(** [Cache.should_skip].  The [try] covers the reading of the output
    file only: [rules.get], [entry.get] and [output_file.exists()] stand
    before it. *)
Definition should_skip (data : CacheIndex) (fs : FS)
    (relative_path content_hash' prompt_hash' output_file : str)
  : completion bool :=
  if negb (opt_str_eqb (prompt_hash data) prompt_hash') then Done false
  else
    match rules data with
    | Some (RulesOther _) => Escapes AttributeError      (* [rules.get] *)
    | stored =>
        let rules := match stored with
                     | Some (RulesObject r) => r
                     | _ => []
                     end in
        match Dict.get relative_path rules with
        | None => Done false
        | Some entry =>
            if entry_falsy entry then Done false
            else
              match entry with
              | EntryOther _ => Escapes AttributeError   (* [entry.get] *)
              | EntryObject entry =>
                  if negb (opt_str_eqb (content_hash entry) content_hash')
                  then Done false
                  else
                    match Dict.get output_file (out_files fs) with
                    | None => Done false           (* not output_file.exists() *)
                    | Some OutNoStat => Escapes OSError
                    | Some OutUnreadable => Done false    (* except Exception *)
                    | Some (OutText text) =>
                        match yaml_load text with
                        | LoadRaises _ => Done false      (* except Exception *)
                        | Loaded out_data =>
                            match note_blank out_data with
                            | None => Done false          (* except Exception *)
                            | Some true => Done false
                            | Some false => Done true
                            end
                        end
                    end
              end
        end
    end.
End Loader.

(** [Cache.update_rule]; [now] is
    [datetime.now(timezone.utc).isoformat()].  The item assignment
    raises [TypeError] when ["rules"] is there and is not an object. *)
Definition update_rule (now : str) (data : CacheIndex)
    (relative_path content_hash' : str) : completion CacheIndex :=
  match rules data with
  | Some (RulesOther _) => Escapes TypeError
  | stored =>
      let rules := match stored with
                   | Some (RulesObject r) => r
                   | _ => []
                   end in
      Done {| version := version data;
              prompt_hash := prompt_hash data;
              rules := Some (RulesObject
                               (Dict.set relative_path
                                  (EntryObject
                                     {| content_hash := Some content_hash';
                                        last_processed := Some now |})
                                  rules)) |}
  end.

(** [Cache.set_prompt_hash] *)
Definition set_prompt_hash (data : CacheIndex) (prompt_hash' : str) : CacheIndex :=
  {| version := version data;
     prompt_hash := Some prompt_hash';
     rules := rules data |}.

(** The two digests.  [yaml_dump] is [YAML().dump] with
    [preserve_quotes] to a string and [sha256_hex] is
    [hashlib.sha256(...).hexdigest()] of its UTF-8 encoding; both are
    library functions. *)
Section Hashing.
Variable yaml_dump : yaml -> str.
Variable sha256_hex : str -> str.

Definition is_note (v : yaml) : bool :=
  match v with YStr _ s => str_eqb s (lit "note") | _ => false end.

(** [compute_rule_hash]; [None] is the [TypeError] raised when
    [rule_data] is not a mapping and ["note" in data_copy] cannot be
    evaluated or [del] cannot be applied.  The deletion leaves the
    comments of the mapping as they are, as [CommentedMap.__delitem__]
    does. *)
Definition compute_rule_hash (rule_data : yaml) : option str :=
  match rule_data with
  | YMap ca m =>
      let data_copy :=
        if Dict.mem (lit "note") m then Dict.del (lit "note") m else m in
      Some (sha256_hex (yaml_dump (YMap ca data_copy)))
  | YStr _ s =>
      if contains s (lit "note") then None
      else Some (sha256_hex (yaml_dump rule_data))
  | YSeq _ items =>
      if existsb is_note items then None
      else Some (sha256_hex (yaml_dump rule_data))
  | YNull | YInt _ _ | YBool _ _ | YOther _ _ _ => None
  end.

(** [compute_prompt_hash] *)
Definition compute_prompt_hash (prompt_text : str) : str :=
  sha256_hex prompt_text.
End Hashing.

End Cache.
Import Cache.

(* ------------------------------------------------------------------ *)
(** ** llm_provider.py *)

Module Provider.

Local Open Scope Z_scope.

(** What one awaited API call does. *)
Inductive api_outcome (Resp Err : Type) : Type :=
| ApiReturns (r : Resp)
| ApiRaises (e : Err).
Arguments ApiReturns {Resp Err} r.
Arguments ApiRaises {Resp Err} e.

(** How [generate] ends.  [RaisesNone] is the [TypeError] of
    [raise last_exception] when [last_exception] is still [None]. *)
Inductive gen_outcome (Err : Type) : Type :=
| Returns (text : str)
| Raises (e : Err)
| RaisesNone.
Arguments Returns {Err} text.
Arguments Raises {Err} e.
Arguments RaisesNone {Err}.

(** A finished call of [generate]: its outcome, the attempts on which the
    API was called and the arguments of [asyncio.sleep], both in order. *)
Record generation (Err : Type) := {
  outcome : gen_outcome Err;
  calls : list Z;
  sleeps : list Z
}.

(** [range(1, n + 1)] *)
Definition attempts_upto (n : Z) : list Z :=
  map Z.of_nat (seq 1 (Z.to_nat n)).

(** The retry loop the two providers share: [text_of] reads the text out
    of a response, [retryable] is true on the [except] branches that
    sleep and go on, and [call] is the awaited API call of an attempt. *)
Section RetryLoop.
Variables Resp Err : Type.
Variable text_of : Resp -> str.
Variable retryable : Err -> bool.
Variable call : Z -> api_outcome Resp Err.

Fixpoint retry_loop (attempts : list Z) (last_exception : option Err)
    (called slept : list Z) : generation Err :=
  match attempts with
  | [] =>
      {| outcome := match last_exception with
                    | Some e => Raises e
                    | None => RaisesNone
                    end;
         calls := called; sleeps := slept |}
  | attempt :: rest =>
      match call attempt with
      | ApiReturns response =>
          {| outcome := Returns (strip (text_of response));
             calls := called ++ [attempt]; sleeps := slept |}
      | ApiRaises e =>
          if retryable e then
            let wait := 2 ^ attempt in
            retry_loop rest (Some e) (called ++ [attempt]) (slept ++ [wait])
          else
            {| outcome := Raises e;
               calls := called ++ [attempt]; sleeps := slept |}
      end
  end.

Definition generate_with (api_max_retries : Z) : generation Err :=
  retry_loop (attempts_upto api_max_retries) None [] [].
End RetryLoop.

Module OpenAIProvider.
(** The exceptions of the [openai] SDK the loop tells apart; [Other] is
    any exception that none of the [except] clauses names. *)
Inductive error : Type :=
| RateLimitError (msg : str)
| APITimeoutError (msg : str)
| APIConnectionError (msg : str)
| APIError (status_code : option Z) (msg : str)
| Other (msg : str).

(** [response.choices[0].message.content], which may be [None]. *)
Definition response := option str.

Definition text_of (r : response) : str :=
  match r with Some content => content | None => [] end.

Definition retryable (e : error) : bool :=
  match e with
  | RateLimitError _ => true
  | APITimeoutError _ => true
  | APIConnectionError _ => true
  | APIError status_code _ =>
      match status_code with
      | Some c => negb (c =? 0) && (500 <=? c)
      | None => false
      end
  | Other _ => false
  end.

Definition generate (api_max_retries : Z)
    (call : Z -> api_outcome response error) : generation error :=
  generate_with text_of retryable call api_max_retries.
End OpenAIProvider.

Module ClaudeProvider.
(** The exceptions of the [anthropic] SDK the loop tells apart. *)
Inductive error : Type :=
| RateLimitError (msg : str)
| APITimeoutError (msg : str)
| APIConnectionError (msg : str)
| APIStatusError (status_code : Z) (msg : str)
| Other (msg : str).

(** [message.content]: the text of each content block. *)
Definition response := list str.

Definition text_of (r : response) : str :=
  match r with text :: _ => text | [] => [] end.

Definition retryable (e : error) : bool :=
  match e with
  | RateLimitError _ => true
  | APITimeoutError _ => true
  | APIConnectionError _ => true
  | APIStatusError status_code _ => 500 <=? status_code
  | Other _ => false
  end.

Definition generate (api_max_retries : Z)
    (call : Z -> api_outcome response error) : generation error :=
  generate_with text_of retryable call api_max_retries.
End ClaudeProvider.

End Provider.

(* ------------------------------------------------------------------ *)
(** ** processor.py *)

Module Processor.

Local Open Scope Z_scope.

Record ProcessingResult := {
  total : nat;
  processed : nat;
  skipped : nat;
  failed : nat;
  failures : list str
}.

(** What [await provider.generate(prompt_text, rule_text)] does for one
    rule file on a given attempt of the validation loop: the text, or an
    [Exception] with its message. *)
Inductive generated : Type :=
| Text (raw_response : str)
| ApiException (msg : str).

Definition LLMProvider := str -> str -> Z -> generated.

(** One discovered rule file and what the outside world does when the
    pipeline handles it. *)
Record RuleFile := {
  rf_relative : str;                  (* [str(relative)] *)
  rf_load : load_outcome;            (* [open(rule_file)], [yaml.load] *)
  rf_text : str;                      (* the raw text sent to the provider *)
  rf_generate : LLMProvider;
  rf_mkdir_ok : bool;                 (* [output_file.parent.mkdir] *)
  rf_dump : yaml -> str;              (* what [yaml.dump] of the task's own
                                         [YAML()], which loaded the file,
                                         writes *)
  rf_write : write_outcome out_file   (* [open(output_file, "w")] and the
                                         write *)
}.

(** The operations on the cache, in the order they happen. *)
Inductive cache_event : Type :=
| CacheLoad
| CacheShouldSkip (relative_path : str)
| CacheUpdateRule (relative_path : str)
| CacheSetPromptHash
| CacheSave.

(** The objects one run shares between its tasks. *)
Record State := {
  result : ProcessingResult;
  cache : CacheIndex;
  fs : FS;
  log : list cache_event
}.

(** [result.failed += 1; result.failures.append(msg)] *)
Definition record_failure (msg : str) (r : ProcessingResult) : ProcessingResult :=
  {| total := total r; processed := processed r; skipped := skipped r;
     failed := S (failed r); failures := failures r ++ [msg] |}.

(** [result.skipped += 1] *)
Definition record_skipped (r : ProcessingResult) : ProcessingResult :=
  {| total := total r; processed := processed r; skipped := S (skipped r);
     failed := failed r; failures := failures r |}.

(** [result.processed += 1] *)
Definition record_processed (r : ProcessingResult) : ProcessingResult :=
  {| total := total r; processed := S (processed r); skipped := skipped r;
     failed := failed r; failures := failures r |}.

Definition with_result (f : ProcessingResult -> ProcessingResult) (st : State) : State :=
  {| result := f (result st); cache := cache st; fs := fs st; log := log st |}.

Definition logged (e : cache_event) (st : State) : State :=
  {| result := result st; cache := cache st; fs := fs st; log := log st ++ [e] |}.

(** What is at [output_file] after the attempt to write it. *)
Definition put_out_file (output_file : str) (now_there : option out_file) (f : FS) : FS :=
  {| cache_path := cache_path f;
     out_files := match now_there with
                  | Some o => Dict.set output_file o (out_files f)
                  | None => Dict.del output_file (out_files f)
                  end |}.

(** [str(n)] for an [int]. *)
Definition str_of_int (n : Z) : str :=
  if n <? 0 then lit "-" ++ str_of_nat (Z.abs_nat n) else str_of_nat (Z.to_nat n).

(** How the validation loop of [_process_single_rule] ends. *)
Inductive loop_end : Type :=
| Accepted (response : str)
| ApiFailed (msg : str)          (* the [return] under [attempt == max_retries] *)
| Exhausted.                     (* [response is None] after the loop *)

Section Loop.
Variable generate : Z -> generated.
Variable max_retries : Z.

(** [for attempt in range(1, max_retries + 1)] *)
Fixpoint validation_loop (attempts : list Z) : loop_end :=
  match attempts with
  | [] => Exhausted
  | attempt :: rest =>
      match generate attempt with
      | ApiException e =>
          if attempt =? max_retries then ApiFailed e
          else validation_loop rest
      | Text raw_response =>
          if passed (validate_response raw_response) then Accepted raw_response
          else validation_loop rest
      end
  end.
End Loop.

Section Pipeline.
Variable yaml_dump : yaml -> str.
Variable yaml_load : str -> load_outcome.
Variable sha256_hex : str -> str.
(** [DISCLAIMER_TEXT] is imported from [validator.py], which does not
    define it: the disclaimer line is a parameter of the pipeline. *)
Variable DISCLAIMER_TEXT : str.
(** The clock: [datetime.now(timezone.utc).isoformat()]. *)
Variable now : str.

(** Lines 261-264: the text stored in the [note] field. *)
Definition note_text (response : str) : str :=
  let cleaned := _clean_markdown response in
  if negb (contains cleaned DISCLAIMER_TEXT) then
    rstrip_char LF cleaned ++ [LF; LF] ++ DISCLAIMER_TEXT ++ [LF]
  else cleaned.

Definition _process_single_rule (rule_file : RuleFile)
    (prompt_text prompt_hash : str) (max_retries : Z) (force : bool)
    (st : State) : completion State :=
  let relative_str := replace_char 92%N 47%N (rf_relative rule_file) in
  let output_file := rf_relative rule_file in
  let fail msg st := Done (with_result (record_failure (relative_str ++ msg)) st) in
  match rf_load rule_file with
  | LoadRaises e =>
      fail (lit ": YAML parse error " ++ [EM_DASH] ++ lit " " ++ e) st
  | Loaded YNull =>
      fail (lit ": Empty YAML file") st
  | Loaded rule_data =>
      match compute_rule_hash yaml_dump sha256_hex rule_data with
      | None => Escapes TypeError
      | Some content_hash =>
          let skip :=
            if force then None
            else Some (should_skip yaml_load (cache st) (fs st) relative_str
                         content_hash prompt_hash output_file) in
          let st := match skip with
                    | Some _ => logged (CacheShouldSkip relative_str) st
                    | None => st
                    end in
          match skip with
          | Some (Escapes e) => Escapes e
          | Some (Done true) => Done (with_result record_skipped st)
          | _ =>
              let rule_text := rf_text rule_file in
              match validation_loop
                      (rf_generate rule_file prompt_text rule_text)
                      max_retries (Provider.attempts_upto max_retries) with
              | ApiFailed e =>
                  fail (lit ": API error " ++ [EM_DASH] ++ lit " " ++ e) st
              | Exhausted =>
                  fail (lit ": Validation failed " ++ str_of_int max_retries
                        ++ lit "x") st
              | Accepted response =>
                  let cleaned := note_text response in
                  match rule_data with
                  | YMap ca m =>
                      let rule_data :=
                        YMap ca (Dict.set (lit "note") (YStr LITERAL cleaned) m) in
                      if negb (rf_mkdir_ok rule_file) then Escapes OSError
                      else
                        match rf_write rule_file with
                        | WriteFails e remains =>
                            fail (lit ": Write error " ++ [EM_DASH] ++ lit " " ++ e)
                              {| result := result st; cache := cache st;
                                 fs := put_out_file output_file remains (fs st);
                                 log := log st |}
                        | WriteOk =>
                            match update_rule now (cache st) relative_str
                                    content_hash with
                            | Escapes e => Escapes e
                            | Done cache' =>
                                Done
                                  {| result := record_processed (result st);
                                     cache := cache';
                                     fs := put_out_file output_file
                                             (Some (OutText
                                                      (rf_dump rule_file
                                                         rule_data)))
                                             (fs st);
                                     log := log st
                                            ++ [CacheUpdateRule relative_str] |}
                            end
                        end
                  | _ => Escapes TypeError      (* item assignment *)
                  end
              end
          end
      end
  end.

(** The tasks of one run, taken in the order of [yaml_files].  A task
    touches the shared [result] and [cache] only between two [await]s,
    reads and writes the cache under its own key and changes [result] by
    increments, so when the files have different keys the counters and
    the index do not depend on the schedule; only the order of
    [failures] does.  A task that raises makes [asyncio.gather]
    raise, and with it [process_rules]. *)
Fixpoint process_all (files : list RuleFile)
    (prompt_text prompt_hash : str) (max_retries : Z) (force : bool)
    (st : State) : completion State :=
  match files with
  | [] => Done st
  | rule_file :: rest =>
      match _process_single_rule rule_file prompt_text prompt_hash
              max_retries force st with
      | Done st' => process_all rest prompt_text prompt_hash max_retries force st'
      | Escapes e => Escapes e
      end
  end.

(** What the outside world gives one call of [process_rules]. *)
Record Env := {
  env_prompt : option str;            (* the prompt text; [None]: [open] raises *)
  env_mkdir_ok : bool;                (* [output_dir.mkdir] *)
  env_files : list RuleFile;          (* [_collect_yaml_files(input_path)] *)
  env_save : write_outcome cache_file (* the write of [Cache.save] *)
}.

(** A finished call: how it ended, the file system it leaves and the
    cache operations it made.  When an exception escapes from a task the
    files written by the tasks are not tracked: [run_fs] is then the
    file system the run started from. *)
Record Run := {
  run_end : completion ProcessingResult;
  run_fs : FS;
  run_log : list cache_event
}.

Definition process_rules (env : Env) (fs0 : FS) (max_retries : Z)
    (force : bool) : Run :=
  let result := {| total := 0; processed := 0; skipped := 0; failed := 0;
                   failures := [] |} in
  match env_prompt env with
  | None => {| run_end := Escapes OSError; run_fs := fs0; run_log := [] |}
  | Some prompt_text =>
      let prompt_hash := compute_prompt_hash sha256_hex prompt_text in
      if negb (env_mkdir_ok env) then
        {| run_end := Escapes OSError; run_fs := fs0; run_log := [] |}
      else
        let log := [CacheLoad] in
        match Cache.init fs0 with
        | Escapes e => {| run_end := Escapes e; run_fs := fs0; run_log := log |}
        | Done cache =>
            let yaml_files := env_files env in
            let result := {| total := List.length yaml_files;
                             processed := processed result;
                             skipped := skipped result;
                             failed := failed result;
                             failures := failures result |} in
            if Nat.eqb (total result) 0 then
              {| run_end := Escapes (SystemExit 1); run_fs := fs0;
                 run_log := log |}
            else
              match process_all yaml_files prompt_text prompt_hash max_retries
                      force
                      {| result := result; cache := cache; fs := fs0;
                         log := log |}
              with
              | Escapes e =>
                  {| run_end := Escapes e; run_fs := fs0; run_log := log |}
              | Done st =>
                  let cache := set_prompt_hash (Processor.cache st) prompt_hash in
                  let fs1 := save (env_save env) cache (fs st) in
                  {| run_end := Done (Processor.result st);
                     run_fs := fs1;
                     run_log := Processor.log st
                                ++ [CacheSetPromptHash; CacheSave] |}
              end
        end
  end.
End Pipeline.

End Processor.
Import Processor.

(* ================================================================== *)
(** * Facts about the string operations *)

Unset Implicit Arguments.

Section StrFacts.

Local Open Scope N_scope.

Lemma list_ind2 (A : Type) (P : list A -> Prop) :
  P [] ->
  (forall a, P [a]) ->
  (forall a b l, P l -> P (b :: l) -> P (a :: b :: l)) ->
  forall l, P l.
Proof.
  intros Hnil Hone Hstep l.
  assert (H : P l /\ forall a, P (a :: l)).
  { induction l as [|b l [IH1 IH2]].
    - split; [exact Hnil | exact Hone].
    - split; [apply IH2 | intro a; apply Hstep; [exact IH1 | apply IH2]]. }
  exact (proj1 H).
Qed.

Lemma is_linebreak_space c : is_linebreak c = true -> is_space c = true.
Proof.
  unfold is_linebreak, is_space.
  repeat rewrite ?orb_true_iff, ?andb_true_iff, ?N.leb_le, ?N.eqb_eq.
  lia.
Qed.

Lemma nonspace_not_linebreak c : is_space c = false -> is_linebreak c = false.
Proof.
  intro H. destruct (is_linebreak c) eqn:E; [|reflexivity].
  apply is_linebreak_space in E. congruence.
Qed.

Lemma str_eqb_eq a b : str_eqb a b = true <-> a = b.
Proof.
  revert b. induction a as [|x a IH]; intros [|y b]; simpl; split;
    try congruence; try reflexivity.
  - rewrite andb_true_iff, N.eqb_eq, IH. intros [-> ->]. reflexivity.
  - intros [= -> ->]. rewrite N.eqb_refl. simpl. apply IH. reflexivity.
Qed.

Lemma str_eqb_refl a : str_eqb a a = true.
Proof. apply str_eqb_eq. reflexivity. Qed.

Lemma str_eqb_neq a b : str_eqb a b = false <-> a <> b.
Proof.
  rewrite <- str_eqb_eq. destruct (str_eqb a b); split; congruence.
Qed.

(** *** [rstrip], [lstrip], [strip] *)

Lemma rstrip_cons c r :
  rstrip (c :: r) =
  match rstrip r with
  | [] => if is_space c then [] else [c]
  | r' => c :: r'
  end.
Proof. reflexivity. Qed.

Lemma rstrip_cons_nonspace c r :
  is_space c = false -> rstrip (c :: r) = c :: rstrip r.
Proof.
  intro H. rewrite rstrip_cons, H. destruct (rstrip r); reflexivity.
Qed.

Lemma rstrip_cons_nonblank c r :
  rstrip r <> [] -> rstrip (c :: r) = c :: rstrip r.
Proof.
  intro H. rewrite rstrip_cons. destruct (rstrip r); congruence.
Qed.

Lemma rstrip_idem s : rstrip (rstrip s) = rstrip s.
Proof.
  induction s as [|c r IH]; [reflexivity|].
  rewrite rstrip_cons. destruct (rstrip r) as [|d r'] eqn:E.
  - destruct (is_space c) eqn:Hc; [reflexivity|].
    simpl. rewrite Hc. reflexivity.
  - rewrite rstrip_cons_nonblank; rewrite IH; congruence.
Qed.

Lemma rstrip_app_nonblank a b :
  rstrip b <> [] -> rstrip (a ++ b) = a ++ rstrip b.
Proof.
  intro H. induction a as [|c a IH]; [reflexivity|].
  simpl app. rewrite rstrip_cons_nonblank; rewrite IH; [reflexivity|].
  destruct a; simpl; [exact H | discriminate].
Qed.

Lemma rstrip_app_blank a b :
  rstrip b = [] -> rstrip (a ++ b) = rstrip a.
Proof.
  intro H. induction a as [|c a IH]; [exact H|].
  simpl app. rewrite !rstrip_cons, IH. reflexivity.
Qed.

Lemma rstrip_Forall (P : char -> Prop) s : Forall P s -> Forall P (rstrip s).
Proof.
  induction 1 as [|c r Hc Hr IH]; [constructor|].
  rewrite rstrip_cons. destruct (rstrip r).
  - destruct (is_space c); constructor; [exact Hc | constructor].
  - constructor; assumption.
Qed.

(** A text without trailing whitespace keeps none when its first
    character is removed. *)
Lemma trimmed_tail c r : rstrip (c :: r) = c :: r -> rstrip r = r.
Proof.
  rewrite rstrip_cons. destruct (rstrip r) as [|d r'] eqn:E.
  - destruct (is_space c); [discriminate|]. intros [= <-]. reflexivity.
  - intros [= <-]. reflexivity.
Qed.

Lemma trimmed_single c : rstrip [c] = [c] -> is_space c = false.
Proof. simpl. destruct (is_space c); [discriminate | reflexivity]. Qed.

Lemma trimmed_nonblank s : rstrip s = s -> s <> [] -> rstrip s <> [].
Proof. intros -> H. exact H. Qed.

Lemma lstrip_nonspace c r : is_space c = false -> lstrip (c :: r) = c :: r.
Proof. intro H. simpl. rewrite H. reflexivity. Qed.

Lemma lstrip_shape s :
  lstrip s = [] \/ exists c r, lstrip s = c :: r /\ is_space c = false.
Proof.
  induction s as [|c r IH]; [left; reflexivity|].
  simpl. destruct (is_space c) eqn:Hc; [exact IH|].
  right. exists c, r. split; [reflexivity | exact Hc].
Qed.

(** [strip] returns the empty text or a text that begins and ends with a
    character that is not whitespace. *)
Lemma strip_shape s :
  strip s = [] \/
  exists c r, strip s = c :: r /\ is_space c = false /\ rstrip (c :: r) = c :: r.
Proof.
  unfold strip. destruct (lstrip_shape s) as [-> | (c & r & -> & Hc)].
  - left. reflexivity.
  - right. exists c, (rstrip r). rewrite (rstrip_cons_nonspace _ _ Hc).
    repeat split; [exact Hc|].
    rewrite (rstrip_cons_nonspace _ _ Hc), rstrip_idem. reflexivity.
Qed.

(** *** [endswith] and [contains] *)

Lemma trimmed_not_endswith_LF s : rstrip s = s -> endswith s [LF] = false.
Proof.
  induction s as [|c r IH]; [reflexivity|].
  intro H. pose proof (trimmed_tail _ _ H) as Hr.
  simpl endswith. rewrite (IH Hr), orb_false_r.
  destruct r as [|d r]; simpl.
  - apply trimmed_single in H. rewrite andb_true_r.
    destruct (N.eqb_spec c LF) as [->|]; [discriminate H | reflexivity].
  - apply andb_false_r.
Qed.

Lemma endswith_app_self a b : endswith (a ++ b) b = true.
Proof.
  induction a as [|c a IH]; simpl.
  - destruct b; simpl; [reflexivity|].
    rewrite N.eqb_refl, str_eqb_refl. reflexivity.
  - rewrite IH. apply orb_true_r.
Qed.

Lemma startswith_spec s p : startswith s p = true <-> exists b, s = p ++ b.
Proof.
  revert s. induction p as [|y p IH]; intros s.
  - destruct s; simpl; split; eauto.
  - destruct s as [|x s]; simpl.
    + split; [discriminate | intros [b Hb]; discriminate].
    + rewrite andb_true_iff, N.eqb_eq, IH. split.
      * intros [-> [b ->]]. exists b. reflexivity.
      * intros [b [= -> ->]]. split; [reflexivity | exists b; reflexivity].
Qed.

Lemma contains_spec s sub :
  contains s sub = true <-> exists a b, s = a ++ sub ++ b.
Proof.
  induction s as [|x s IH].
  - change (contains [] sub) with (startswith [] sub || false).
    rewrite orb_false_r, startswith_spec. split.
    + intros [b Hb]. exists [], b. exact Hb.
    + intros (a & b & H). destruct a; [|discriminate].
      exists b. exact H.
  - change (contains (x :: s) sub)
      with (startswith (x :: s) sub || contains s sub).
    rewrite orb_true_iff, startswith_spec, IH. split.
    + intros [[b Hb] | (a & b & ->)].
      * exists [], b. exact Hb.
      * exists (x :: a), b. reflexivity.
    + intros (a & b & H). destruct a as [|y a].
      * left. exists b. exact H.
      * right. injection H as -> ->. exists a, b. reflexivity.
Qed.



End StrFacts.

(* ------------------------------------------------------------------ *)
(** * Facts about lines *)

Section LineFacts.

Local Open Scope N_scope.

(** A line holds no line boundary. *)
Definition one_line (l : str) : Prop := Forall (fun c => is_linebreak c = false) l.

(** A line has no trailing whitespace. *)
Definition trimmed (l : str) : Prop := rstrip l = l.

(** The last line, if there is one, is not blank. *)
Fixpoint ends_nonblank (lines : list str) : Prop :=
  match lines with
  | [] => True
  | [l] => rstrip l <> []
  | _ :: rest => ends_nonblank rest
  end.

(** No empty line follows an empty line; [prev_blank] says whether an
    empty line, or the start of the text, comes just before. *)
Fixpoint no_blank_run (prev_blank : bool) (lines : list str) : Prop :=
  match lines with
  | [] => True
  | [] :: rest => prev_blank = false /\ no_blank_run true rest
  | (_ :: _) :: rest => no_blank_run false rest
  end.

(** No two neighbouring lines are both blank. *)
Fixpoint no_adjacent_blank (lines : list str) : Prop :=
  match lines with
  | [] => True
  | l :: rest =>
      match rest with
      | [] => True
      | l' :: _ => ~ (rstrip l = [] /\ rstrip l' = [])
      end /\ no_adjacent_blank rest
  end.

Lemma splitlines_cons c rest :
  splitlines (c :: rest) =
  if is_linebreak c then
    match rest with
    | d :: rest' =>
        if (c =? CR) && (d =? LF) then [] :: splitlines rest'
        else [] :: splitlines rest
    | [] => [[]]
    end
  else
    match splitlines rest with
    | [] => [[c]]
    | l :: ls => (c :: l) :: ls
    end.
Proof. reflexivity. Qed.

Lemma splitlines_nonempty c rest : splitlines (c :: rest) <> [].
Proof.
  rewrite splitlines_cons. destruct (is_linebreak c).
  - destruct rest as [|d rest']; [discriminate|].
    destruct ((c =? CR) && (d =? LF)); discriminate.
  - destruct (splitlines rest); discriminate.
Qed.

Lemma splitlines_one_line s : Forall one_line (splitlines s).
Proof.
  induction s as [| a | a b l IH1 IH2] using list_ind2.
  - constructor.
  - simpl. destruct (is_linebreak a) eqn:E; repeat constructor. exact E.
  - rewrite splitlines_cons. destruct (is_linebreak a) eqn:E.
    + destruct ((a =? CR) && (b =? LF)); constructor;
        solve [constructor | assumption].
    + destruct (splitlines (b :: l)) as [|l0 ls]; [repeat constructor; exact E|].
      inversion IH2; subst. constructor; [|assumption].
      constructor; assumption.
Qed.

(** A line followed by LF is split off. *)
Lemma splitlines_line_LF l s :
  one_line l -> splitlines (l ++ LF :: s) = l :: splitlines s.
Proof.
  induction 1 as [|c l Hc Hl IH].
  - simpl app. rewrite splitlines_cons.
    change (is_linebreak LF) with true. cbv iota.
    destruct s as [|d s']; [reflexivity|].
    change (LF =? CR) with false. reflexivity.
  - simpl app. rewrite splitlines_cons, Hc, IH. reflexivity.
Qed.

Lemma splitlines_single l : one_line l -> l <> [] -> splitlines l = [l].
Proof.
  induction 1 as [|c l Hc Hl IH]; [congruence|]. intros _.
  rewrite splitlines_cons, Hc. destruct l as [|d l]; [reflexivity|].
  rewrite IH by discriminate. reflexivity.
Qed.

(** The last line of a text without trailing whitespace is not blank. *)
Lemma splitlines_ends_nonblank s : trimmed s -> ends_nonblank (splitlines s).
Proof.
  unfold trimmed.
  induction s as [| a | a b l IH1 IH2] using list_ind2; intro H.
  - exact I.
  - apply trimmed_single in H.
    rewrite splitlines_cons, (nonspace_not_linebreak _ H). simpl.
    rewrite H. discriminate.
  - pose proof (trimmed_tail _ _ H) as Hbl.
    pose proof (trimmed_tail _ _ Hbl) as Hl.
    specialize (IH1 Hl). specialize (IH2 Hbl).
    pose proof (splitlines_nonempty b l) as Hne.
    rewrite splitlines_cons. destruct (is_linebreak a) eqn:E.
    + destruct ((a =? CR) && (b =? LF)) eqn:Ecr.
      * destruct l as [|c l].
        { apply andb_true_iff in Ecr. destruct Ecr as [_ Eb].
          apply N.eqb_eq in Eb. subst b. discriminate Hbl. }
        pose proof (splitlines_nonempty c l) as Hne'.
        destruct (splitlines (c :: l)); [congruence | exact IH1].
      * destruct (splitlines (b :: l)); [congruence | exact IH2].
    + destruct (splitlines (b :: l)) as [|l0 ls]; [congruence|].
      destruct ls as [|l1 ls]; [|exact IH2].
      change (rstrip l0 <> []) in IH2. change (rstrip (a :: l0) <> []).
      rewrite rstrip_cons_nonblank by exact IH2. discriminate.
Qed.

(** *** [join] *)

Lemma join_cons2 x y r :
  join [LF] (x :: y :: r) = x ++ LF :: join [LF] (y :: r).
Proof. reflexivity. Qed.

Lemma splitlines_join out :
  Forall one_line out -> Forall trimmed out -> ends_nonblank out ->
  splitlines (join [LF] out) = out.
Proof.
  induction out as [| x | x y r IH1 IH2] using list_ind2; intros Hl Ht He.
  - reflexivity.
  - simpl in *. inversion Hl; subst. inversion Ht; subst.
    apply splitlines_single; [assumption|].
    intros ->. apply He. reflexivity.
  - rewrite join_cons2. inversion Hl; subst. inversion Ht; subst.
    rewrite splitlines_line_LF by assumption.
    rewrite IH2; [reflexivity | assumption | assumption | exact He].
Qed.

Lemma splitlines_join_LF out :
  Forall one_line out -> out <> [] ->
  splitlines (join [LF] out ++ [LF]) = out.
Proof.
  induction out as [| x | x y r IH1 IH2] using list_ind2; intros Hl Hne.
  - congruence.
  - simpl. inversion Hl; subst.
    rewrite splitlines_line_LF by assumption. reflexivity.
  - rewrite join_cons2, <- app_assoc, <- app_comm_cons.
    inversion Hl; subst.
    rewrite splitlines_line_LF by assumption.
    rewrite IH2; [reflexivity | assumption | discriminate].
Qed.

Lemma join_trimmed out :
  Forall trimmed out -> ends_nonblank out -> out <> [] ->
  trimmed (join [LF] out) /\ join [LF] out <> [].
Proof.
  unfold trimmed.
  induction out as [| x | x y r IH1 IH2] using list_ind2; intros Ht He Hne.
  - congruence.
  - simpl in *. inversion Ht; subst. split; [assumption|].
    intros ->. apply He. reflexivity.
  - inversion Ht; subst.
    destruct IH2 as [IHt IHn]; [assumption | exact He | discriminate |].
    rewrite join_cons2. split.
    + rewrite rstrip_app_nonblank.
      * rewrite rstrip_cons_nonblank; rewrite IHt; [reflexivity | exact IHn].
      * rewrite rstrip_cons_nonblank; rewrite IHt; [discriminate | exact IHn].
    + destruct x; discriminate.
Qed.

Lemma join_head c l rest : exists r, join [LF] ((c :: l) :: rest) = c :: r.
Proof.
  destruct rest as [|y rest]; [exists l; reflexivity|].
  rewrite join_cons2. eexists. reflexivity.
Qed.

End LineFacts.

(* ------------------------------------------------------------------ *)
(** * Facts about [_clean_markdown] *)

Section CleanFacts.

Local Open Scope N_scope.

(** The lines the loop of [_clean_markdown] appends to [output]. *)
Fixpoint clean_lines (prev_blank : bool) (lines : list str) : list str :=
  match lines with
  | [] => []
  | line :: rest =>
      let stripped := rstrip line in
      if is_empty stripped then
        if prev_blank then clean_lines true rest else [] :: clean_lines true rest
      else stripped :: clean_lines false rest
  end.

Lemma fold_clean_step lines output prev_blank :
  fst (fold_left clean_step lines (output, prev_blank))
  = output ++ clean_lines prev_blank lines.
Proof.
  revert output prev_blank.
  induction lines as [|line rest IH]; intros output prev_blank.
  - simpl. rewrite app_nil_r. reflexivity.
  - simpl. destruct (is_empty (rstrip line)).
    + destruct prev_blank; rewrite IH; [reflexivity|].
      rewrite <- app_assoc. reflexivity.
    + rewrite IH, <- app_assoc. reflexivity.
Qed.

Lemma clean_markdown_eq text :
  _clean_markdown text =
  let result := join [LF] (clean_lines true (splitlines (strip text))) in
  if endswith result [LF] then result else result ++ [LF].
Proof.
  unfold _clean_markdown.
  pose proof (fold_clean_step (splitlines (strip text)) [] true) as H.
  destruct (fold_left clean_step (splitlines (strip text)) ([], true))
    as [output pb].
  simpl in H. subst output. reflexivity.
Qed.

Lemma clean_lines_lines lines prev_blank :
  Forall one_line lines ->
  Forall one_line (clean_lines prev_blank lines)
  /\ Forall trimmed (clean_lines prev_blank lines)
  /\ no_blank_run prev_blank (clean_lines prev_blank lines).
Proof.
  intro H. revert prev_blank.
  induction H as [|line rest Hl Hr IH]; intro prev_blank.
  - repeat split; constructor.
  - simpl. destruct (rstrip line) as [|c s] eqn:E; simpl.
    + destruct prev_blank.
      * apply IH.
      * destruct (IH true) as (A & B & C).
        repeat split; try constructor; try assumption.
        { constructor. }
        { reflexivity. }
    + destruct (IH false) as (A & B & C).
      repeat split; try constructor; try assumption.
      * rewrite <- E. apply rstrip_Forall. exact Hl.
      * unfold trimmed. rewrite <- E. apply rstrip_idem.
Qed.

Lemma ends_nonblank_cons x rest :
  rest <> [] -> ends_nonblank rest -> ends_nonblank (x :: rest).
Proof. destruct rest; [congruence | intros _ H; exact H]. Qed.

Lemma clean_lines_ends lines prev_blank :
  lines <> [] -> ends_nonblank lines ->
  clean_lines prev_blank lines <> []
  /\ ends_nonblank (clean_lines prev_blank lines).
Proof.
  revert prev_blank.
  induction lines as [|line rest IH]; intros prev_blank Hne He; [congruence|].
  destruct rest as [|line' rest].
  - change (rstrip line <> []) in He.
    change (clean_lines prev_blank [line])
      with (if is_empty (rstrip line)
            then if prev_blank then [] else [[]]
            else [rstrip line]).
    destruct (rstrip line) as [|c s] eqn:E; [congruence|].
    change (is_empty (c :: s)) with false. cbv iota.
    split; [discriminate|]. change (rstrip (c :: s) <> []).
    rewrite <- E, rstrip_idem, E. discriminate.
  - change (ends_nonblank (line' :: rest)) in He.
    assert (Hne' : line' :: rest <> []) by discriminate.
    change (clean_lines prev_blank (line :: line' :: rest))
      with (if is_empty (rstrip line)
            then if prev_blank then clean_lines true (line' :: rest)
                 else [] :: clean_lines true (line' :: rest)
            else rstrip line :: clean_lines false (line' :: rest)).
    destruct (is_empty (rstrip line)); [destruct prev_blank|].
    + apply IH; assumption.
    + destruct (IH true Hne' He) as [A B].
      split; [discriminate | apply ends_nonblank_cons; assumption].
    + destruct (IH false Hne' He) as [A B].
      split; [discriminate | apply ends_nonblank_cons; assumption].
Qed.

Lemma clean_lines_head c l ls prev_blank :
  is_space c = false ->
  clean_lines prev_blank ((c :: l) :: ls)
  = (c :: rstrip l) :: clean_lines false ls.
Proof.
  intro Hc.
  change (clean_lines prev_blank ((c :: l) :: ls))
    with (if is_empty (rstrip (c :: l))
          then if prev_blank then clean_lines true ls
               else [] :: clean_lines true ls
          else rstrip (c :: l) :: clean_lines false ls).
  rewrite (rstrip_cons_nonspace _ _ Hc). reflexivity.
Qed.

(** The loop leaves lines it has produced as they are. *)
Lemma clean_lines_fixed out prev_blank :
  Forall trimmed out -> no_blank_run prev_blank out ->
  clean_lines prev_blank out = out.
Proof.
  intro H. revert prev_blank.
  induction H as [|x rest Hx Hr IH]; intros prev_blank Hrun; [reflexivity|].
  simpl. rewrite Hx. destruct x as [|c s]; simpl in *.
  - destruct Hrun as [-> Hrun]. rewrite (IH _ Hrun). reflexivity.
  - rewrite (IH _ Hrun). reflexivity.
Qed.

Lemma no_blank_run_adjacent out prev_blank :
  Forall trimmed out -> no_blank_run prev_blank out -> no_adjacent_blank out.
Proof.
  intro H. revert prev_blank.
  induction H as [|x rest Hx Hr IH]; intros prev_blank Hrun; [exact I|].
  assert (Hrest : exists pb, no_blank_run pb rest).
  { destruct x; simpl in Hrun; [exists true; tauto | exists false; exact Hrun]. }
  destruct Hrest as [pb Hpb]. split; [|exact (IH _ Hpb)].
  destruct rest as [|y rest]; [exact I|].
  inversion Hr as [|? ? Hy _]; subst. rewrite Hx, Hy. intros [-> ->].
  simpl in Hrun. destruct Hrun as [_ [Hfalse _]]. discriminate.
Qed.

(** What [_clean_markdown] produces from a text that is not blank: lines
    joined by LF, followed by one LF. *)
Record normal (out : list str) : Prop := {
  normal_lines : Forall one_line out;
  normal_trimmed : Forall trimmed out;
  normal_run : no_blank_run true out;
  normal_ends : ends_nonblank out;
  normal_head : exists c l rest, out = (c :: l) :: rest /\ is_space c = false
}.

Lemma normal_join out :
  normal out ->
  trimmed (join [LF] out) /\ endswith (join [LF] out) [LF] = false.
Proof.
  intros [Hl Ht Hr He (c & l & rest & -> & Hc)].
  destruct (join_trimmed _ Ht He) as [Hj _]; [discriminate|].
  split; [exact Hj | apply trimmed_not_endswith_LF; exact Hj].
Qed.

Lemma clean_markdown_shape text :
  _clean_markdown text = [LF]
  \/ exists out, normal out /\ _clean_markdown text = join [LF] out ++ [LF].
Proof.
  rewrite clean_markdown_eq.
  destruct (strip_shape text) as [-> | (c & r & -> & Hc & Ht)].
  - left. reflexivity.
  - right.
    pose proof (splitlines_one_line (c :: r)) as Hl.
    pose proof (splitlines_ends_nonblank _ Ht) as He.
    pose proof (splitlines_nonempty c r) as Hne.
    destruct (clean_lines_lines _ true Hl) as (A & B & C).
    destruct (clean_lines_ends _ true Hne He) as [D E].
    assert (Hhead : exists l rest,
               clean_lines true (splitlines (c :: r)) = (c :: l) :: rest).
    { rewrite splitlines_cons, (nonspace_not_linebreak _ Hc).
      destruct (splitlines r) as [|l0 ls];
        rewrite (clean_lines_head _ _ _ _ Hc); eexists _, _; reflexivity. }
    set (out := clean_lines true (splitlines (c :: r))) in *.
    assert (Hn : normal out).
    { constructor; try assumption.
      destruct Hhead as (l & rest & ->). exists c, l, rest.
      split; [reflexivity | exact Hc]. }
    exists out. split; [exact Hn|].
    cbv zeta. rewrite (proj2 (normal_join _ Hn)). reflexivity.
Qed.

Lemma clean_markdown_normal out :
  normal out ->
  _clean_markdown (join [LF] out ++ [LF]) = join [LF] out ++ [LF].
Proof.
  intro Hn. pose proof (normal_join _ Hn) as [Hj He].
  destruct Hn as [Hl Ht Hr Hend (c & l & rest & -> & Hc)].
  rewrite clean_markdown_eq.
  assert (Hs : strip (join [LF] ((c :: l) :: rest) ++ [LF])
               = join [LF] ((c :: l) :: rest)).
  { unfold strip. destruct (join_head c l rest) as [r' Hr'].
    rewrite Hr' in *. rewrite <- app_comm_cons, (lstrip_nonspace _ _ Hc).
    rewrite app_comm_cons, rstrip_app_blank by reflexivity. exact Hj. }
  rewrite Hs, (splitlines_join _ Hl Ht Hend), (clean_lines_fixed _ _ Ht Hr).
  cbv zeta. rewrite He. reflexivity.
Qed.

End CleanFacts.

Section CleanTheorem.

Local Open Scope N_scope.

Lemma str_eqb_snoc a b c : str_eqb (a ++ [c]) (b ++ [c]) = str_eqb a b.
Proof.
  apply eq_true_iff_eq. rewrite !str_eqb_eq. split.
  - apply app_inv_tail.
  - intros ->. reflexivity.
Qed.

Lemma endswith_snoc a s c : endswith (a ++ [c]) (s ++ [c]) = endswith a s.
Proof.
  induction a as [|x a IH].
  - destruct s as [|y s]; simpl.
    + rewrite N.eqb_refl. reflexivity.
    + destruct s; simpl; rewrite ?andb_false_r; reflexivity.
  - change (endswith ((x :: a) ++ [c]) (s ++ [c]))
      with (str_eqb ((x :: a) ++ [c]) (s ++ [c])
            || endswith (a ++ [c]) (s ++ [c])).
    rewrite str_eqb_snoc, IH. reflexivity.
Qed.

(** C10.  [_clean_markdown] is idempotent, and its result always ends with
    exactly one LF (it ends with LF but not with two), has no line with
    trailing whitespace and has no two blank lines in a row; the lines are
    those of [str.splitlines]. *)
Theorem clean_markdown_idempotent (t : str) :
  _clean_markdown (_clean_markdown t) = _clean_markdown t
  /\ endswith (_clean_markdown t) [LF] = true
  /\ endswith (_clean_markdown t) [LF; LF] = false
  /\ Forall (fun line => rstrip line = line) (splitlines (_clean_markdown t))
  /\ no_adjacent_blank (splitlines (_clean_markdown t)).
Proof.
  destruct (clean_markdown_shape t) as [-> | (out & Hn & ->)].
  - repeat split; try reflexivity; repeat constructor.
  - pose proof (normal_join _ Hn) as [Hj He].
    assert (Hne : out <> []).
    { destruct Hn as [_ _ _ _ (c & l & rest & -> & _)]. discriminate. }
    split; [apply clean_markdown_normal; exact Hn|].
    split; [apply endswith_app_self|].
    split; [change [LF; LF] with ([LF] ++ [LF]); rewrite endswith_snoc; exact He|].
    rewrite (splitlines_join_LF _ (normal_lines _ Hn) Hne).
    split; [exact (normal_trimmed _ Hn)|].
    exact (no_blank_run_adjacent _ _ (normal_trimmed _ Hn) (normal_run _ Hn)).
Qed.

End CleanTheorem.

(* ================================================================== *)
(** * The cache *)

Section DictFacts.
Variable V : Type.
Implicit Types (d : Dict.dict V) (k : str) (v : V).

Lemma dict_get_set_same k v d : Dict.get k (Dict.set k v d) = Some v.
Proof.
  induction d as [|[k' v'] d IH]; simpl.
  - rewrite str_eqb_refl. reflexivity.
  - destruct (str_eqb k' k) eqn:E; simpl; rewrite E; [reflexivity | exact IH].
Qed.

Lemma dict_get_set_other k k' v d :
  k' <> k -> Dict.get k' (Dict.set k v d) = Dict.get k' d.
Proof.
  intro Hk. induction d as [|[k0 v0] d IH]; simpl.
  - destruct (str_eqb k k') eqn:E; [|reflexivity].
    apply str_eqb_eq in E. congruence.
  - destruct (str_eqb k0 k) eqn:E; simpl.
    + apply str_eqb_eq in E. subst k0.
      destruct (str_eqb k k') eqn:E2; [|reflexivity].
      apply str_eqb_eq in E2. congruence.
    + rewrite IH. reflexivity.
Qed.

Lemma dict_del_set_same k v d : Dict.del k (Dict.set k v d) = Dict.del k d.
Proof.
  induction d as [|[k' v'] d IH]; simpl.
  - rewrite str_eqb_refl. reflexivity.
  - destruct (str_eqb k' k) eqn:E; simpl; rewrite E; [reflexivity|].
    rewrite IH. reflexivity.
Qed.

Lemma dict_del_idem k d : Dict.del k (Dict.del k d) = Dict.del k d.
Proof.
  induction d as [|[k' v'] d IH]; simpl; [reflexivity|].
  destruct (str_eqb k' k) eqn:E; simpl; [exact IH|].
  rewrite E, IH. reflexivity.
Qed.

Lemma dict_del_absent k d : Dict.mem k d = false -> Dict.del k d = d.
Proof.
  unfold Dict.mem. induction d as [|[k' v'] d IH]; simpl; [reflexivity|].
  destruct (str_eqb k' k); [discriminate|].
  intro H. rewrite (IH H). reflexivity.
Qed.
End DictFacts.

Section CacheFacts.
Variable yaml_load : str -> load_outcome.

Local Abbreviation skip := (should_skip yaml_load).

(** The value the index holds under a path, if ["rules"] is an object
    that has one. *)
Definition entry_of (data : CacheIndex) (relative_path : str) : option entry_value :=
  match rules data with
  | Some (RulesObject r) => Dict.get relative_path r
  | _ => None
  end.

(** A note that counts: a value that is truthy and whose [str()] does
    not trim to nothing.  A zero and [False] do not count. *)
Definition nonblank (v : yaml) : Prop :=
  match v with
  | YNull => False
  | YStr _ s => strip s <> []
  | YInt _ z => z <> 0%Z
  | YBool _ b => b = true
  | YOther _ truth text => truth = true /\ strip text <> []
  | YSeq _ items => items <> []
  | YMap _ m => m <> []
  end.

(** The text parses as a mapping whose [note] counts. *)
Definition loads_with_note (loaded : load_outcome) : Prop :=
  exists ca m v,
    loaded = Loaded (YMap ca m)
    /\ Dict.get (lit "note") m = Some v
    /\ nonblank v.

(** The output file exists, can be read and parses as a mapping whose
    [note] counts. *)
Definition has_nonblank_note (fs : FS) (output_file : str) : Prop :=
  exists text,
    Dict.get output_file (out_files fs) = Some (OutText text)
    /\ loads_with_note (yaml_load text).

Lemma opt_str_eqb_eq a b : opt_str_eqb a b = true <-> a = Some b.
Proof.
  destruct a as [x|]; simpl.
  - rewrite str_eqb_eq. split; congruence.
  - split; discriminate.
Qed.

Lemma strip_nil : strip [] = [].
Proof. reflexivity. Qed.

Lemma is_empty_false (s : str) : is_empty s = false <-> s <> [].
Proof. destruct s; simpl; split; congruence. Qed.

Lemma note_value_nonblank v :
  negb (truthy v) || str_blank v = false <-> nonblank v.
Proof.
  destruct v as [| p s | p z | p b | p truth text | p items | p m]; simpl.
  - split; [discriminate | tauto].
  - destruct s as [|c s].
    + simpl. split; [discriminate | intro H; exfalso; apply H; reflexivity].
    + change (negb (negb (is_empty (c :: s)))) with false.
      rewrite orb_false_l. apply is_empty_false.
  - rewrite orb_false_r, negb_involutive. apply Z.eqb_neq.
  - rewrite orb_false_r. destruct b; simpl; split; congruence.
  - destruct truth; simpl.
    + rewrite is_empty_false. tauto.
    + split; [discriminate | intros [H _]; discriminate].
  - destruct items; simpl; split; congruence.
  - destruct m; simpl; split; congruence.
Qed.

Lemma note_blank_false out_data :
  note_blank out_data = Some false <-> loads_with_note (Loaded out_data).
Proof.
  unfold note_blank, loads_with_note. split.
  - destruct out_data as [| p s | p z | p b | p truth text | p items | p m];
      simpl.
    + discriminate.
    + destruct (negb (is_empty s)); discriminate.
    + destruct (negb (z =? 0)%Z); discriminate.
    + destruct b; discriminate.
    + destruct truth; discriminate.
    + destruct items; discriminate.
    + destruct m as [|b m]; [discriminate|].
      destruct (Dict.get (lit "note") (b :: m)) as [v|] eqn:E.
      * intros [= H]. exists p, (b :: m), v.
        repeat split; [exact E | apply note_value_nonblank; exact H].
      * discriminate.
  - intros (ca & m & v & [= ->] & Hget & Hv).
    destruct m as [|b m]; [discriminate Hget|].
    change (truthy (YMap ca (b :: m))) with true. cbv iota.
    rewrite Hget. f_equal. apply note_value_nonblank. exact Hv.
Qed.

(** The three conditions of [should_skip]. *)
Definition skip_conditions (data : CacheIndex) (fs : FS)
    (relative_path content_hash prompt_hash output_file : str) : Prop :=
  Cache.prompt_hash data = Some prompt_hash
  /\ (exists entry,
        entry_of data relative_path = Some (EntryObject entry)
        /\ Cache.content_hash entry = Some content_hash)
  /\ has_nonblank_note fs output_file.

(** When [should_skip] raises [e] instead of answering: the prompt hash
    matches and ["rules"] or the value under the path is not an object,
    or the entry matches as well and the output path cannot be
    examined. *)
Definition skip_raises (data : CacheIndex) (fs : FS)
    (relative_path content_hash prompt_hash output_file : str)
    (e : escaped) : Prop :=
  Cache.prompt_hash data = Some prompt_hash
  /\ ((e = AttributeError
       /\ exists sized, rules data = Some (RulesOther sized))
      \/ (e = AttributeError
          /\ entry_of data relative_path = Some (EntryOther true))
      \/ (e = OSError
          /\ (exists entry,
                entry_of data relative_path = Some (EntryObject entry)
                /\ Cache.content_hash entry = Some content_hash)
          /\ Dict.get output_file (out_files fs) = Some OutNoStat)).

(** [should_skip], decision by decision. *)
Lemma should_skip_cases data fs relative_path content_hash prompt_hash output_file :
  skip data fs relative_path content_hash prompt_hash output_file
  = if negb (opt_str_eqb (Cache.prompt_hash data) prompt_hash) then Done false
    else
      match rules data with
      | Some (RulesOther _) => Escapes AttributeError
      | _ =>
          match entry_of data relative_path with
          | None => Done false
          | Some (EntryOther truth) =>
              if truth then Escapes AttributeError else Done false
          | Some (EntryObject entry) =>
              if opt_str_eqb (Cache.content_hash entry) content_hash then
                match Dict.get output_file (out_files fs) with
                | None => Done false
                | Some OutNoStat => Escapes OSError
                | Some OutUnreadable => Done false
                | Some (OutText text) =>
                    match yaml_load text with
                    | LoadRaises _ => Done false
                    | Loaded out_data =>
                        match note_blank out_data with
                        | Some false => Done true
                        | _ => Done false
                        end
                    end
                end
              else Done false
          end
      end.
Proof.
  unfold should_skip, entry_of.
  destruct (negb (opt_str_eqb (Cache.prompt_hash data) prompt_hash));
    [reflexivity|].
  destruct (rules data) as [[r | sized]|]; try reflexivity.
  destruct (Dict.get relative_path r) as [[entry | truth]|]; try reflexivity.
  - unfold entry_falsy.
    destruct (Cache.content_hash entry) as [c|] eqn:Ec; simpl.
    + destruct (str_eqb c content_hash); reflexivity.
    + destruct (last_processed entry); reflexivity.
  - destruct truth; reflexivity.
Qed.

Lemma should_skip_true data fs relative_path content_hash prompt_hash output_file :
  skip data fs relative_path content_hash prompt_hash output_file = Done true
  <-> skip_conditions data fs relative_path content_hash prompt_hash output_file.
Proof.
  rewrite should_skip_cases.
  unfold skip_conditions, has_nonblank_note.
  destruct (opt_str_eqb (Cache.prompt_hash data) prompt_hash) eqn:Ep; simpl.
  2:{ split; [discriminate|]. intros [H _].
      apply opt_str_eqb_eq in H. congruence. }
  apply opt_str_eqb_eq in Ep.
  destruct (entry_of data relative_path) as [[entry | truth]|] eqn:Ee.
  2:{ split; [|intros (_ & (e & H & _) & _); discriminate].
      destruct (rules data) as [[r | sized]|], truth; discriminate. }
  2:{ split; [|intros (_ & (e & H & _) & _); discriminate].
      destruct (rules data) as [[r | sized]|]; discriminate. }
  destruct (rules data) as [[r | sized]|] eqn:Er;
    try (unfold entry_of in Ee; rewrite Er in Ee; discriminate).
  destruct (opt_str_eqb (Cache.content_hash entry) content_hash) eqn:Ec.
  2:{ split; [discriminate|].
      intros (_ & (e & [= <-] & He) & _).
      apply opt_str_eqb_eq in He. congruence. }
  apply opt_str_eqb_eq in Ec.
  destruct (Dict.get output_file (out_files fs)) as [[| | text]|] eqn:Ef.
  - split; [discriminate|]. intros (_ & _ & t & H & _). discriminate.
  - split; [discriminate|]. intros (_ & _ & t & H & _). discriminate.
  - destruct (yaml_load text) as [msg | out_data] eqn:El.
    + split; [discriminate|].
      intros (_ & _ & t & [= <-] & ca & m & v & H & _).
      rewrite El in H. discriminate.
    + destruct (note_blank out_data) as [[|]|] eqn:En.
      * split; [discriminate|].
        intros (_ & _ & t & [= <-] & H). rewrite El in H.
        apply note_blank_false in H. congruence.
      * split; [|reflexivity]. intros _. split; [exact Ep|].
        split; [exists entry; split; [reflexivity | exact Ec]|].
        exists text. split; [reflexivity|]. rewrite El.
        apply note_blank_false. exact En.
      * split; [discriminate|].
        intros (_ & _ & t & [= <-] & H). rewrite El in H.
        apply note_blank_false in H. congruence.
  - split; [discriminate|]. intros (_ & _ & t & H & _). discriminate.
Qed.

Lemma should_skip_raises data fs relative_path content_hash prompt_hash
    output_file e :
  skip data fs relative_path content_hash prompt_hash output_file = Escapes e
  <-> skip_raises data fs relative_path content_hash prompt_hash output_file e.
Proof.
  rewrite should_skip_cases. unfold skip_raises.
  destruct (opt_str_eqb (Cache.prompt_hash data) prompt_hash) eqn:Ep; simpl.
  2:{ split; [discriminate|]. intros [H _].
      apply opt_str_eqb_eq in H. congruence. }
  apply opt_str_eqb_eq in Ep.
  destruct (rules data) as [[r | sized]|] eqn:Er.
  2:{ assert (E : entry_of data relative_path = None)
        by (unfold entry_of; rewrite Er; reflexivity).
      split.
      - intros [= <-]. split; [exact Ep|]. left.
        split; [reflexivity | exists sized; reflexivity].
      - intros (_ & [(-> & _) | [(_ & H) | (_ & (e0 & H & _) & _)]]);
          [reflexivity | congruence | congruence]. }
  2:{ assert (E : entry_of data relative_path = None)
        by (unfold entry_of; rewrite Er; reflexivity).
      rewrite E. split; [discriminate|].
      intros (_ & [(_ & sized & H) | [(_ & H) | (_ & (e0 & H & _) & _)]]);
        discriminate. }
  destruct (entry_of data relative_path) as [[entry | truth]|] eqn:Ee.
  2:{ destruct truth.
      - split.
        + intros [= <-]. split; [exact Ep|]. right. left.
          split; reflexivity.
        + intros (_ & [(-> & _) | [(-> & _) | (_ & (e0 & H & _) & _)]]);
            [reflexivity | reflexivity | discriminate].
      - split; [discriminate|].
        intros (_ & [(_ & sized & H) | [(_ & H) | (_ & (e0 & H & _) & _)]]);
          discriminate. }
  2:{ split; [discriminate|].
      intros (_ & [(_ & sized & H) | [(_ & H) | (_ & (e0 & H & _) & _)]]);
        discriminate. }
  destruct (opt_str_eqb (Cache.content_hash entry) content_hash) eqn:Ec.
  2:{ split; [discriminate|].
      intros (_ & [(_ & sized & H) | [(_ & H) | (_ & (e0 & [= <-] & H) & _)]]);
        [discriminate | discriminate |].
      apply opt_str_eqb_eq in H. congruence. }
  apply opt_str_eqb_eq in Ec.
  destruct (Dict.get output_file (out_files fs)) as [[| | text]|] eqn:Ef.
  - split.
    + intros [= <-]. split; [exact Ep|]. right. right.
      split; [reflexivity|].
      split; [exists entry; split; [reflexivity | exact Ec] | reflexivity].
    + intros (_ & [(_ & sized & H) | [(_ & H) | (-> & _)]]);
        [discriminate | discriminate | reflexivity].
  - split; [discriminate|].
    intros (_ & [(_ & sized & H) | [(_ & H) | (_ & _ & H)]]); discriminate.
  - split.
    + destruct (yaml_load text) as [msg | out_data]; [discriminate|].
      destruct (note_blank out_data) as [[|]|]; discriminate.
    + intros (_ & [(_ & sized & H) | [(_ & H) | (_ & _ & H)]]); discriminate.
  - split; [discriminate|].
    intros (_ & [(_ & sized & H) | [(_ & H) | (_ & _ & H)]]); discriminate.
Qed.

(** C1 (amended).  [should_skip] answers true exactly when the stored
    prompt hash is [prompt_hash], the index has an entry object for the
    path whose content hash is [content_hash], and the output file
    exists and parses as a mapping whose [note] is truthy and not blank
    once trimmed.  It raises, instead of answering, exactly when the
    prompt hash matches and either ["rules"] or the value under the path
    is not an object ([AttributeError]) or the entry matches too and the
    output path cannot be examined ([OSError]).  In every other case it
    answers false; so, for an index that matches, when the output file
    is absent, cannot be opened, or does not parse as a mapping with a
    note that counts. *)
Theorem should_skip_iff (data : CacheIndex) (fs : FS)
    (relative_path content_hash prompt_hash output_file : str) :
  let answer :=
    should_skip yaml_load data fs relative_path content_hash prompt_hash
      output_file in
  (answer = Done true
   <-> (Cache.prompt_hash data = Some prompt_hash
        /\ (exists entry,
              entry_of data relative_path = Some (EntryObject entry)
              /\ Cache.content_hash entry = Some content_hash)
        /\ has_nonblank_note fs output_file))
  /\ (forall e,
        answer = Escapes e
        <-> skip_raises data fs relative_path content_hash prompt_hash
              output_file e)
  /\ (answer = Done false
      <-> (~ skip_conditions data fs relative_path content_hash prompt_hash
             output_file
           /\ forall e,
                ~ skip_raises data fs relative_path content_hash prompt_hash
                    output_file e))
  /\ (forall entry,
        Cache.prompt_hash data = Some prompt_hash ->
        entry_of data relative_path = Some (EntryObject entry) ->
        Cache.content_hash entry = Some content_hash ->
        (Dict.get output_file (out_files fs) = None
         \/ Dict.get output_file (out_files fs) = Some OutUnreadable
         \/ exists text,
              Dict.get output_file (out_files fs) = Some (OutText text)
              /\ ~ loads_with_note (yaml_load text)) ->
        answer = Done false).
Proof.
  cbv zeta.
  pose proof (should_skip_true data fs relative_path content_hash prompt_hash
                output_file) as Htrue.
  pose proof (should_skip_raises data fs relative_path content_hash prompt_hash
                output_file) as Hraise.
  unfold skip_conditions in Htrue.
  assert (Hfalse :
    skip data fs relative_path content_hash prompt_hash output_file = Done false
    <-> (~ skip_conditions data fs relative_path content_hash prompt_hash
             output_file
         /\ forall e,
              ~ skip_raises data fs relative_path content_hash prompt_hash
                  output_file e)).
  { unfold skip_conditions.
    destruct (skip data fs relative_path content_hash prompt_hash output_file)
      as [[|] | e0].
    - split; [discriminate|]. intros [H _]. exfalso. apply H, Htrue.
      reflexivity.
    - split; [|reflexivity]. intros _. split.
      + intro H. apply Htrue in H. discriminate.
      + intros e H. apply Hraise in H. discriminate.
    - split; [discriminate|]. intros [_ H]. exfalso. apply (H e0), Hraise.
      reflexivity. }
  split; [exact Htrue|]. split; [exact Hraise|]. split; [exact Hfalse|].
  intros entry Hp He Hc Hfile. apply Hfalse. split.
  - intros (_ & _ & text & Hget & Hl).
    destruct Hfile as [H | [H | (t & H & Hn)]]; [congruence | congruence |].
    rewrite Hget in H. injection H as <-. exact (Hn Hl).
  - intros e (_ & [(_ & sized & H) | [(_ & H) | (_ & _ & H)]]).
    + unfold entry_of in He. rewrite H in He. discriminate.
    + congruence.
    + destruct Hfile as [H' | [H' | (t & H' & _)]]; congruence.
Qed.

End CacheFacts.

Section HashFacts.
Variable yaml_dump : yaml -> str.
Variable sha256_hex : str -> str.

(** The hash of a mapping is the digest of the mapping without
    [note]. *)
Lemma compute_rule_hash_map ca m :
  compute_rule_hash yaml_dump sha256_hex (YMap ca m)
  = Some (sha256_hex (yaml_dump (YMap ca (Dict.del (lit "note") m)))).
Proof.
  unfold compute_rule_hash.
  destruct (Dict.mem (lit "note") m) eqn:E; [reflexivity|].
  rewrite (dict_del_absent _ _ _ E). reflexivity.
Qed.

(** C2.  Setting the [note] field of a loaded document to any value
    (which adds it when it is absent and edits it when it is present) or
    deleting it leaves [compute_rule_hash] unchanged, whatever comments
    and styles the document carries; more generally two documents with
    the same comments that agree once [note] is left out have the same
    hash. *)
Theorem compute_rule_hash_ignores_note (ca : presentation) (D : Dict.dict yaml) :
  (forall v,
     compute_rule_hash yaml_dump sha256_hex (YMap ca (Dict.set (lit "note") v D))
     = compute_rule_hash yaml_dump sha256_hex (YMap ca D))
  /\ compute_rule_hash yaml_dump sha256_hex (YMap ca (Dict.del (lit "note") D))
     = compute_rule_hash yaml_dump sha256_hex (YMap ca D)
  /\ (forall D',
        Dict.del (lit "note") D' = Dict.del (lit "note") D ->
        compute_rule_hash yaml_dump sha256_hex (YMap ca D')
        = compute_rule_hash yaml_dump sha256_hex (YMap ca D))
  /\ exists h, compute_rule_hash yaml_dump sha256_hex (YMap ca D) = Some h.
Proof.
  repeat split.
  - intro v. rewrite !compute_rule_hash_map, dict_del_set_same. reflexivity.
  - rewrite !compute_rule_hash_map, dict_del_idem. reflexivity.
  - intros D' H. rewrite !compute_rule_hash_map, H. reflexivity.
  - eexists. apply compute_rule_hash_map.
Qed.
End HashFacts.

Section RoundTrip.

(** ["rules"] is missing or an object: the index supports
    [should_skip] and [update_rule]. *)
Definition rules_usable (data : CacheIndex) : Prop :=
  forall sized, rules data <> Some (RulesOther sized).

(** [len()] applies to ["rules"]: the index can be loaded. *)
Definition rules_sized (data : CacheIndex) : Prop :=
  rules data <> Some (RulesOther false).

Lemma init_version fs data :
  Cache.init fs = Done data -> version data = CACHE_VERSION.
Proof.
  unfold Cache.init, _load.
  destruct (cache_path fs) as [[| | | | | | loaded]|];
    try discriminate; try (intros [= <-]; reflexivity).
  destruct (Z.eqb_spec (version loaded) CACHE_VERSION) as [E|E]; simpl.
  - destruct (rules loaded) as [[r | [|]]|];
      try discriminate; intros [= <-]; exact E.
  - intros [= <-]. reflexivity.
Qed.

Lemma init_sized fs data : Cache.init fs = Done data -> rules_sized data.
Proof.
  unfold Cache.init, _load, rules_sized.
  destruct (cache_path fs) as [[| | | | | | loaded]|];
    try discriminate; try (intros [= <-]; discriminate).
  destruct (negb (version loaded =? CACHE_VERSION)%Z);
    [intros [= <-]; discriminate|].
  destruct (rules loaded) as [[r | [|]]|] eqn:E;
    try discriminate; intros [= <-]; rewrite E; discriminate.
Qed.

Lemma init_saved data fs :
  version data = CACHE_VERSION -> rules_sized data ->
  Cache.init (save WriteOk data fs) = Done data.
Proof.
  intros H Hs. unfold Cache.init, _load, save. simpl.
  rewrite H, Z.eqb_refl. simpl.
  destruct (rules data) as [[r | [|]]|] eqn:E; try reflexivity.
  exfalso. exact (Hs E).
Qed.

Lemma update_rule_done now data relative_path c :
  rules_usable data ->
  update_rule now data relative_path c
  = Done {| version := version data;
            prompt_hash := prompt_hash data;
            rules := Some (RulesObject
                             (Dict.set relative_path
                                (EntryObject
                                   {| content_hash := Some c;
                                      last_processed := Some now |})
                                match rules data with
                                | Some (RulesObject r) => r
                                | _ => []
                                end)) |}.
Proof.
  intro H. unfold update_rule.
  destruct (rules data) as [[r | sized]|] eqn:E; try reflexivity.
  exfalso. exact (H sized E).
Qed.

Lemma update_rule_returns now data relative_path c data' :
  update_rule now data relative_path c = Done data' ->
  rules_usable data
  /\ version data' = version data
  /\ prompt_hash data' = prompt_hash data
  /\ rules_usable data'
  /\ entry_of data' relative_path
     = Some (EntryObject {| content_hash := Some c;
                            last_processed := Some now |}).
Proof.
  unfold update_rule, rules_usable.
  destruct (rules data) as [[r | sized]|] eqn:E; try discriminate;
    intros [= <-]; unfold entry_of; cbn [rules version prompt_hash];
    first [rewrite dict_get_set_same | simpl; rewrite str_eqb_refl];
    repeat split; intros; discriminate.
Qed.

Lemma update_rule_raises now data relative_path c e :
  update_rule now data relative_path c = Escapes e ->
  e = TypeError /\ exists sized, rules data = Some (RulesOther sized).
Proof.
  unfold update_rule.
  destruct (rules data) as [[r | sized]|]; try discriminate.
  intros [= <-]. split; [reflexivity | exists sized; reflexivity].
Qed.

(** C8.  Starting from the cache constructed over any output directory,
    after [set_prompt_hash(h)], [update_rule(p, c)] and a [save()] whose
    write goes through, a freshly constructed cache over the same
    directory holds the index that was saved: its prompt hash is [h] and
    its entry for [p] has content hash [c].  [update_rule] returns
    whenever ["rules"] of the loaded index is missing or an object. *)
Theorem cache_round_trip (fs : FS) (now h p c : str) (cache0 : CacheIndex) :
  Cache.init fs = Done cache0 ->
  (rules_usable cache0 ->
   exists cache,
     update_rule now (set_prompt_hash cache0 h) p c = Done cache)
  /\ (forall cache,
        update_rule now (set_prompt_hash cache0 h) p c = Done cache ->
        exists cache2,
          Cache.init (save WriteOk cache fs) = Done cache2
          /\ cache2 = cache
          /\ prompt_hash cache2 = Some h
          /\ exists entry,
               entry_of cache2 p = Some (EntryObject entry)
               /\ content_hash entry = Some c).
Proof.
  intro Hinit. split.
  - intro Hu. eexists. apply update_rule_done. exact Hu.
  - intros cache Hup.
    destruct (update_rule_returns _ _ _ _ _ Hup) as (_ & Hv & Hp & Hu & He).
    exists cache. split.
    + apply init_saved.
      * rewrite Hv. simpl. exact (init_version _ _ Hinit).
      * exact (Hu false).
    + split; [reflexivity|]. split; [rewrite Hp; reflexivity|].
      eexists. split; [exact He | reflexivity].
Qed.

End RoundTrip.

(* ================================================================== *)
(** * The provider retry loop *)

Module ProviderFacts.
Import Provider.

Local Open Scope Z_scope.

Lemma attempts_upto_In n j : In j (attempts_upto n) <-> 1 <= j <= n.
Proof.
  unfold attempts_upto. rewrite in_map_iff. split.
  - intros (i & <- & Hi). apply in_seq in Hi. lia.
  - intros H. exists (Z.to_nat j). split; [lia|]. apply in_seq. lia.
Qed.

Lemma attempts_upto_snoc k :
  1 <= k -> attempts_upto k = attempts_upto (k - 1) ++ [k].
Proof.
  intro H. unfold attempts_upto.
  replace (Z.to_nat k) with (S (Z.to_nat (k - 1))) by lia.
  rewrite seq_S, map_app. simpl. f_equal. f_equal. lia.
Qed.

Lemma attempts_upto_split k n :
  1 <= k <= n -> exists rest, attempts_upto n = attempts_upto k ++ rest.
Proof.
  intro H. unfold attempts_upto.
  replace (Z.to_nat n) with (Z.to_nat k + (Z.to_nat n - Z.to_nat k))%nat by lia.
  rewrite seq_app, map_app. eexists. reflexivity.
Qed.

Section Loop.
Variables Resp Err : Type.
Variable text_of : Resp -> str.
Variable retryable : Err -> bool.
Variable call : Z -> api_outcome Resp Err.

(** The call of an attempt fails with an error of a retried class. *)
Definition transient (attempt : Z) : Prop :=
  exists e, call attempt = ApiRaises e /\ retryable e = true.

(** [last_exception] after the attempts of [pre] all failed. *)
Fixpoint last_error (pre : list Z) (last : option Err) : option Err :=
  match pre with
  | [] => last
  | j :: r =>
      last_error r (match call j with ApiRaises e => Some e | _ => last end)
  end.

Lemma last_error_snoc pre j last e :
  call j = ApiRaises e -> last_error (pre ++ [j]) last = Some e.
Proof.
  intro H. revert last. induction pre as [|i pre IH]; intro last; simpl.
  - rewrite H. reflexivity.
  - apply IH.
Qed.

Lemma retry_loop_prefix pre post last called slept :
  Forall transient pre ->
  retry_loop text_of retryable call (pre ++ post) last called slept
  = retry_loop text_of retryable call post (last_error pre last)
      (called ++ pre) (slept ++ map (Z.pow 2) pre).
Proof.
  intro H. revert last called slept.
  induction H as [|j pre (e & Hj & He) Hpre IH]; intros last called slept.
  - simpl. rewrite !app_nil_r. reflexivity.
  - simpl. rewrite Hj, He, IH, <- !app_assoc. reflexivity.
Qed.

Lemma transient_upto k :
  (forall j, 1 <= j <= k -> transient j) -> Forall transient (attempts_upto k).
Proof.
  intro H. apply Forall_forall. intros j Hj.
  apply H, attempts_upto_In, Hj.
Qed.

(** What [generate] does, by the first attempt that is not a transient
    failure. *)
Definition retry_contract (generate : Z -> generation Err) : Prop :=
  forall api_max_retries : Z,
    (* a success after transient failures is returned, stripped *)
    (forall k r,
        1 <= k <= api_max_retries ->
        (forall j, 1 <= j <= k - 1 -> transient j) ->
        call k = ApiReturns r ->
        generate api_max_retries
        = {| outcome := Returns (strip (text_of r));
             calls := attempts_upto k;
             sleeps := map (Z.pow 2) (attempts_upto (k - 1)) |})
    (* an error of another class is raised at once *)
    /\ (forall k e,
        1 <= k <= api_max_retries ->
        (forall j, 1 <= j <= k - 1 -> transient j) ->
        call k = ApiRaises e -> retryable e = false ->
        generate api_max_retries
        = {| outcome := Raises e;
             calls := attempts_upto k;
             sleeps := map (Z.pow 2) (attempts_upto (k - 1)) |})
    (* when every attempt fails transiently, the last error is raised *)
    /\ (forall e,
        1 <= api_max_retries ->
        (forall j, 1 <= j <= api_max_retries -> transient j) ->
        call api_max_retries = ApiRaises e ->
        generate api_max_retries
        = {| outcome := Raises e;
             calls := attempts_upto api_max_retries;
             sleeps := map (Z.pow 2) (attempts_upto api_max_retries) |}).

Lemma retry_contract_holds :
  retry_contract (generate_with text_of retryable call).
Proof.
  intro n. unfold generate_with. repeat split.
  - intros k r Hk Hpre Hcall.
    destruct (attempts_upto_split k n Hk) as [rest ->].
    rewrite (attempts_upto_snoc k) by lia. rewrite <- app_assoc.
    rewrite retry_loop_prefix by (apply transient_upto; exact Hpre).
    simpl. rewrite Hcall. reflexivity.
  - intros k e Hk Hpre Hcall He.
    destruct (attempts_upto_split k n Hk) as [rest ->].
    rewrite (attempts_upto_snoc k) by lia. rewrite <- app_assoc.
    rewrite retry_loop_prefix by (apply transient_upto; exact Hpre).
    simpl. rewrite Hcall, He. reflexivity.
  - intros e Hn Hall Hcall.
    rewrite <- (app_nil_r (attempts_upto n)) at 1.
    rewrite retry_loop_prefix by (apply transient_upto; exact Hall).
    simpl. rewrite (attempts_upto_snoc n) at 1 by exact Hn.
    rewrite (last_error_snoc _ _ _ _ Hcall). reflexivity.
Qed.

(** With no attempt to make, [raise last_exception] raises [None]. *)
Lemma generate_without_attempts api_max_retries :
  api_max_retries <= 0 ->
  generate_with text_of retryable call api_max_retries
  = {| outcome := RaisesNone; calls := []; sleeps := [] |}.
Proof.
  intro H. unfold generate_with, attempts_upto.
  replace (Z.to_nat api_max_retries) with 0%nat by lia. reflexivity.
Qed.
End Loop.

(** C6.  For both providers: transient failures (rate limiting, timeout,
    connection failure, status 500 and above) are retried, within
    [api_max_retries] attempts, each followed by a wait of [2 ^ attempt]
    seconds with attempts counted from 1; an error of any other class is
    raised on the attempt it occurs, with no further call; and when all of
    the [api_max_retries] (at least one) attempts fail transiently, the
    error of the last attempt is raised. *)
Theorem generate_retry_contract :
  (forall call,
     retry_contract _ _ OpenAIProvider.text_of OpenAIProvider.retryable call
       (fun api_max_retries => OpenAIProvider.generate api_max_retries call))
  /\ (forall call,
     retry_contract _ _ ClaudeProvider.text_of ClaudeProvider.retryable call
       (fun api_max_retries => ClaudeProvider.generate api_max_retries call))
  /\ (forall e,
        OpenAIProvider.retryable e = true <->
        (exists m, e = OpenAIProvider.RateLimitError m)
        \/ (exists m, e = OpenAIProvider.APITimeoutError m)
        \/ (exists m, e = OpenAIProvider.APIConnectionError m)
        \/ (exists c m, e = OpenAIProvider.APIError (Some c) m /\ 500 <= c))
  /\ (forall e,
        ClaudeProvider.retryable e = true <->
        (exists m, e = ClaudeProvider.RateLimitError m)
        \/ (exists m, e = ClaudeProvider.APITimeoutError m)
        \/ (exists m, e = ClaudeProvider.APIConnectionError m)
        \/ (exists c m, e = ClaudeProvider.APIStatusError c m /\ 500 <= c)).
Proof.
  split; [intro call; exact (retry_contract_holds _ _ _ _ call)|].
  split; [intro call; exact (retry_contract_holds _ _ _ _ call)|].
  split.
  - intro e. split.
    + destruct e as [m | m | m | [c|] m | m]; simpl; intro H;
        try discriminate; eauto 6.
      apply andb_true_iff in H. destruct H as [_ H]. apply Z.leb_le in H.
      right. right. right. eauto.
    + intros [[m ->] | [[m ->] | [[m ->] | (c & m & -> & H)]]];
        try reflexivity.
      simpl. apply andb_true_iff. split.
      * apply negb_true_iff, Z.eqb_neq. lia.
      * apply Z.leb_le. exact H.
  - intro e. split.
    + destruct e as [m | m | m | c m | m]; simpl; intro H;
        try discriminate; eauto 6.
      apply Z.leb_le in H. right. right. right. eauto.
    + intros [[m ->] | [[m ->] | [[m ->] | (c & m & -> & H)]]];
        try reflexivity.
      simpl. apply Z.leb_le. exact H.
Qed.

End ProviderFacts.

(* ================================================================== *)
(** * Text that survives the cleanup *)

Section Survives.

Local Open Scope N_scope.

(** A piece of text that lies within one line and neither begins nor
    ends with whitespace, such as the disclaimer marker. *)
Record solid (P : str) : Prop := {
  solid_first : exists p0 rest, P = p0 :: rest /\ is_space p0 = false;
  solid_last : exists front z, P = front ++ [z] /\ is_space z = false;
  solid_line : one_line P
}.

Lemma contains_app_l s t sub : contains s sub = true -> contains (s ++ t) sub = true.
Proof.
  rewrite !contains_spec. intros (a & b & ->). exists a, (b ++ t).
  rewrite <- !app_assoc. reflexivity.
Qed.

Lemma contains_cons c s sub : contains s sub = true -> contains (c :: s) sub = true.
Proof.
  rewrite !contains_spec. intros (a & b & ->). exists (c :: a), b. reflexivity.
Qed.

Lemma lstrip_keeps p0 r a :
  is_space p0 = false -> exists a', lstrip (a ++ p0 :: r) = a' ++ p0 :: r.
Proof.
  intro H. induction a as [|c a IH]; simpl.
  - rewrite H. exists []. reflexivity.
  - destruct (is_space c); [exact IH|]. exists (c :: a). reflexivity.
Qed.

Lemma rstrip_keeps z b x :
  is_space z = false -> rstrip (x ++ z :: b) = x ++ z :: rstrip b.
Proof.
  intro H. rewrite rstrip_app_nonblank; rewrite (rstrip_cons_nonspace _ _ H);
    [reflexivity | discriminate].
Qed.

Lemma rstrip_char_keeps ch z b x :
  (z =? ch) = false ->
  rstrip_char ch (x ++ z :: b) = x ++ z :: rstrip_char ch b.
Proof.
  intro H. induction x as [|c x IH]; simpl.
  - rewrite H. destruct (rstrip_char ch b); reflexivity.
  - rewrite IH. destruct x; reflexivity.
Qed.

Lemma rstrip_keeps_last front z a b :
  is_space z = false ->
  rstrip (a ++ (front ++ [z]) ++ b) = a ++ (front ++ [z]) ++ rstrip b.
Proof.
  intro H.
  replace (a ++ (front ++ [z]) ++ b) with ((a ++ front) ++ z :: b)
    by (rewrite <- !app_assoc; reflexivity).
  rewrite (rstrip_keeps z b _ H), <- !app_assoc. reflexivity.
Qed.

Lemma rstrip_char_keeps_last ch front z a b :
  (z =? ch) = false ->
  rstrip_char ch (a ++ (front ++ [z]) ++ b)
  = a ++ (front ++ [z]) ++ rstrip_char ch b.
Proof.
  intro H.
  replace (a ++ (front ++ [z]) ++ b) with ((a ++ front) ++ z :: b)
    by (rewrite <- !app_assoc; reflexivity).
  rewrite (rstrip_char_keeps ch z b _ H), <- !app_assoc. reflexivity.
Qed.

Lemma solid_strip P t : solid P -> contains t P = true -> contains (strip t) P = true.
Proof.
  intros [(p0 & rest & HP & Hp0) (front & z & HQ & Hz) _].
  rewrite !contains_spec. intros (a & b & ->). unfold strip.
  assert (E : exists a', lstrip (a ++ P ++ b) = a' ++ P ++ b).
  { rewrite HP. destruct (lstrip_keeps p0 (rest ++ b) a Hp0) as [a' Ha].
    exists a'. exact Ha. }
  destruct E as [a' ->]. rewrite HQ, (rstrip_keeps_last _ _ _ _ Hz).
  exists a', (rstrip b). reflexivity.
Qed.

Lemma solid_rstrip P line :
  solid P -> contains line P = true ->
  contains (rstrip line) P = true /\ rstrip line <> [].
Proof.
  intros [_ (front & z & -> & Hz) _].
  rewrite !contains_spec. intros (a & b & ->).
  rewrite (rstrip_keeps_last _ _ _ _ Hz). split.
  - exists a, (rstrip b). reflexivity.
  - destruct a; [destruct front|]; discriminate.
Qed.

Lemma solid_rstrip_char P s :
  solid P -> contains s P = true -> contains (rstrip_char LF s) P = true.
Proof.
  intros [_ (front & z & -> & Hz) _].
  rewrite !contains_spec. intros (a & b & ->).
  assert (Hz' : (z =? LF) = false).
  { destruct (N.eqb_spec z LF) as [->|]; [discriminate Hz | reflexivity]. }
  rewrite (rstrip_char_keeps_last _ _ _ _ _ Hz').
  exists a, (rstrip_char LF b). reflexivity.
Qed.

(** A line that begins with [P] is split off whole. *)
Lemma splitlines_prefix P b :
  one_line P -> P <> [] -> exists l ls, splitlines (P ++ b) = (P ++ l) :: ls.
Proof.
  induction 1 as [|c P Hc HP IH]; [congruence|]. intros _.
  simpl app. rewrite splitlines_cons, Hc.
  destruct P as [|d P].
  - simpl. destruct (splitlines b) as [|l ls].
    + exists [], []. reflexivity.
    + exists l, ls. reflexivity.
  - destruct IH as (l & ls & ->); [discriminate|].
    exists l, ls. reflexivity.
Qed.

Lemma splitlines_keeps P s :
  solid P -> contains s P = true ->
  exists line, In line (splitlines s) /\ contains line P = true.
Proof.
  intros HP. pose proof HP as [(p0 & rest & HP0 & Hp0) _ Hline].
  assert (Hne : P <> []) by (rewrite HP0; discriminate).
  rewrite contains_spec. intros (a & b & ->). revert b.
  induction a as [| x | x y a IH1 IH2] using list_ind2; intro b.
  - change ([] ++ P ++ b) with (P ++ b).
    destruct (splitlines_prefix P b Hline Hne) as (l & ls & ->).
    exists (P ++ l). split; [left; reflexivity|].
    apply contains_spec. exists [], l. reflexivity.
  - change ([x] ++ P ++ b) with (x :: (P ++ b)). rewrite splitlines_cons.
    destruct (splitlines_prefix P b Hline Hne) as (l & ls & E).
    assert (Hin : exists line, In line (splitlines (P ++ b))
                               /\ contains line P = true).
    { rewrite E. exists (P ++ l). split; [left; reflexivity|].
      apply contains_spec. exists [], l. reflexivity. }
    destruct (is_linebreak x).
    + assert (Epb : P ++ b = p0 :: (rest ++ b)) by (rewrite HP0; reflexivity).
      assert (Hcr : (x =? CR) && (p0 =? LF) = false).
      { destruct (N.eqb_spec p0 LF) as [->|]; [discriminate Hp0|].
        apply andb_false_r. }
      rewrite Epb in Hin |- *. rewrite Hcr.
      destruct Hin as (line & Hi & Hc). exists line. split; [right; exact Hi | exact Hc].
    + rewrite E. exists (x :: P ++ l). split; [left; reflexivity|].
      apply contains_spec. exists [x], l. reflexivity.
  - change ((x :: y :: a) ++ P ++ b) with (x :: y :: (a ++ P ++ b)).
    rewrite splitlines_cons.
    specialize (IH1 b). specialize (IH2 b).
    change ((y :: a) ++ P ++ b) with (y :: (a ++ P ++ b)) in IH2.
    destruct (is_linebreak x).
    + destruct ((x =? CR) && (y =? LF)).
      * destruct IH1 as (line & Hi & Hc). exists line.
        split; [right; exact Hi | exact Hc].
      * destruct IH2 as (line & Hi & Hc). exists line.
        split; [right; exact Hi | exact Hc].
    + destruct IH2 as (line & Hi & Hc).
      destruct (splitlines (y :: a ++ P ++ b)) as [|l ls]; [destruct Hi|].
      destruct Hi as [<- | Hi].
      * exists (x :: l). split; [left; reflexivity | apply contains_cons; exact Hc].
      * exists line. split; [right; exact Hi | exact Hc].
Qed.

Lemma clean_lines_keeps line lines prev_blank :
  In line lines -> rstrip line <> [] ->
  In (rstrip line) (clean_lines prev_blank lines).
Proof.
  revert prev_blank. induction lines as [|l rest IH]; intros prev_blank Hin Hne;
    [destruct Hin|].
  simpl. destruct Hin as [-> | Hin].
  - destruct (rstrip line); [congruence | left; reflexivity].
  - destruct (is_empty (rstrip l)); [destruct prev_blank|].
    + apply IH; assumption.
    + right. apply IH; assumption.
    + right. apply IH; assumption.
Qed.

Lemma join_keeps x out sub :
  In x out -> contains x sub = true -> contains (join [LF] out) sub = true.
Proof.
  intros Hin Hc.
  induction out as [| y | y z r IH1 IH2] using list_ind2.
  - destruct Hin.
  - destruct Hin as [-> | []]. exact Hc.
  - rewrite join_cons2. destruct Hin as [-> | Hin].
    + apply contains_app_l. exact Hc.
    + specialize (IH2 Hin). apply contains_spec in IH2.
      destruct IH2 as (a & b & ->). apply contains_spec.
      exists (y ++ LF :: a), b. rewrite <- app_assoc. reflexivity.
Qed.

(** [_clean_markdown] keeps every solid piece of its text. *)
Lemma clean_markdown_keeps P text :
  solid P -> contains text P = true -> contains (_clean_markdown text) P = true.
Proof.
  intros HP Hc. rewrite clean_markdown_eq. cbv zeta.
  destruct (splitlines_keeps P _ HP (solid_strip P text HP Hc))
    as (line & Hin & Hline).
  destruct (solid_rstrip P line HP Hline) as [Hr Hne].
  pose proof (join_keeps _ _ P (clean_lines_keeps _ _ true Hin Hne) Hr) as Hj.
  destruct (endswith _ [LF]); [exact Hj | apply contains_app_l; exact Hj].
Qed.

Lemma DISCLAIMER_PREFIX_solid : solid DISCLAIMER_PREFIX.
Proof.
  constructor.
  - eexists _, _. split; reflexivity.
  - exists (lit "> **Disclaimer:*"), 42. split; reflexivity.
  - repeat constructor.
Qed.

End Survives.

(* ================================================================== *)
(** * The validator *)

Section ValidatorFacts.

Lemma fold_left_keeps_nonempty (A B : Type) (f : list A -> B -> list A) l :
  (forall acc b, acc <> [] -> f acc b <> []) ->
  forall acc, acc <> [] -> fold_left f l acc <> [].
Proof.
  intro Hf. induction l as [|b l IH]; intros acc H; simpl; [exact H|].
  apply IH, Hf, H.
Qed.

Lemma snoc_nonempty (A : Type) (l : list A) x : l ++ [x] <> [].
Proof. destruct l; discriminate. Qed.

Lemma check_section_content_keeps text errors :
  errors <> [] -> _check_section_content text errors <> [].
Proof.
  unfold _check_section_content. apply fold_left_keeps_nonempty.
  intros acc header H.
  destruct (lines_after header (splitlines (strip text))) as [rest|]; [|exact H].
  destruct (has_content rest); [exact H | apply snoc_nonempty].
Qed.

(** The validator passes no text that lacks the disclaimer marker. *)
Lemma passed_needs_disclaimer text :
  contains text DISCLAIMER_PREFIX = false ->
  passed (validate_response text) = false.
Proof.
  intro H. unfold validate_response.
  destruct (is_empty text || is_empty (strip text)); [reflexivity|].
  rewrite H. cbv zeta. change (negb false) with true. cbv iota.
  match goal with
  | |- passed {| passed := Nat.eqb (List.length ?e) 0; errors := _ |} = false =>
      set (errs := e);
      assert (He : errs <> []);
      [subst errs | destruct errs; [congruence | reflexivity]]
  end.
  apply check_section_content_keeps.
  destruct (contains text (lit "```")); [apply snoc_nonempty|].
  destruct (star_bullet_search true text); apply snoc_nonempty.
Qed.

Lemma passed_has_disclaimer text :
  passed (validate_response text) = true ->
  contains text DISCLAIMER_PREFIX = true.
Proof.
  intro H. destruct (contains text DISCLAIMER_PREFIX) eqn:E; [reflexivity|].
  rewrite (passed_needs_disclaimer _ E) in H. discriminate.
Qed.

End ValidatorFacts.

(* ================================================================== *)
(** * The orchestrator *)

Section PipelineFacts.
Variable yaml_dump : yaml -> str.
Variable yaml_load : str -> load_outcome.
Variable sha256_hex : str -> str.
Variable DISCLAIMER_TEXT : str.
Variable now : str.

Local Open Scope Z_scope.

Local Abbreviation single := (_process_single_rule yaml_dump yaml_load sha256_hex DISCLAIMER_TEXT now).
Local Abbreviation all := (process_all yaml_dump yaml_load sha256_hex DISCLAIMER_TEXT now).
Local Abbreviation run := (process_rules yaml_dump yaml_load sha256_hex DISCLAIMER_TEXT now).
Local Abbreviation rule_hash := (compute_rule_hash yaml_dump sha256_hex).
Local Abbreviation skip := (should_skip yaml_load).

(** The cache key of a rule file. *)
Definition relative_str (rule_file : RuleFile) : str :=
  replace_char 92%N 47%N (rf_relative rule_file).

(** How the validation loop ends for a rule file. *)
Definition loop_of (rule_file : RuleFile) (prompt_text : str) (max_retries : Z)
  : loop_end :=
  validation_loop (rf_generate rule_file prompt_text (rf_text rule_file))
    max_retries (Provider.attempts_upto max_retries).

(** The document written for an accepted response. *)
Definition enriched (ca : presentation) (m : Dict.dict yaml) (response : str)
  : yaml :=
  YMap ca (Dict.set (lit "note")
             (YStr LITERAL (note_text DISCLAIMER_TEXT response)) m).

Definition write_error_message (rule_file : RuleFile) (e : str) : str :=
  relative_str rule_file ++ lit ": Write error " ++ [EM_DASH] ++ lit " " ++ e.

(** The four ways one rule file is dealt with when nothing escapes. *)
Inductive handled (rule_file : RuleFile) (prompt_text : str)
    (max_retries : Z) (st st' : State) : Prop :=
| HSkipped :
    result st' = record_skipped (result st) ->
    cache st' = cache st -> fs st' = fs st ->
    handled rule_file prompt_text max_retries st st'
| HFailed msg :
    result st' = record_failure msg (result st) ->
    cache st' = cache st -> fs st' = fs st ->
    handled rule_file prompt_text max_retries st st'
| HWriteFailed ca m response e remains :
    rf_load rule_file = Loaded (YMap ca m) ->
    loop_of rule_file prompt_text max_retries = Accepted response ->
    rf_write rule_file = WriteFails e remains ->
    result st' = record_failure (write_error_message rule_file e) (result st) ->
    cache st' = cache st ->
    fs st' = put_out_file (rf_relative rule_file) remains (fs st) ->
    handled rule_file prompt_text max_retries st st'
| HProcessed ca m h response :
    rf_load rule_file = Loaded (YMap ca m) ->
    rule_hash (YMap ca m) = Some h ->
    loop_of rule_file prompt_text max_retries = Accepted response ->
    rf_write rule_file = WriteOk ->
    result st' = record_processed (result st) ->
    update_rule now (cache st) (relative_str rule_file) h = Done (cache st') ->
    fs st' = put_out_file (rf_relative rule_file)
               (Some (OutText (rf_dump rule_file (enriched ca m response))))
               (fs st) ->
    handled rule_file prompt_text max_retries st st'.

Lemma single_rule_handled rule_file prompt_text prompt_hash max_retries force st st' :
  single rule_file prompt_text prompt_hash max_retries force st = Done st' ->
  handled rule_file prompt_text max_retries st st'.
Proof.
  unfold _process_single_rule.
  destruct (rf_load rule_file) as [e | rule_data] eqn:Eload.
  { intros [= <-]. eapply HFailed; reflexivity. }
  destruct rule_data as [| p s | p z | p b | p truth text | p items | ca m].
  { intros [= <-]. eapply HFailed; reflexivity. }
  all: destruct (rule_hash _) as [h|] eqn:Eh; [|discriminate].
  all: fold (loop_of rule_file prompt_text max_retries).
  all: fold (relative_str rule_file).
  all: destruct force;
    [| destruct (should_skip _ _ _ _ _ _ _) as [[|] | e];
       [intros [= <-]; eapply HSkipped; reflexivity | | discriminate] ].
  all: destruct (loop_of rule_file prompt_text max_retries) as [response | e |] eqn:El;
    try (intros [= <-]; eapply HFailed; reflexivity);
    try discriminate.
  all: destruct (rf_mkdir_ok rule_file); simpl; try discriminate.
  all: destruct (rf_write rule_file) as [| e remains] eqn:Ew.
  all: try (intros [= <-]; eapply HWriteFailed; try eassumption; reflexivity).
  all: destruct (update_rule now _ _ h) as [cache' | e] eqn:Eu; [|discriminate].
  all: intros [= <-].
  all: eapply HProcessed; try eassumption; reflexivity.
Qed.

(** Where a task raises: [TypeError] from a document that is not a
    mapping or from [update_rule], [AttributeError] or [OSError] from
    [should_skip], [OSError] from [mkdir].  It never exits. *)
Lemma single_rule_no_exit rule_file prompt_text prompt_hash max_retries force st code :
  single rule_file prompt_text prompt_hash max_retries force st
  <> Escapes (SystemExit code).
Proof.
  unfold _process_single_rule. fold (relative_str rule_file).
  destruct (rf_load rule_file) as [e | rule_data]; [discriminate|].
  destruct rule_data as [| p s | p z | p b | p truth text | p items | ca m];
    [discriminate | | | | | |].
  all: destruct (rule_hash _) as [h|]; [|discriminate].
  all: destruct force;
    [| destruct (should_skip _ _ _ _ _ _ _) as [[|] | e] eqn:Es;
       [discriminate | |
        apply should_skip_raises in Es;
        destruct Es as (_ & [(-> & _) | [(-> & _) | (-> & _)]]);
        discriminate] ].
  all: destruct (validation_loop _ _ _); try discriminate.
  all: destruct (rf_mkdir_ok rule_file); simpl; try discriminate.
  all: destruct (rf_write rule_file); try discriminate.
  all: destruct (update_rule now _ _ h) as [cache' | e] eqn:Eu;
    [discriminate|].
  all: apply update_rule_raises in Eu; destruct Eu as [-> _]; discriminate.
Qed.

Lemma process_all_no_exit files prompt_text prompt_hash max_retries force st code :
  all files prompt_text prompt_hash max_retries force st
  <> Escapes (SystemExit code).
Proof.
  revert st. induction files as [|rule_file rest IH]; intro st; simpl.
  - discriminate.
  - destruct (single rule_file prompt_text prompt_hash max_retries force st)
      as [st'|e] eqn:E.
    + apply IH.
    + intros [= ->]. exact (single_rule_no_exit _ _ _ _ _ _ _ E).
Qed.

(** An exception that leaves a task leaves the run of the tasks. *)
Lemma process_all_escapes before rule_file rest prompt_text prompt_hash
    max_retries force st0 st e :
  all before prompt_text prompt_hash max_retries force st0 = Done st ->
  single rule_file prompt_text prompt_hash max_retries force st = Escapes e ->
  all (before ++ rule_file :: rest) prompt_text prompt_hash max_retries force st0
  = Escapes e.
Proof.
  revert st0. induction before as [|f before IH]; intros st0; simpl.
  - intros [= ->] H. rewrite H. reflexivity.
  - destruct (single f prompt_text prompt_hash max_retries force st0)
      as [st1|e1]; [|discriminate].
    apply IH.
Qed.

Lemma init_no_exit fs code : Cache.init fs <> Escapes (SystemExit code).
Proof.
  unfold Cache.init, _load.
  destruct (cache_path fs) as [[| | | | | | loaded]|]; try discriminate.
  destruct (negb (Cache.version loaded =? CACHE_VERSION)); [discriminate|].
  destruct (rules loaded) as [[r | [|]]|]; discriminate.
Qed.

(** *** Counters *)

(** Exactly one of the three counters goes up by one, and the list of
    failures grows by one entry exactly when it is [failed]. *)
Definition one_counter (r r' : ProcessingResult) : Prop :=
  total r' = total r
  /\ ((processed r' = S (processed r) /\ skipped r' = skipped r
       /\ failed r' = failed r /\ failures r' = failures r)
      \/ (processed r' = processed r /\ skipped r' = S (skipped r)
          /\ failed r' = failed r /\ failures r' = failures r)
      \/ (processed r' = processed r /\ skipped r' = skipped r
          /\ failed r' = S (failed r)
          /\ exists msg, failures r' = failures r ++ [msg])).

Lemma handled_one_counter rule_file prompt_text max_retries st st' :
  handled rule_file prompt_text max_retries st st' ->
  one_counter (result st) (result st').
Proof.
  intros [Hr _ _ | msg Hr _ _ | ca m response e remains _ _ _ Hr _ _
          | ca m h response _ _ _ _ Hr _ _];
    rewrite Hr; unfold one_counter; simpl; split; try reflexivity.
  - right. left. repeat split.
  - right. right. repeat split. exists msg. reflexivity.
  - right. right. repeat split. eexists. reflexivity.
  - left. repeat split.
Qed.

(** The counters account for the files handled so far. *)
Definition accounted (seen : nat) (r : ProcessingResult) : Prop :=
  (processed r + skipped r + failed r = seen)%nat
  /\ List.length (failures r) = failed r.

Lemma one_counter_accounted seen r r' :
  accounted seen r -> one_counter r r' -> accounted (S seen) r'.
Proof.
  unfold accounted, one_counter.
  intros [Hs Hf] [_ [(A & B & C & D) | [(A & B & C & D) | (A & B & C & msg & D)]]];
    rewrite A, B, C, D; rewrite ?length_app; simpl; lia.
Qed.

Lemma process_all_accounted files prompt_text prompt_hash max_retries force :
  forall seen st st',
    all files prompt_text prompt_hash max_retries force st = Done st' ->
    accounted seen (result st) ->
    accounted (seen + List.length files) (result st')
    /\ total (result st') = total (result st).
Proof.
  induction files as [|rule_file rest IH]; intros seen st st'; simpl.
  - intros [= <-] H. rewrite Nat.add_0_r. split; [exact H | reflexivity].
  - destruct (single rule_file prompt_text prompt_hash max_retries force st)
      as [st1|e] eqn:E; [|discriminate].
    intros Hall Hacc.
    pose proof (handled_one_counter _ _ _ _ _ (single_rule_handled _ _ _ _ _ _ _ E))
      as H1.
    destruct (IH (S seen) st1 st' Hall (one_counter_accounted _ _ _ Hacc H1))
      as [A B].
    split.
    + replace (seen + S (List.length rest))%nat
        with (S seen + List.length rest)%nat by lia.
      exact A.
    + rewrite B. exact (proj1 H1).
Qed.

(** C9.  When [process_rules] returns, every discovered file has
    incremented exactly one of [processed], [skipped] and [failed]: the
    three add up to [total], which is the number of files, and
    [failures] has [failed] entries.  For a single file whose task
    returns, exactly one counter goes up by one. *)
Theorem counters_account_for_every_file
    (env : Env) (fs0 : FS) (max_retries : Z) (force : bool)
    (r : ProcessingResult) :
  run_end (run env fs0 max_retries force) = Done r ->
  (processed r + skipped r + failed r = total r)%nat
  /\ total r = List.length (env_files env)
  /\ List.length (failures r) = failed r
  /\ (forall rule_file prompt_text prompt_hash st st',
        single rule_file prompt_text prompt_hash max_retries force st = Done st' ->
        one_counter (result st) (result st')).
Proof.
  intro H.
  assert (Hsingle : forall rule_file prompt_text prompt_hash st st',
        single rule_file prompt_text prompt_hash max_retries force st = Done st' ->
        one_counter (result st) (result st')).
  { intros rule_file prompt_text prompt_hash st st' E.
    exact (handled_one_counter _ _ _ _ _ (single_rule_handled _ _ _ _ _ _ _ E)). }
  unfold process_rules in H.
  destruct (env_prompt env) as [prompt_text|]; [|discriminate].
  destruct (env_mkdir_ok env); simpl in H; [|discriminate].
  destruct (Cache.init fs0) as [cache0|e0]; [|discriminate].
  destruct (Nat.eqb (List.length (env_files env)) 0); [discriminate|].
  match type of H with
  | context [all ?fl ?pt ?ph ?mr ?fo ?st0] =>
      destruct (all fl pt ph mr fo st0) as [st|e] eqn:E;
      [|discriminate];
      destruct (process_all_accounted fl pt ph mr fo 0%nat st0 st E) as [[A B] C];
      [split; reflexivity|]
  end.
  simpl in H. injection H as <-. simpl in A, C.
  rewrite C. split; [exact A|]. split; [reflexivity|].
  split; [exact B | exact Hsingle].
Qed.

(** *** Write failures *)

Lemma entry_of_set_prompt_hash data stored relative_path :
  entry_of (set_prompt_hash data stored) relative_path
  = entry_of data relative_path.
Proof. reflexivity. Qed.

(** Recording another document leaves the entry of this one alone. *)
Lemma entry_of_update_other data data' other h relative_path :
  update_rule now data other h = Done data' ->
  relative_path <> other ->
  entry_of data' relative_path = entry_of data relative_path.
Proof.
  unfold update_rule, entry_of.
  destruct (rules data) as [[r | sized]|]; try discriminate;
    intros [= <-] H; cbn [rules].
  - apply dict_get_set_other. exact H.
  - simpl. destruct (str_eqb other relative_path) eqn:E; [|reflexivity].
    apply str_eqb_eq in E. congruence.
Qed.

(** C7 (amended).  When the write of the output of a document fails, the
    task records one failure for the document, with the message of the
    write error, and leaves the cache index exactly as it was: no entry
    is created or updated.  So if the index held no entry for the
    document with its current content hash, [should_skip] does not
    answer true for it under any later index that has the same entry for
    the document, whatever prompt hash has been stored and whichever
    other documents have been recorded in between; it answers false when
    that index is well formed.  When the directory of the output cannot
    be made, nothing is recorded: the task raises [OSError], and so does
    the run of the tasks, whichever tasks came before. *)
Theorem write_failure_leaves_cache
    (rule_file : RuleFile) (prompt_text prompt_hash : str)
    (max_retries : Z) (force : bool) (st : State)
    (ca : presentation) (m : Dict.dict yaml) (h response : str) :
  rf_load rule_file = Loaded (YMap ca m) ->
  rule_hash (YMap ca m) = Some h ->
  (force = true
   \/ skip (cache st) (fs st) (relative_str rule_file) h prompt_hash
        (rf_relative rule_file) = Done false) ->
  loop_of rule_file prompt_text max_retries = Accepted response ->
  (forall e remains,
      rf_mkdir_ok rule_file = true ->
      rf_write rule_file = WriteFails e remains ->
      exists st',
        single rule_file prompt_text prompt_hash max_retries force st = Done st'
        /\ result st'
           = record_failure (write_error_message rule_file e) (result st)
        /\ cache st' = cache st
        /\ ((forall entry,
               entry_of (cache st) (relative_str rule_file)
               = Some (EntryObject entry) ->
               content_hash entry <> Some h) ->
            forall later fs' prompt_hash',
              entry_of later (relative_str rule_file)
              = entry_of (cache st') (relative_str rule_file) ->
              skip later fs' (relative_str rule_file) h prompt_hash'
                (rf_relative rule_file) <> Done true
              /\ (rules_usable later ->
                  entry_of later (relative_str rule_file)
                  <> Some (EntryOther true) ->
                  skip later fs' (relative_str rule_file) h prompt_hash'
                    (rf_relative rule_file) = Done false)))
  /\ (rf_mkdir_ok rule_file = false ->
      single rule_file prompt_text prompt_hash max_retries force st
      = Escapes OSError
      /\ forall before rest st0,
           all before prompt_text prompt_hash max_retries force st0 = Done st ->
           all (before ++ rule_file :: rest) prompt_text prompt_hash
             max_retries force st0
           = Escapes OSError).
Proof.
  intros Hload Hh Hskip Hloop.
  assert (Hnext : (forall entry,
           entry_of (cache st) (relative_str rule_file)
           = Some (EntryObject entry) ->
           content_hash entry <> Some h) ->
        forall later fs' prompt_hash',
          entry_of later (relative_str rule_file)
          = entry_of (cache st) (relative_str rule_file) ->
          skip later fs' (relative_str rule_file) h prompt_hash'
            (rf_relative rule_file) <> Done true
          /\ (rules_usable later ->
              entry_of later (relative_str rule_file)
              <> Some (EntryOther true) ->
              skip later fs' (relative_str rule_file) h prompt_hash'
                (rf_relative rule_file) = Done false)).
  { intros Hnone later fs' prompt_hash' Hsame.
    assert (Hnot : skip later fs' (relative_str rule_file) h prompt_hash'
                     (rf_relative rule_file) <> Done true).
    { intro E. apply should_skip_true in E.
      destruct E as (_ & (entry & He & Hc) & _).
      rewrite Hsame in He. exact (Hnone entry He Hc). }
    split; [exact Hnot|]. intros Hu Hother.
    destruct (skip later fs' (relative_str rule_file) h prompt_hash'
                (rf_relative rule_file)) as [[|] | e0] eqn:E.
    - exfalso. apply Hnot. reflexivity.
    - reflexivity.
    - exfalso. apply should_skip_raises in E.
      destruct E as (_ & [(_ & sized & H) | [(_ & H) | (_ & (entry & He & Hc) & _)]]).
      + exact (Hu sized H).
      + exact (Hother H).
      + rewrite Hsame in He. exact (Hnone entry He Hc). }
  split.
  - intros e remains Hmk Hw.
    unfold _process_single_rule. rewrite Hload, Hh.
    fold (loop_of rule_file prompt_text max_retries).
    fold (relative_str rule_file). rewrite Hloop, Hmk, Hw. simpl.
    destruct force.
    + eexists. split; [reflexivity|]. simpl.
      split; [reflexivity|]. split; [reflexivity | exact Hnext].
    + destruct Hskip as [Hf | Hs]; [discriminate|]. rewrite Hs.
      eexists. split; [reflexivity|]. simpl.
      split; [reflexivity|]. split; [reflexivity | exact Hnext].
  - intro Hmk.
    assert (E : single rule_file prompt_text prompt_hash max_retries force st
                = Escapes OSError).
    { unfold _process_single_rule. rewrite Hload, Hh.
      fold (loop_of rule_file prompt_text max_retries).
      fold (relative_str rule_file). rewrite Hloop, Hmk. simpl.
      destruct force; [reflexivity|].
      destruct Hskip as [Hf | Hs]; [discriminate|]. rewrite Hs. reflexivity. }
    split; [exact E|].
    intros before rest st0 Hb. exact (process_all_escapes _ _ _ _ _ _ _ _ _ _ Hb E).
Qed.

(** *** The note that is written *)

Lemma validation_loop_accepted generate max_retries attempts response :
  validation_loop generate max_retries attempts = Accepted response ->
  passed (validate_response response) = true
  /\ exists attempt, In attempt attempts /\ generate attempt = Text response.
Proof.
  induction attempts as [|attempt rest IH]; simpl; [discriminate|].
  destruct (generate attempt) as [raw | e] eqn:Eg.
  - destruct (passed (validate_response raw)) eqn:Ep.
    + intros [= <-]. split; [exact Ep|]. exists attempt. split; [left; reflexivity | exact Eg].
    + intro H. destruct (IH H) as [A (a & Ha & Hg)].
      split; [exact A|]. exists a. split; [right; exact Ha | exact Hg].
  - destruct (attempt =? max_retries); [discriminate|].
    intro H. destruct (IH H) as [A (a & Ha & Hg)].
    split; [exact A|]. exists a. split; [right; exact Ha | exact Hg].
Qed.

Lemma note_text_appended response :
  contains (_clean_markdown response) DISCLAIMER_TEXT = false ->
  note_text DISCLAIMER_TEXT response
  = rstrip_char LF (_clean_markdown response) ++ [LF; LF]
    ++ DISCLAIMER_TEXT ++ [LF].
Proof. intro H. unfold note_text. rewrite H. reflexivity. Qed.

Lemma note_text_kept response :
  contains (_clean_markdown response) DISCLAIMER_TEXT = true ->
  note_text DISCLAIMER_TEXT response = _clean_markdown response.
Proof. intro H. unfold note_text. rewrite H. reflexivity. Qed.

Lemma note_text_keeps_marker response :
  contains response DISCLAIMER_PREFIX = true ->
  contains (note_text DISCLAIMER_TEXT response) DISCLAIMER_PREFIX = true.
Proof.
  intro H.
  pose proof (clean_markdown_keeps _ _ DISCLAIMER_PREFIX_solid H) as Hc.
  destruct (contains (_clean_markdown response) DISCLAIMER_TEXT) eqn:E.
  - rewrite (note_text_kept _ E). exact Hc.
  - rewrite (note_text_appended _ E). apply contains_app_l.
    apply solid_rstrip_char; [exact DISCLAIMER_PREFIX_solid | exact Hc].
Qed.



(** *** A run without documents *)

(** C5 (amended).  When no document is discovered the run aborts with
    [SystemExit(1)].  The cache has been constructed and loaded by then,
    and that is the only cache operation: nothing is set, updated or
    saved, and the files are left as they were.  A run that discovers at
    least one document never ends with [SystemExit]. *)
Theorem no_documents_is_fatal
    (env : Env) (fs0 : FS) (max_retries : Z) (force : bool) :
  (forall prompt_text cache0,
      env_prompt env = Some prompt_text ->
      env_mkdir_ok env = true ->
      Cache.init fs0 = Done cache0 ->
      env_files env = [] ->
      run_end (run env fs0 max_retries force) = Escapes (SystemExit 1)
      /\ run_log (run env fs0 max_retries force) = [CacheLoad]
      /\ run_fs (run env fs0 max_retries force) = fs0)
  /\ (env_files env <> [] ->
      forall code,
        run_end (run env fs0 max_retries force) <> Escapes (SystemExit code)).
Proof.
  split.
  - intros prompt_text cache0 Hp Hm Hi Hf. unfold process_rules.
    rewrite Hp, Hm, Hi, Hf. simpl. repeat split.
  - intros Hne code. unfold process_rules.
    destruct (env_prompt env) as [prompt_text|]; [|discriminate].
    destruct (env_mkdir_ok env); simpl; [|discriminate].
    destruct (Cache.init fs0) as [cache0|e0] eqn:Ei.
    2:{ simpl. intros [= ->]. exact (init_no_exit _ _ Ei). }
    destruct (env_files env) as [|rule_file rest] eqn:Ef; [congruence|].
    change (Nat.eqb (List.length (rule_file :: rest)) 0) with false. cbv iota.
    match goal with
    | |- context [all ?fl ?pt ?ph ?mr ?fo ?st0] =>
        destruct (all fl pt ph mr fo st0) as [st|e] eqn:E
    end.
    + discriminate.
    + simpl. intros [= ->].
      exact (process_all_no_exit _ _ _ _ _ _ _ E).
Qed.

End PipelineFacts.

(* ================================================================== *)
(** * Concrete runs *)

Module Demo.

(** A serializer and a digest to run the pipeline with: any functions
    will do, the pipeline only compares their results. *)
Fixpoint demo_dump (v : yaml) : str :=
  match v with
  | YNull => lit "null"
  | YStr style s => style ++ s
  | YInt style z => style ++ str_of_int z
  | YBool style b => style ++ (if b then lit "true" else lit "false")
  | YOther style _ text => style ++ text
  | YSeq ca items =>
      lit "[" ++ (fix go (l : list yaml) : str :=
                    match l with
                    | [] => []
                    | x :: r => demo_dump x ++ lit "," ++ go r
                    end) items ++ lit "]" ++ ca
  | YMap ca m =>
      lit "{" ++ (fix go (l : list (str * yaml)) : str :=
                    match l with
                    | [] => []
                    | (k, x) :: r => k ++ lit ":" ++ demo_dump x ++ lit "," ++ go r
                    end) m ++ lit "}" ++ ca
  end.

Definition demo_sha256 (s : str) : str := lit "sha256:" ++ s.

Definition demo_now : str := lit "2025-01-01T00:00:00+00:00".

(** The guide of [tests/test_validator.py], up to its disclaimer line. *)
Definition VALID_BODY : str := lit "### Technical Context
This rule detects suspicious process creation events associated with credential
dumping tools such as Mimikatz. The attacker's objective is to extract plaintext
passwords, hashes, and Kerberos tickets from memory. This maps to MITRE ATT&CK
Credential Access (T1003). Primary data sources include process creation logs
and Windows Security Event logs.

### Investigation Steps
- **Review process lineage**: Examine the parent-child process chain to determine
  how the suspicious process was launched and whether it originated from a
  known-good application.
- **Check for credential access artifacts**: Look for lsass.exe memory access
  events, suspicious DLL loads, and related file system artifacts on the endpoint.
- **Correlate with authentication logs**: Search for anomalous logon events
  (Event ID 4624/4625) around the time of the alert to identify lateral movement.
- **Assess endpoint posture**: Verify EDR telemetry for additional indicators
  such as privilege escalation or persistence mechanisms.

### Prioritization
This alert should be treated as high severity because credential dumping directly
enables lateral movement and privilege escalation across the enterprise environment.

### Blind Spots and Assumptions
This detection assumes that process creation logging (Sysmon Event ID 1 or
Windows Security Event ID 4688) is enabled and forwarded to the SIEM. It will
not detect credential dumping techniques that operate entirely in memory without
spawning a new process, such as certain reflective DLL injection methods.
Additionally, the rule may miss renamed or obfuscated variants of known tools.

".

Definition DISCLAIMER_REST : str := lit " This investigation guide was created using generative AI technology and has not been reviewed for its accuracy and relevance. While every effort has been made to ensure its quality, we recommend validating the content and adapting it to suit specific environments and operational needs. Please communicate any changes to the detection engineering team.".

(** [VALID_RESPONSE] of the tests. *)
Definition VALID_RESPONSE : str :=
  VALID_BODY ++ DISCLAIMER_PREFIX ++ DISCLAIMER_REST ++ [LF].

(** [VALID_RESPONSE.replace("> **Disclaimer:**", "> Note:")], the text of
    [test_missing_disclaimer_still_passes]. *)
Definition WITHOUT_DISCLAIMER : str :=
  VALID_BODY ++ lit "> Note:" ++ DISCLAIMER_REST ++ [LF].

Definition demo_rule : Dict.dict yaml :=
  [ (lit "title", YStr PLAIN (lit "Test Rule"));
    (lit "level", YStr PLAIN (lit "high")) ].

(** The comment the rule file carries. *)
Definition demo_ca : presentation := lit "# reviewed".

Definition demo_doc : yaml := YMap demo_ca demo_rule.

(** The documents found under the output directory in the runs below:
    the one an earlier run wrote, the one these runs write, one whose
    note is blank and one whose note is the number zero. *)
Definition old_doc : yaml :=
  YMap demo_ca (demo_rule ++ [(lit "note", YStr LITERAL (lit "Old guide.
"))]).

Definition blank_note_doc : yaml :=
  YMap PLAIN [(lit "note", YStr PLAIN (lit "  "))].

Definition zero_note_doc : yaml :=
  YMap demo_ca (demo_rule ++ [(lit "note", YInt PLAIN 0)]).

Definition demo_rule_text : str := lit "title: Test Rule
level: high
".

(** A rule file [a.yml] whose provider always answers [response] and
    whose output is written as [write] says. *)
Definition rule_a (response : str) (write : write_outcome out_file) : RuleFile :=
  {| rf_relative := lit "a.yml";
     rf_load := Loaded demo_doc;
     rf_text := demo_rule_text;
     rf_generate := fun _ _ _ => Text response;
     rf_mkdir_ok := true;
     rf_dump := demo_dump;
     rf_write := write |}.

Definition empty_fs : FS := {| cache_path := None; out_files := [] |}.

Definition empty_state : State :=
  {| result := {| total := 1; processed := 0; skipped := 0; failed := 0;
                  failures := [] |};
     cache := empty_index;
     fs := empty_fs;
     log := [CacheLoad] |}.

(** A disclaimer line to run the pipeline with. *)
Definition demo_disclaimer : str := DISCLAIMER_PREFIX ++ DISCLAIMER_REST.

(** What the pipeline writes for [demo_doc] and [VALID_RESPONSE]. *)
Definition written_doc : yaml :=
  YMap demo_ca
    (Dict.set (lit "note")
       (YStr LITERAL (note_text demo_disclaimer VALID_RESPONSE)) demo_rule).

(** A parser to run the pipeline with: it reads back the documents of
    these runs and refuses every other text. *)
Definition demo_documents : list yaml :=
  [old_doc; written_doc; blank_note_doc; zero_note_doc].

Definition demo_load (text : str) : load_outcome :=
  match find (fun d => str_eqb (demo_dump d) text) demo_documents with
  | Some d => Loaded d
  | None => LoadRaises (lit "could not determine a constructor")
  end.

Definition demo_single (rule_file : RuleFile) (st : State) : completion State :=
  _process_single_rule demo_dump demo_load demo_sha256 demo_disclaimer demo_now
    rule_file (lit "prompt v2") (demo_sha256 (lit "prompt v2")) 3 false st.

Definition demo_run (env : Env) (fs0 : FS) : Run :=
  process_rules demo_dump demo_load demo_sha256 demo_disclaimer demo_now
    env fs0 3 false.

(** What an earlier run under another prompt left in the output
    directory: the enriched [a.yml] and its cache entry. *)
Definition old_output : out_file := OutText (demo_dump old_doc).

Definition demo_entry : entry_value :=
  EntryObject {| content_hash := Some (demo_sha256 (demo_dump demo_doc));
                 last_processed := Some demo_now |}.

Definition old_fs : FS :=
  {| cache_path :=
       Some (JsonIndex
               {| version := 1;
                  prompt_hash := Some (demo_sha256 (lit "prompt v1"));
                  rules := Some (RulesObject [ (lit "a.yml", demo_entry) ]) |});
     out_files := [ (lit "a.yml", old_output) ] |}.

Definition env_of (files : list RuleFile) : Env :=
  {| env_prompt := Some (lit "prompt v2");
     env_mkdir_ok := true;
     env_files := files;
     env_save := WriteOk |}.

(** The run whose write of [a.yml] fails and leaves the old file. *)
Definition failing_run : Run :=
  demo_run
    (env_of [rule_a VALID_RESPONSE
               (WriteFails (lit "Permission denied") (Some old_output))])
    old_fs.

(** The next run, in which the write would go through. *)
Definition next_run : Run :=
  demo_run (env_of [rule_a VALID_RESPONSE WriteOk]) (run_fs failing_run).

(** The output directory after a run under the current prompt that
    processed [a.yml], and a run over three files: [a.yml] unchanged,
    [b.yml] new, [c.yml] refused by the provider on every attempt. *)
Definition current_index : CacheIndex :=
  {| version := 1;
     prompt_hash := Some (demo_sha256 (lit "prompt v2"));
     rules := Some (RulesObject [ (lit "a.yml", demo_entry) ]) |}.

Definition current_fs : FS :=
  {| cache_path := Some (JsonIndex current_index);
     out_files := [ (lit "a.yml", old_output) ] |}.

Definition three_files : list RuleFile :=
  [ rule_a VALID_RESPONSE WriteOk;
    {| rf_relative := lit "b.yml";
       rf_load := Loaded demo_doc;
       rf_text := demo_rule_text;
       rf_generate := fun _ _ _ => Text VALID_RESPONSE;
       rf_mkdir_ok := true;
       rf_dump := demo_dump;
       rf_write := WriteOk |};
    {| rf_relative := lit "c.yml";
       rf_load := Loaded demo_doc;
       rf_text := demo_rule_text;
       rf_generate := fun _ _ _ => ApiException (lit "401 Unauthorized");
       rf_mkdir_ok := true;
       rf_dump := demo_dump;
       rf_write := WriteOk |} ].

(** A rule file whose output directory cannot be made. *)
Definition blocked_rule : RuleFile :=
  {| rf_relative := lit "a.yml";
     rf_load := Loaded demo_doc;
     rf_text := demo_rule_text;
     rf_generate := fun _ _ _ => Text VALID_RESPONSE;
     rf_mkdir_ok := false;
     rf_dump := demo_dump;
     rf_write := WriteOk |}.

(** A small index and the calls of three provider sessions. *)
Definition demo_index : CacheIndex :=
  {| version := 1;
     prompt_hash := Some (lit "ph");
     rules := Some (RulesObject
                      [ (lit "a.yml",
                         EntryObject
                           {| content_hash := Some (lit "ch");
                              last_processed := Some demo_now |}) ]) |}.

(** An index whose ["rules"] is a list, and output directories in which
    [a.yml] cannot be examined and in which its note is the number
    zero. *)
Definition list_rules_index : CacheIndex :=
  {| version := 1; prompt_hash := Some (lit "ph");
     rules := Some (RulesOther true) |}.

Definition guarded_fs : FS :=
  {| cache_path := None; out_files := [ (lit "a.yml", OutNoStat) ] |}.

Definition zero_note_fs : FS :=
  {| cache_path := None;
     out_files := [ (lit "a.yml", OutText (demo_dump zero_note_doc)) ] |}.

Definition after_a : State :=
  match demo_single (rule_a VALID_RESPONSE WriteOk) empty_state with
  | Done st => st
  | Escapes _ => empty_state
  end.

Definition failed_once : ProcessingResult :=
  {| total := 1; processed := 0; skipped := 0; failed := 1;
     failures := [lit "a.yml: Write error " ++ [EM_DASH]
                  ++ lit " Permission denied"] |}.

Definition skipped_once : ProcessingResult :=
  {| total := 1; processed := 0; skipped := 1; failed := 0; failures := [] |}.

(** Rate limited once, then answered. *)
Definition calls_recovering (attempt : Z)
  : Provider.api_outcome Provider.OpenAIProvider.response
      Provider.OpenAIProvider.error :=
  if Z.eqb attempt 1 then
    Provider.ApiRaises (Provider.OpenAIProvider.RateLimitError (lit "429"))
  else Provider.ApiReturns (Some (lit " ok ")).

(** Timed out once, then refused with status 400. *)
Definition calls_refused (attempt : Z)
  : Provider.api_outcome Provider.OpenAIProvider.response
      Provider.OpenAIProvider.error :=
  if Z.eqb attempt 1 then
    Provider.ApiRaises (Provider.OpenAIProvider.APITimeoutError (lit "timeout"))
  else Provider.ApiRaises (Provider.OpenAIProvider.APIError (Some 400%Z) (lit "bad")).

(** Every attempt fails with status 500 + attempt. *)
Definition calls_overloaded (attempt : Z)
  : Provider.api_outcome Provider.ClaudeProvider.response
      Provider.ClaudeProvider.error :=
  Provider.ApiRaises (Provider.ClaudeProvider.APIStatusError (500 + attempt)%Z []).

End Demo.
Import Demo.


Section ConcreteRuns.

Local Open Scope Z_scope.

Example splitlines_examples :
  splitlines (lit "ab
c

") = [lit "ab"; lit "c"; []]
  /\ splitlines [97; CR; LF; 98]%N = [lit "a"; lit "b"]
  /\ splitlines [] = []
  /\ splitlines [LF] = [[]].
Proof. repeat split. Qed.

Example clean_markdown_example :
  _clean_markdown (lit "  # Title


first  
 second

") = lit "# Title

first
 second
"
  /\ _clean_markdown [] = [LF].
Proof. split; reflexivity. Qed.

Example valid_response_passes :
  validate_response VALID_RESPONSE = {| passed := true; errors := [] |}.
Proof. vm_compute. reflexivity. Qed.

Example short_response_errors :
  errors (validate_response (lit "* too short ```"))
  = [ lit "Response too short (15 chars, minimum 200)";
      lit "Missing required header: ### Technical Context";
      lit "Missing required header: ### Investigation Steps";
      lit "Missing required header: ### Prioritization";
      lit "Missing required header: ### Blind Spots and Assumptions";
      lit "Missing disclaimer blockquote (> **Disclaimer:**)";
      lit "Found * bullet(s) " ++ [EM_DASH]
        ++ lit " must use dash-prefixed (-) bullets only";
      lit "Found triple-backtick code block(s) " ++ [EM_DASH]
        ++ lit " code blocks are not allowed" ].
Proof. vm_compute. reflexivity. Qed.

(** [should_skip] says yes, and the ways it says no, one condition
    broken at a time, against the index and the files of
    [current_fs]. *)
Example should_skip_scenarios :
  let h := demo_sha256 (demo_dump demo_doc) in
  let ph := demo_sha256 (lit "prompt v2") in
  let skip := should_skip demo_load current_index in
  skip current_fs (lit "a.yml") h ph (lit "a.yml") = Done true
  /\ skip current_fs (lit "a.yml") h (lit "other") (lit "a.yml") = Done false
  /\ skip current_fs (lit "a.yml") (lit "other") ph (lit "a.yml") = Done false
  /\ skip empty_fs (lit "a.yml") h ph (lit "a.yml") = Done false
  /\ skip {| cache_path := None;
             out_files := [(lit "a.yml",
                            OutText (demo_dump blank_note_doc))] |}
       (lit "a.yml") h ph (lit "a.yml") = Done false
  /\ skip {| cache_path := None;
             out_files := [(lit "a.yml", OutText (lit "{ not yaml"))] |}
       (lit "a.yml") h ph (lit "a.yml") = Done false
  /\ skip {| cache_path := None;
             out_files := [(lit "a.yml", OutUnreadable)] |}
       (lit "a.yml") h ph (lit "a.yml") = Done false.
Proof. vm_compute. repeat split. Qed.

(** One unchanged document, one new document, one document the provider
    refuses: the report is 3 / 1 / 1 / 1. *)
Example end_to_end_run :
  run_end (demo_run (env_of three_files) current_fs)
  = Done {| total := 3; processed := 1; skipped := 1; failed := 1;
            failures := [lit "c.yml: API error " ++ [EM_DASH]
                         ++ lit " 401 Unauthorized"] |}.
Proof. vm_compute. reflexivity. Qed.

Lemma rejected_every_attempt text max_retries attempts :
  passed (validate_response text) = false ->
  validation_loop (fun _ => Text text) max_retries attempts = Exhausted.
Proof.
  intro H. induction attempts as [|attempt rest IH]; simpl; [reflexivity|].
  rewrite H. exact IH.
Qed.

(** No text that lacks the disclaimer marker gets through the validation
    loop, however often the provider returns it. *)
Lemma missing_disclaimer_never_accepted text max_retries :
  contains text DISCLAIMER_PREFIX = false ->
  validation_loop (fun _ => Text text) max_retries
    (Provider.attempts_upto max_retries) = Exhausted.
Proof.
  intro H. apply rejected_every_attempt, passed_needs_disclaimer, H.
Qed.

(** C4.  The code at the text of [test_missing_disclaimer_still_passes],
    which has every header, enough length, dash bullets, no code fence and
    no empty section and lacks only the disclaimer marker: the validator
    reports that one error and does not pass the text, the validation loop
    rejects it on every attempt, and the task ends as a failure
    ["Validation failed 3x"]. *)
Theorem missing_disclaimer_is_rejected :
  validate_response WITHOUT_DISCLAIMER
  = {| passed := false;
       errors := [lit "Missing disclaimer blockquote (> **Disclaimer:**)"] |}
  /\ (forall max_retries,
        validation_loop (fun _ => Text WITHOUT_DISCLAIMER) max_retries
          (Provider.attempts_upto max_retries) = Exhausted)
  /\ demo_single (rule_a WITHOUT_DISCLAIMER WriteOk) empty_state
     = Done (with_result
               (record_failure (lit "a.yml: Validation failed 3x"))
               (logged (CacheShouldSkip (lit "a.yml")) empty_state)).
Proof.
  split; [vm_compute; reflexivity|].
  split; [|vm_compute; reflexivity].
  intro max_retries. apply rejected_every_attempt. vm_compute. reflexivity.
Qed.

(** C5, as stated, fails: in a run that finds no document the cache is
    loaded before the run aborts. *)
Lemma abort_comes_after_cache_load :
  run_end (demo_run (env_of []) old_fs) = Escapes (SystemExit 1)
  /\ In CacheLoad (run_log (demo_run (env_of []) old_fs))
  /\ run_log (demo_run (env_of []) old_fs) <> [].
Proof.
  split; [reflexivity|]. split; [left; reflexivity | discriminate].
Qed.

(** C7, as stated, fails: the document whose write failed under a changed
    prompt is skipped, not retried, by the next run, because its entry
    and its earlier output are still there and the run has stored the new
    prompt hash. *)
Lemma write_failure_then_skipped :
  run_end failing_run = Done failed_once
  /\ run_end next_run = Done skipped_once.
Proof.
  split; vm_compute; reflexivity.
Qed.

(** C1, as stated, fails.  A failed condition does not always give
    false: when the output file cannot be examined, or when ["rules"] of
    the index is not an object, the call raises.  And the three
    conditions do not always give true: a note that is the number zero
    is present and not blank once trimmed, and the answer is false. *)
Lemma should_skip_not_closed :
  should_skip demo_load demo_index guarded_fs
    (lit "a.yml") (lit "ch") (lit "ph") (lit "a.yml") = Escapes OSError
  /\ should_skip demo_load list_rules_index old_fs
       (lit "a.yml") (lit "ch") (lit "ph") (lit "a.yml")
     = Escapes AttributeError
  /\ (demo_load (demo_dump zero_note_doc) = Loaded zero_note_doc
      /\ Dict.get (lit "note") (demo_rule ++ [(lit "note", YInt PLAIN 0)])
         = Some (YInt PLAIN 0)
      /\ strip (str_of_int 0) = lit "0"
      /\ should_skip demo_load demo_index zero_note_fs
           (lit "a.yml") (lit "ch") (lit "ph") (lit "a.yml") = Done false).
Proof. vm_compute. repeat split. Qed.

Lemma should_skip_iff_witness :
  should_skip demo_load demo_index old_fs
    (lit "a.yml") (lit "ch") (lit "ph") (lit "a.yml") = Done true
  /\ should_skip demo_load demo_index empty_fs
       (lit "a.yml") (lit "ch") (lit "ph") (lit "a.yml") = Done false.
Proof.
  destruct (should_skip_iff demo_load demo_index old_fs (lit "a.yml")
              (lit "ch") (lit "ph") (lit "a.yml")) as (Htrue & _).
  destruct (should_skip_iff demo_load demo_index empty_fs (lit "a.yml")
              (lit "ch") (lit "ph") (lit "a.yml")) as (_ & _ & _ & Hclosed).
  split.
  - apply (proj2 Htrue).
    split; [reflexivity|]. split.
    + eexists. split; reflexivity.
    + exists (demo_dump old_doc). split; [reflexivity|].
      eexists _, _, _. split; [vm_compute; reflexivity|].
      split; [reflexivity|]. vm_compute. discriminate.
  - eapply Hclosed; [reflexivity | reflexivity | reflexivity|].
    left. reflexivity.
Defined.

Lemma compute_rule_hash_ignores_note_witness :
  Dict.del (lit "note")
    (demo_rule ++ [(lit "note", YStr LITERAL (lit "A guide."))])
  = Dict.del (lit "note") demo_rule
  /\ compute_rule_hash demo_dump demo_sha256
       (YMap demo_ca
          (demo_rule ++ [(lit "note", YStr LITERAL (lit "A guide."))]))
     = compute_rule_hash demo_dump demo_sha256 (YMap demo_ca demo_rule).
Proof.
  split; [reflexivity|].
  apply (proj1 (proj2 (proj2
           (compute_rule_hash_ignores_note demo_dump demo_sha256 demo_ca
              demo_rule)))).
  reflexivity.
Defined.

Lemma cache_round_trip_witness :
  exists cache,
    update_rule demo_now (set_prompt_hash current_index (lit "ph"))
      (lit "b.yml") (lit "ch") = Done cache
    /\ Cache.init (save WriteOk cache current_fs) = Done cache
    /\ prompt_hash cache = Some (lit "ph").
Proof.
  destruct (cache_round_trip current_fs demo_now (lit "ph") (lit "b.yml")
              (lit "ch") current_index eq_refl) as [Hret Hround].
  destruct Hret as [cache Hup]; [intros sized; discriminate|].
  exists cache. split; [exact Hup|].
  destruct (Hround cache Hup) as (cache2 & Hinit & -> & Hp & _).
  split; [exact Hinit | exact Hp].
Defined.


Lemma no_documents_is_fatal_witness :
  (run_end (demo_run (env_of []) old_fs) = Escapes (SystemExit 1)
   /\ run_log (demo_run (env_of []) old_fs) = [CacheLoad]
   /\ run_fs (demo_run (env_of []) old_fs) = old_fs)
  /\ run_end failing_run <> Escapes (SystemExit 1).
Proof.
  split.
  - exact (proj1 (no_documents_is_fatal demo_dump demo_load demo_sha256
                    demo_disclaimer demo_now (env_of []) old_fs 3 false)
             (lit "prompt v2") _ eq_refl eq_refl eq_refl eq_refl).
  - apply (proj2 (no_documents_is_fatal demo_dump demo_load demo_sha256
                    demo_disclaimer demo_now _ old_fs 3 false)).
    discriminate.
Defined.

Lemma write_failure_leaves_cache_witness :
  (exists st',
     demo_single
       (rule_a VALID_RESPONSE
          (WriteFails (lit "Permission denied") (Some old_output)))
       empty_state = Done st'
     /\ failures (result st')
        = [lit "a.yml: Write error " ++ [EM_DASH] ++ lit " Permission denied"]
     /\ cache st' = cache empty_state
     /\ should_skip demo_load (set_prompt_hash (cache st') (lit "ph")) old_fs
          (lit "a.yml") (demo_sha256 (demo_dump demo_doc))
          (lit "ph") (lit "a.yml") = Done false)
  /\ demo_single blocked_rule empty_state = Escapes OSError.
Proof.
  split.
  - destruct (write_failure_leaves_cache demo_dump demo_load demo_sha256
                demo_disclaimer demo_now
                (rule_a VALID_RESPONSE
                   (WriteFails (lit "Permission denied") (Some old_output)))
                (lit "prompt v2") (demo_sha256 (lit "prompt v2")) 3 false
                empty_state demo_ca demo_rule
                (demo_sha256 (demo_dump demo_doc)) VALID_RESPONSE)
      as [Hwrite _].
    + reflexivity.
    + reflexivity.
    + right. vm_compute. reflexivity.
    + vm_compute. reflexivity.
    + destruct (Hwrite (lit "Permission denied") (Some old_output)
                  eq_refl eq_refl) as (st' & H1 & H2 & H3 & H4).
      exists st'. split; [exact H1|]. split; [rewrite H2; reflexivity|].
      split; [exact H3|].
      apply (H4 ltac:(intros entry He; vm_compute in He; discriminate)
               (set_prompt_hash (cache st') (lit "ph")) old_fs (lit "ph")
               eq_refl).
      * intro sized. rewrite H3. discriminate.
      * rewrite H3. discriminate.
  - destruct (write_failure_leaves_cache demo_dump demo_load demo_sha256
                demo_disclaimer demo_now blocked_rule
                (lit "prompt v2") (demo_sha256 (lit "prompt v2")) 3 false
                empty_state demo_ca demo_rule
                (demo_sha256 (demo_dump demo_doc)) VALID_RESPONSE)
      as [_ Hmkdir].
    + reflexivity.
    + reflexivity.
    + right. vm_compute. reflexivity.
    + vm_compute. reflexivity.
    + exact (proj1 (Hmkdir eq_refl)).
Defined.

Lemma counters_account_for_every_file_witness :
  run_end failing_run = Done failed_once
  /\ (processed failed_once + skipped failed_once + failed failed_once
      = total failed_once)%nat
  /\ List.length (failures failed_once) = failed failed_once.
Proof.
  assert (H : run_end failing_run = Done failed_once)
    by (vm_compute; reflexivity).
  split; [exact H|].
  destruct (counters_account_for_every_file demo_dump demo_load demo_sha256
              demo_disclaimer demo_now _ _ _ _ failed_once H)
    as (A & _ & B & _).
  split; [exact A | exact B].
Defined.

Lemma generate_retry_contract_witness :
  Provider.OpenAIProvider.generate 3 calls_recovering
  = {| Provider.outcome := Provider.Returns (lit "ok");
       Provider.calls := [1; 2]; Provider.sleeps := [2] |}
  /\ Provider.OpenAIProvider.generate 3 calls_refused
     = {| Provider.outcome :=
            Provider.Raises
              (Provider.OpenAIProvider.APIError (Some 400) (lit "bad"));
          Provider.calls := [1; 2]; Provider.sleeps := [2] |}
  /\ Provider.ClaudeProvider.generate 2 calls_overloaded
     = {| Provider.outcome :=
            Provider.Raises (Provider.ClaudeProvider.APIStatusError 502 []);
          Provider.calls := [1; 2]; Provider.sleeps := [2; 4] |}.
Proof.
  destruct ProviderFacts.generate_retry_contract as (HO & HC & _ & _).
  split; [|split].
  - apply (proj1 (HO calls_recovering 3) 2 (Some (lit " ok "))).
    + lia.
    + intros j Hj. assert (j = 1) as -> by lia.
      eexists. split; reflexivity.
    + reflexivity.
  - apply (proj1 (proj2 (HO calls_refused 3)) 2
             (Provider.OpenAIProvider.APIError (Some 400) (lit "bad"))).
    + lia.
    + intros j Hj. assert (j = 1) as -> by lia.
      eexists. split; reflexivity.
    + reflexivity.
    + reflexivity.
  - apply (proj2 (proj2 (HC calls_overloaded 2))
             (Provider.ClaudeProvider.APIStatusError 502 [])).
    + lia.
    + intros j Hj. eexists. split; [reflexivity|].
      change ((500 <=? 500 + j) = true). apply Z.leb_le. lia.
    + reflexivity.
Defined.

End ConcreteRuns.

(* ================================================================== *)
(** * More about the validator *)

Section ValidatorMore.

Local Open Scope N_scope.

(** The message of each check of [validate_response]. *)
Definition too_short_error (text : str) : str :=
  lit "Response too short (" ++ str_of_nat (List.length (strip text))
  ++ lit " chars, minimum " ++ str_of_nat MINIMUM_LENGTH ++ lit ")".

Definition missing_header_error (header : str) : str :=
  lit "Missing required header: " ++ header.

Definition no_content_error (header : str) : str :=
  lit "Section '" ++ header ++ lit "' has no content after the header".

(** A header of the text whose section is empty: the header stands on a
    line of its own and no content follows it. *)
Definition empty_section (text : str) (header : str) : bool :=
  match lines_after header (splitlines (strip text)) with
  | Some rest => negb (has_content rest)
  | None => false
  end.

(** The errors of a text that is not blank, check by check. *)
Definition expected_errors (text : str) : list str :=
  (if Nat.ltb (List.length (strip text)) MINIMUM_LENGTH
   then [too_short_error text] else [])
  ++ map missing_header_error
       (filter (fun header => negb (contains text header)) REQUIRED_HEADERS)
  ++ (if contains text DISCLAIMER_PREFIX then []
      else [lit "Missing disclaimer blockquote (> **Disclaimer:**)"])
  ++ (if star_bullet_search true text
      then [lit "Found * bullet(s) " ++ [EM_DASH]
            ++ lit " must use dash-prefixed (-) bullets only"]
      else [])
  ++ (if contains text (lit "```")
      then [lit "Found triple-backtick code block(s) " ++ [EM_DASH]
            ++ lit " code blocks are not allowed"]
      else [])
  ++ map no_content_error (filter (empty_section text) REQUIRED_HEADERS).

Lemma fold_left_collect (A : Type) (c : A -> bool) (m : A -> str) l :
  forall acc,
    fold_left (fun errs a => if c a then errs ++ [m a] else errs) l acc
    = acc ++ map m (filter c l).
Proof.
  induction l as [|a l IH]; intro acc; simpl.
  - rewrite app_nil_r. reflexivity.
  - rewrite IH. destruct (c a); simpl; [|reflexivity].
    rewrite <- app_assoc. reflexivity.
Qed.

Lemma check_section_content_collect text acc :
  _check_section_content text acc
  = acc ++ map no_content_error (filter (empty_section text) REQUIRED_HEADERS).
Proof.
  unfold _check_section_content. generalize REQUIRED_HEADERS as l.
  intro l. revert acc. induction l as [|h l IH]; intro acc; simpl.
  - rewrite app_nil_r. reflexivity.
  - rewrite IH. unfold empty_section at 2.
    destruct (lines_after h (splitlines (strip text))) as [rest|];
      [|reflexivity].
    destruct (has_content rest); simpl; [reflexivity|].
    rewrite <- app_assoc. reflexivity.
Qed.

Lemma validate_response_nonblank text :
  strip text <> [] ->
  validate_response text
  = {| passed := Nat.eqb (List.length (expected_errors text)) 0;
       errors := expected_errors text |}.
Proof.
  intro H. unfold validate_response.
  assert (Hb : is_empty text || is_empty (strip text) = false).
  { destruct text; [exfalso; apply H; reflexivity|].
    destruct (strip (c :: text)); [congruence | reflexivity]. }
  rewrite Hb. cbv zeta.
  match goal with
  | |- {| passed := Nat.eqb (List.length ?e) 0; errors := _ |} = _ =>
      assert (He : e = expected_errors text); [|rewrite He; reflexivity]
  end.
  rewrite check_section_content_collect. unfold expected_errors.
  rewrite (fold_left_collect _ (fun header => negb (contains text header))
             missing_header_error).
  destruct (contains text (lit "```")), (star_bullet_search true text),
    (contains text DISCLAIMER_PREFIX),
    (Nat.ltb (List.length (strip text)) MINIMUM_LENGTH);
    simpl negb; cbv iota; rewrite <- ?app_assoc; reflexivity.
Qed.

Lemma strip_blank_validate text :
  strip text = [] ->
  validate_response text
  = {| passed := false; errors := [lit "Response is empty"] |}.
Proof.
  intro H. unfold validate_response. rewrite H. simpl.
  rewrite orb_true_r. reflexivity.
Qed.

(** X1.  [validate_response] evaluates every check on a text that is not
    blank and collects one message per violation: an error is reported
    exactly when it is the message of a violated check (too short, a
    missing header, the missing disclaimer marker, a star bullet, a code
    fence, a header with an empty section).  A blank text gets the single
    error ["Response is empty"] and no other check is run. *)
Theorem validate_response_reports (text : str) :
  (strip text = [] ->
   validate_response text
   = {| passed := false; errors := [lit "Response is empty"] |})
  /\ (strip text <> [] ->
      forall e,
        In e (errors (validate_response text)) <->
        ((List.length (strip text) < MINIMUM_LENGTH)%nat
         /\ e = too_short_error text)
        \/ (exists header, In header REQUIRED_HEADERS
              /\ contains text header = false
              /\ e = missing_header_error header)
        \/ (contains text DISCLAIMER_PREFIX = false
            /\ e = lit "Missing disclaimer blockquote (> **Disclaimer:**)")
        \/ (star_bullet_search true text = true
            /\ e = lit "Found * bullet(s) " ++ [EM_DASH]
                   ++ lit " must use dash-prefixed (-) bullets only")
        \/ (contains text (lit "```") = true
            /\ e = lit "Found triple-backtick code block(s) " ++ [EM_DASH]
                   ++ lit " code blocks are not allowed")
        \/ (exists header, In header REQUIRED_HEADERS
              /\ empty_section text header = true
              /\ e = no_content_error header)).
Proof.
  split; [apply strip_blank_validate|].
  intros H e. rewrite (validate_response_nonblank text H). simpl errors.
  unfold expected_errors. rewrite !in_app_iff, !in_map_iff.
  assert (Hs : In e (if Nat.ltb (List.length (strip text)) MINIMUM_LENGTH
                     then [too_short_error text] else [])
               <-> (List.length (strip text) < MINIMUM_LENGTH)%nat
                   /\ e = too_short_error text).
  { destruct (Nat.ltb_spec (List.length (strip text)) MINIMUM_LENGTH); simpl.
    - split; [intros [<- | []]; split; [assumption | reflexivity]
             | intros [_ ->]; left; reflexivity].
    - split; [intros [] | intros [Hlt _]; lia]. }
  assert (Hd : In e (if contains text DISCLAIMER_PREFIX then []
                     else [lit "Missing disclaimer blockquote (> **Disclaimer:**)"])
               <-> contains text DISCLAIMER_PREFIX = false
                   /\ e = lit "Missing disclaimer blockquote (> **Disclaimer:**)").
  { destruct (contains text DISCLAIMER_PREFIX); simpl.
    - split; [intros [] | intros [Hf _]; discriminate].
    - split; [intros [<- | []]; split; reflexivity
             | intros [_ ->]; left; reflexivity]. }
  assert (Hb : forall (b : bool) (m : str),
             In e (if b then [m] else []) <-> b = true /\ e = m).
  { intros [|] m; simpl.
    - split; [intros [<- | []]; split; reflexivity
             | intros [_ ->]; left; reflexivity].
    - split; [intros [] | intros [Hf _]; discriminate]. }
  rewrite Hs, Hd, !Hb.
  assert (Hh : (exists x, missing_header_error x = e
                  /\ In x (filter (fun header => negb (contains text header))
                             REQUIRED_HEADERS))
               <-> exists header, In header REQUIRED_HEADERS
                     /\ contains text header = false
                     /\ e = missing_header_error header).
  { split; intros (h & A & B).
    - apply filter_In in B. destruct B as [B C]. apply negb_true_iff in C.
      exists h. repeat split; [exact B | exact C | symmetry; exact A].
    - destruct B as [B C]. exists h. split; [symmetry; exact C|].
      apply filter_In. split; [exact A | apply negb_true_iff; exact B]. }
  assert (Hc : (exists x, no_content_error x = e
                  /\ In x (filter (empty_section text) REQUIRED_HEADERS))
               <-> exists header, In header REQUIRED_HEADERS
                     /\ empty_section text header = true
                     /\ e = no_content_error header).
  { split; intros (h & A & B).
    - apply filter_In in B. destruct B as [B C].
      exists h. repeat split; [exact B | exact C | symmetry; exact A].
    - destruct B as [B C]. exists h. split; [symmetry; exact C|].
      apply filter_In. split; [exact A | exact B]. }
  rewrite Hh, Hc. tauto.
Qed.

Lemma app_is_nil (A : Type) (a b : list A) : a ++ b = [] <-> a = [] /\ b = [].
Proof.
  destruct a; simpl; split; try tauto; try discriminate.
  intros [H _]. discriminate.
Qed.

Lemma map_filter_nil (A B : Type) (m : A -> B) (c : A -> bool) l :
  map m (filter c l) = [] <-> forall a, In a l -> c a = false.
Proof.
  induction l as [|a l IH]; simpl.
  - split; [intros _ a [] | reflexivity].
  - destruct (c a) eqn:E; simpl.
    + split; [discriminate|]. intro H.
      rewrite (H a (or_introl eq_refl)) in E. discriminate.
    + rewrite IH. split.
      * intros H b [<- | Hb]; [exact E | apply H, Hb].
      * intros H b Hb. apply H. right. exact Hb.
Qed.

(** X2.  [validate_response] passes a text exactly when the text has at
    least 200 characters once stripped, contains each of the four
    required headers and the disclaimer marker, has no star bullet and no
    code fence, and no required header that stands on a line of its own
    is followed by an empty section. *)
Theorem validate_response_passes_iff (text : str) :
  passed (validate_response text) = true <->
  (MINIMUM_LENGTH <= List.length (strip text))%nat
  /\ (forall header, In header REQUIRED_HEADERS -> contains text header = true)
  /\ contains text DISCLAIMER_PREFIX = true
  /\ star_bullet_search true text = false
  /\ contains text (lit "```") = false
  /\ (forall header, In header REQUIRED_HEADERS ->
        empty_section text header = false).
Proof.
  destruct (strip text) as [|c r] eqn:Es.
  - rewrite (strip_blank_validate text Es). simpl. split; [discriminate|].
    intros [H _]. unfold MINIMUM_LENGTH in H. lia.
  - assert (Hne : strip text <> []) by (rewrite Es; discriminate).
    rewrite (validate_response_nonblank text Hne). simpl passed.
    rewrite <- Es.
    assert (Hnil : Nat.eqb (List.length (expected_errors text)) 0 = true
                   <-> expected_errors text = []).
    { destruct (expected_errors text); simpl; split; congruence. }
    rewrite Hnil. unfold expected_errors.
    rewrite !app_is_nil.
    rewrite !map_filter_nil.
    assert (H1 : (if Nat.ltb (List.length (strip text)) MINIMUM_LENGTH
                  then [too_short_error text] else []) = []
                 <-> (MINIMUM_LENGTH <= List.length (strip text))%nat).
    { destruct (Nat.ltb_spec (List.length (strip text)) MINIMUM_LENGTH);
        split; try discriminate; try reflexivity; lia. }
    rewrite H1.
    destruct (contains text DISCLAIMER_PREFIX),
      (star_bullet_search true text), (contains text (lit "```"));
      split;
      intros (A & B & C & D & E & F);
      try discriminate;
      (repeat split; try assumption; try reflexivity;
       intros header Hh;
       first [ apply negb_false_iff, B, Hh
             | apply negb_false_iff; rewrite negb_involutive; apply B, Hh ]).
Qed.

(** X3.  The scan of a section in [_check_section_content] depends only
    on the first line after the header that is not blank: the section has
    content exactly when there is such a line and it does not start with
    ["### "].  The branch for block quotes changes nothing. *)
Theorem has_content_first_line (lines : list str) :
  has_content lines
  = match find (fun l => negb (is_empty (strip l))) lines with
    | Some l => negb (startswith (strip l) (lit "### "))
    | None => false
    end.
Proof.
  induction lines as [|l r IH]; [reflexivity|].
  cbn [has_content find]. remember (strip l) as st eqn:Est.
  destruct (startswith st (lit "### ")) eqn:Eh.
  - assert (He : is_empty st = false)
      by (destruct st; [discriminate Eh | reflexivity]).
    rewrite He. cbn [negb]. rewrite <- Est, Eh. reflexivity.
  - destruct st as [|c s].
    + cbn. exact IH.
    + change (is_empty (c :: s)) with false. cbn [negb andb].
      rewrite <- Est, Eh.
      destruct (startswith (c :: s) (lit ">")); reflexivity.
Qed.

End ValidatorMore.

Section StarBullets.

Local Open Scope N_scope.

Definition STAR : char := 42.

Lemma star_bullet_here_eq s :
  star_bullet_here s
  = match lstrip s with
    | a :: c :: _ => (a =? STAR) && is_space c
    | _ => false
    end.
Proof.
  unfold star_bullet_here. destruct (lstrip s) as [|a [|c r]].
  - reflexivity.
  - destruct (N.eqb_spec a STAR) as [->|Hn]; [reflexivity|].
    repeat match goal with
           | |- context [match ?p with _ => _ end] => destruct p
           end; reflexivity.
  - destruct (N.eqb_spec a STAR) as [->|Hn]; [reflexivity|].
    simpl andb.
    repeat match goal with
           | |- context [match ?p with _ => _ end] =>
               is_var p; destruct p
           end; try reflexivity; exfalso; apply Hn; reflexivity.
Qed.

Lemma lstrip_spaces ws r :
  forallb is_space ws = true -> lstrip (ws ++ r) = lstrip r.
Proof.
  induction ws as [|x ws IH]; [reflexivity|]. simpl.
  intro H. apply andb_true_iff in H. destruct H as [Hx Hws].
  rewrite Hx. exact (IH Hws).
Qed.

Lemma star_bullet_here_spec s :
  star_bullet_here s = true <->
  exists ws c post,
    s = ws ++ STAR :: c :: post
    /\ forallb is_space ws = true /\ is_space c = true.
Proof.
  rewrite star_bullet_here_eq. split.
  - induction s as [|x r IH]; [discriminate|]. simpl lstrip.
    destruct (is_space x) eqn:Ex.
    + intro H. destruct (IH H) as (ws & c & post & -> & Hws & Hc).
      exists (x :: ws), c, post. simpl. rewrite Ex, Hws.
      repeat split. exact Hc.
    + destruct r as [|c post]; [discriminate|].
      intro H. apply andb_true_iff in H. destruct H as [Ha Hc].
      apply N.eqb_eq in Ha. subst x.
      exists [], c, post. repeat split. exact Hc.
  - intros (ws & c & post & -> & Hws & Hc).
    rewrite (lstrip_spaces ws _ Hws). simpl. rewrite Hc. reflexivity.
Qed.

Lemma star_bullet_search_spec s :
  forall line_start,
    star_bullet_search line_start s = true <->
    (line_start = true /\ star_bullet_here s = true)
    \/ exists pre rest, s = pre ++ LF :: rest /\ star_bullet_here rest = true.
Proof.
  induction s as [|c r IH]; intro b.
  - simpl. rewrite orb_false_r, andb_true_iff. split.
    + intro H. left. exact H.
    + intros [H | (pre & rest & H & _)]; [exact H|].
      destruct pre; discriminate.
  - change (star_bullet_search b (c :: r))
      with ((b && star_bullet_here (c :: r))
            || star_bullet_search (c =? LF) r).
    rewrite orb_true_iff, andb_true_iff, IH. split.
    + intros [H | [[Hc Hr] | (pre & rest & -> & Hr)]].
      * left. exact H.
      * apply N.eqb_eq in Hc. subst c. right. exists [], r.
        split; [reflexivity | exact Hr].
      * right. exists (c :: pre), rest. split; [reflexivity | exact Hr].
    + intros [H | (pre & rest & H & Hr)]; [left; exact H|]. right.
      destruct pre as [|x pre].
      * injection H as -> ->. left. split; [apply N.eqb_refl | exact Hr].
      * injection H as -> ->. right. exists pre, rest.
        split; [reflexivity | exact Hr].
Qed.

(** X4.  The star-bullet check ([^\s*\*\s] with [re.MULTILINE]) fires
    exactly when, at the start of the text or right after an LF, there is
    a run of whitespace, a star and one whitespace character.  A doubled
    star at the start of a line (bold text) is no bullet there. *)
Theorem star_bullet_search_iff (text : str) :
  (star_bullet_search true text = true <->
   exists pre ws c post,
     text = pre ++ ws ++ STAR :: c :: post
     /\ (pre = [] \/ exists pre', pre = pre' ++ [LF])
     /\ forallb is_space ws = true
     /\ is_space c = true)
  /\ (forall ws post,
        forallb is_space ws = true ->
        star_bullet_here (ws ++ STAR :: STAR :: post) = false).
Proof.
  split.
  - rewrite star_bullet_search_spec. split.
    + intros [[_ H] | (pre & rest & -> & H)];
        apply star_bullet_here_spec in H;
        destruct H as (ws & c & post & -> & Hws & Hc).
      * exists [], ws, c, post. repeat split; try assumption.
        left. reflexivity.
      * exists (pre ++ [LF]), ws, c, post. rewrite <- app_assoc.
        repeat split; try assumption. right. exists pre. reflexivity.
    + intros (pre & ws & c & post & -> & Hpre & Hws & Hc).
      assert (Hh : star_bullet_here (ws ++ STAR :: c :: post) = true)
        by (apply star_bullet_here_spec; eauto 6).
      destruct Hpre as [-> | (pre' & ->)].
      * left. split; [reflexivity | exact Hh].
      * right. exists pre', (ws ++ STAR :: c :: post).
        rewrite <- app_assoc. split; [reflexivity | exact Hh].
  - intros ws post Hws. rewrite star_bullet_here_eq, (lstrip_spaces ws _ Hws).
    reflexivity.
Qed.

End StarBullets.

(* ================================================================== *)
(** * More about the cache *)

Section CacheMore.




Lemma dict_set_set (V : Type) k (v v' : V) d :
  Dict.set k v (Dict.set k v' d) = Dict.set k v d.
Proof.
  induction d as [|[k0 v0] d IH]; simpl.
  - rewrite str_eqb_refl. reflexivity.
  - destruct (str_eqb k0 k) eqn:E; simpl; rewrite E; [reflexivity|].
    rewrite IH. reflexivity.
Qed.

(** X6.  [update_rule] upserts when ["rules"] is missing or an object:
    afterwards the entry of the path holds the new content hash and
    timestamp, every other entry, the prompt hash and the version are as
    before, and a second update of the same path replaces the first.
    When ["rules"] is anything else it raises [TypeError].
    [set_prompt_hash] changes the prompt hash and no entry, and the two
    commute. *)
Theorem update_rule_upserts (now now' : str) (data : CacheIndex)
    (relative_path c c' h : str) :
  (rules_usable data ->
   exists data',
     update_rule now data relative_path c = Done data'
     /\ entry_of data' relative_path
        = Some (EntryObject {| content_hash := Some c;
                               last_processed := Some now |})
     /\ (forall other,
           other <> relative_path ->
           entry_of data' other = entry_of data other)
     /\ prompt_hash data' = prompt_hash data
     /\ version data' = version data
     /\ (exists data1,
           update_rule now' data relative_path c' = Done data1
           /\ update_rule now data1 relative_path c = Done data')
     /\ update_rule now (set_prompt_hash data h) relative_path c
        = Done (set_prompt_hash data' h))
  /\ ((exists sized, rules data = Some (RulesOther sized)) ->
      update_rule now data relative_path c = Escapes TypeError)
  /\ prompt_hash (set_prompt_hash data h) = Some h
  /\ (forall other,
        entry_of (set_prompt_hash data h) other = entry_of data other).
Proof.
  split; [|split; [|split]].
  - intro Hu. eexists. split; [apply update_rule_done; exact Hu|].
    unfold entry_of. cbn [rules version prompt_hash].
    split; [apply dict_get_set_same|].
    split.
    { intros other H. rewrite dict_get_set_other by exact H.
      destruct (rules data) as [[r | sized]|]; reflexivity. }
    split; [reflexivity|]. split; [reflexivity|].
    split.
    + eexists. split; [apply update_rule_done; exact Hu|].
      unfold update_rule. cbn [rules version prompt_hash].
      rewrite dict_set_set. reflexivity.
    + rewrite update_rule_done by exact Hu. reflexivity.
  - intros [sized H]. unfold update_rule. rewrite H. reflexivity.
  - reflexivity.
  - reflexivity.
Qed.

End CacheMore.

(* ================================================================== *)
(** * More about the provider retry loop *)

Module ProviderMore.
Import Provider ProviderFacts.

Local Open Scope Z_scope.

(** The total of the waits of a call of [generate], in seconds. *)
Definition total_wait (waits : list Z) : Z := fold_right Z.add 0 waits.

Lemma strip_idem s : strip (strip s) = strip s.
Proof.
  destruct (strip_shape s) as [-> | (c & r & -> & Hc & Ht)]; [reflexivity|].
  unfold strip. rewrite (lstrip_nonspace _ _ Hc). exact Ht.
Qed.

Lemma prefix_of_attempts a n pre post :
  map Z.of_nat (seq a n) = pre ++ post ->
  pre = map Z.of_nat (seq a (List.length pre))
  /\ (List.length pre <= n)%nat.
Proof.
  revert a n. induction pre as [|x pre IH]; intros a n H.
  - split; [reflexivity | simpl; lia].
  - destruct n as [|n]; [discriminate|]. simpl in H.
    injection H as <- H. destruct (IH _ _ H) as [E L].
    split; [simpl; f_equal; exact E | simpl; lia].
Qed.

Lemma total_wait_app a b : total_wait (a ++ b) = total_wait a + total_wait b.
Proof.
  unfold total_wait. induction a as [|x a IH]; simpl; [reflexivity|].
  rewrite IH. lia.
Qed.

Lemma total_wait_powers_nonneg l : 0 <= total_wait (map (Z.pow 2) l).
Proof.
  unfold total_wait. induction l as [|x l IH]; simpl; [lia|].
  pose proof (Z.pow_nonneg 2 x). lia.
Qed.

Lemma total_wait_upto n :
  0 <= n -> total_wait (map (Z.pow 2) (attempts_upto n)) = 2 ^ (n + 1) - 2.
Proof.
  revert n. apply natlike_ind.
  - reflexivity.
  - intros n Hn IH. rewrite (attempts_upto_snoc (Z.succ n)) by lia.
    replace (Z.succ n - 1) with n by lia.
    rewrite map_app, total_wait_app, IH. unfold total_wait. simpl.
    replace (Z.succ n + 1) with (Z.succ (n + 1)) by lia.
    rewrite (Z.pow_succ_r 2 (n + 1)) by lia.
    replace (Z.succ n) with (n + 1) by lia. lia.
Qed.

Lemma attempts_upto_split_at j n :
  0 <= j <= n -> exists rest, attempts_upto n = attempts_upto j ++ rest.
Proof.
  intro H. unfold attempts_upto.
  replace (Z.to_nat n) with (Z.to_nat j + (Z.to_nat n - Z.to_nat j))%nat by lia.
  rewrite seq_app, map_app. eexists. reflexivity.
Qed.

Section Bounds.
Variables Resp Err : Type.
Variable text_of : Resp -> str.
Variable retryable : Err -> bool.
Variable call : Z -> api_outcome Resp Err.

(** The loop calls the API on a prefix of its attempts, in order, waits
    after each call but possibly the last, and returns stripped text. *)
Lemma retry_loop_prefix_called attempts :
  forall last called slept,
    let g := retry_loop text_of retryable call attempts last called slept in
    (exists pre post,
        attempts = pre ++ post
        /\ calls g = called ++ pre
        /\ (sleeps g = slept ++ map (Z.pow 2) pre
            \/ exists pre' k,
                 pre = pre' ++ [k]
                 /\ sleeps g = slept ++ map (Z.pow 2) pre'))
    /\ (forall t, outcome g = Returns t -> strip t = t).
Proof.
  induction attempts as [|attempt rest IH]; intros last called slept; simpl.
  - split.
    + exists [], []. rewrite !app_nil_r. repeat split. left. reflexivity.
    + destruct last; discriminate.
  - destruct (call attempt) as [r | e] eqn:Ec.
    + simpl. split.
      * exists [attempt], rest. repeat split. right.
        exists [], attempt. rewrite app_nil_r. split; reflexivity.
      * intros t [= <-]. apply strip_idem.
    + destruct (retryable e) eqn:Er.
      * destruct (IH (Some e) (called ++ [attempt]) (slept ++ [2 ^ attempt]))
          as [(pre & post & -> & Hc & Hs) Ht].
        split; [|exact Ht].
        exists (attempt :: pre), post. split; [reflexivity|].
        split; [rewrite Hc, <- app_assoc; reflexivity|].
        destruct Hs as [Hs | (pre' & k & -> & Hs)].
        -- left. rewrite Hs, <- app_assoc. reflexivity.
        -- right. exists (attempt :: pre'), k. split; [reflexivity|].
           rewrite Hs, <- app_assoc. reflexivity.
      * simpl. split.
        -- exists [attempt], rest. repeat split. right.
           exists [], attempt. rewrite app_nil_r. split; reflexivity.
        -- discriminate.
Qed.

(** What bounds a call of [generate]. *)
Definition retry_bounds (generate : Z -> generation Err) : Prop :=
  forall api_max_retries : Z,
    let g := generate api_max_retries in
    (exists k j,
        0 <= j <= k /\ k <= Z.max 0 api_max_retries /\ k - 1 <= j
        /\ calls g = attempts_upto k
        /\ sleeps g = map (Z.pow 2) (attempts_upto j))
    /\ total_wait (sleeps g) <= 2 ^ (Z.max 0 api_max_retries + 1) - 2
    /\ (forall t, outcome g = Returns t -> strip t = t).

Lemma retry_bounds_hold : retry_bounds (generate_with text_of retryable call).
Proof.
  intro n. cbv zeta. unfold generate_with.
  destruct (retry_loop_prefix_called (attempts_upto n) None [] [])
    as [(pre & post & Hsplit & Hc & Hs) Ht].
  simpl in Hc, Hs.
  destruct (prefix_of_attempts _ _ _ _ Hsplit) as [Epre Hlen].
  assert (Ecalls : pre = attempts_upto (Z.of_nat (List.length pre))).
  { unfold attempts_upto. rewrite Nat2Z.id. exact Epre. }
  assert (Hk : Z.of_nat (List.length pre) <= Z.max 0 n) by lia.
  assert (Hshape : exists k j,
             0 <= j <= k /\ k <= Z.max 0 n /\ k - 1 <= j
             /\ calls (retry_loop text_of retryable call (attempts_upto n)
                         None [] []) = attempts_upto k
             /\ sleeps (retry_loop text_of retryable call (attempts_upto n)
                          None [] []) = map (Z.pow 2) (attempts_upto j)).
  { destruct Hs as [Hs | (pre' & k & E & Hs)].
    - exists (Z.of_nat (List.length pre)), (Z.of_nat (List.length pre)).
      repeat split; try lia.
      + rewrite Hc. exact Ecalls.
      + rewrite Hs, <- Ecalls. reflexivity.
    - exists (Z.of_nat (List.length pre)), (Z.of_nat (List.length pre')).
      assert (Hl : List.length pre = S (List.length pre'))
        by (rewrite E, length_app; simpl; lia).
      repeat split; try lia.
      + rewrite Hc. exact Ecalls.
      + rewrite Hs. f_equal.
        rewrite E, <- app_assoc in Hsplit.
        destruct (prefix_of_attempts _ _ _ _ Hsplit) as [Epre' _].
        unfold attempts_upto. rewrite Nat2Z.id. exact Epre'. }
  split; [exact Hshape|]. split; [|exact Ht].
  destruct Hshape as (k & j & Hj & Hkn & _ & _ & ->).
  destruct (attempts_upto_split_at j (Z.max 0 n)) as [rest Hrest]; [lia|].
  rewrite <- (total_wait_upto (Z.max 0 n)) by lia.
  rewrite Hrest, map_app, total_wait_app.
  pose proof (total_wait_powers_nonneg rest). lia.
Qed.
End Bounds.

(** X7.  Whatever the API does, a call of [generate] of either provider
    calls it on attempts 1 to [k] for some [k] of at most
    [api_max_retries], never more; it sleeps [2 ^ attempt] after each of
    these attempts but possibly the last, so it waits at most
    [2 ^ (api_max_retries + 1) - 2] seconds in all; and a text it returns
    is stripped. *)
Theorem generate_is_bounded :
  (forall call,
      retry_bounds _
        (fun api_max_retries => OpenAIProvider.generate api_max_retries call))
  /\ (forall call,
      retry_bounds _
        (fun api_max_retries => ClaudeProvider.generate api_max_retries call)).
Proof.
  split; intro call; exact (retry_bounds_hold _ _ _ _ call).
Qed.

(** X8.  With [api_max_retries] of zero or less, [generate] of either
    provider makes no API call and no wait, and ends in the [TypeError]
    of [raise None], not in an error of the API. *)
Theorem generate_without_attempts_raises_none (api_max_retries : Z) :
  api_max_retries <= 0 ->
  (forall call,
      OpenAIProvider.generate api_max_retries call
      = {| outcome := RaisesNone; calls := []; sleeps := [] |})
  /\ (forall call,
      ClaudeProvider.generate api_max_retries call
      = {| outcome := RaisesNone; calls := []; sleeps := [] |}).
Proof.
  intro H. split; intro call;
    exact (generate_without_attempts _ _ _ _ call api_max_retries H).
Qed.

End ProviderMore.

(* ================================================================== *)
(** * More about the cleanup and the note *)

Section CleanMore.

Local Open Scope N_scope.

Definition nonempty (l : str) : bool := negb (is_empty l).

Lemma clean_lines_nonblank lines prev_blank :
  filter nonempty (clean_lines prev_blank lines)
  = filter nonempty (map rstrip lines).
Proof.
  revert prev_blank. induction lines as [|l r IH]; intro pb; [reflexivity|].
  cbn [clean_lines map filter].
  assert (Hn : nonempty (rstrip l) = negb (is_empty (rstrip l))) by reflexivity.
  rewrite Hn. destruct (is_empty (rstrip l)) eqn:E; cbn [negb].
  - destruct pb; [apply IH|]. cbn [filter].
    change (nonempty []) with false. cbv iota. apply IH.
  - cbn [filter]. rewrite Hn. cbn [negb]. rewrite IH. reflexivity.
Qed.

Lemma clean_lines_normal c r :
  is_space c = false -> rstrip (c :: r) = c :: r ->
  normal (clean_lines true (splitlines (c :: r))).
Proof.
  intros Hc Ht.
  pose proof (splitlines_one_line (c :: r)) as Hl.
  pose proof (splitlines_ends_nonblank _ Ht) as He.
  pose proof (splitlines_nonempty c r) as Hne.
  destruct (clean_lines_lines _ true Hl) as (A & B & C).
  destruct (clean_lines_ends _ true Hne He) as [D E].
  constructor; try assumption.
  rewrite splitlines_cons, (nonspace_not_linebreak _ Hc).
  destruct (splitlines r) as [|l0 ls];
    rewrite (clean_lines_head _ _ _ _ Hc); eexists _, _, _;
    (split; [reflexivity | exact Hc]).
Qed.

Lemma clean_markdown_splitlines text :
  splitlines (_clean_markdown text)
  = match clean_lines true (splitlines (strip text)) with
    | [] => [[]]
    | out => out
    end.
Proof.
  rewrite clean_markdown_eq.
  destruct (strip_shape text) as [-> | (c & r & -> & Hc & Ht)];
    [reflexivity|].
  pose proof (clean_lines_normal c r Hc Ht) as Hn.
  cbv zeta. rewrite (proj2 (normal_join _ Hn)).
  assert (Hne : clean_lines true (splitlines (c :: r)) <> []).
  { destruct Hn as [_ _ _ _ (c0 & l & rest & -> & _)]. discriminate. }
  rewrite (splitlines_join_LF _ (normal_lines _ Hn) Hne).
  destruct (clean_lines true (splitlines (c :: r))); [congruence | reflexivity].
Qed.

(** X9.  [_clean_markdown] neither drops, reorders nor changes the lines
    that are not blank: the non-empty lines of its result are the lines
    of the stripped text, each without its trailing whitespace, in the
    same order.  Only blank lines are removed. *)
Theorem clean_markdown_keeps_lines (text : str) :
  filter nonempty (splitlines (_clean_markdown text))
  = filter nonempty (map rstrip (splitlines (strip text))).
Proof.
  rewrite clean_markdown_splitlines, <- (clean_lines_nonblank _ true).
  destruct (clean_lines true (splitlines (strip text))); reflexivity.
Qed.

Lemma REQUIRED_HEADERS_solid header :
  In header REQUIRED_HEADERS -> solid header.
Proof.
  intros [<- | [<- | [<- | [<- | []]]]]; constructor.
  - eexists _, _. split; reflexivity.
  - exists (lit "### Technical Contex"), 116. split; reflexivity.
  - repeat constructor.
  - eexists _, _. split; reflexivity.
  - exists (lit "### Investigation Step"), 115. split; reflexivity.
  - repeat constructor.
  - eexists _, _. split; reflexivity.
  - exists (lit "### Prioritizatio"), 110. split; reflexivity.
  - repeat constructor.
  - eexists _, _. split; reflexivity.
  - exists (lit "### Blind Spots and Assumption"), 115. split; reflexivity.
  - repeat constructor.
Qed.

(** X10.  The note keeps what the validator looked for: every piece of
    the response that lies within one line and has no whitespace at
    either end is still in the note, so the note of a response that
    passed validation contains the four required headers. *)
Theorem note_keeps_headers (DISCLAIMER_TEXT response : str) :
  (forall piece,
      solid piece -> contains response piece = true ->
      contains (note_text DISCLAIMER_TEXT response) piece = true)
  /\ (passed (validate_response response) = true ->
      forall header,
        In header REQUIRED_HEADERS ->
        contains (note_text DISCLAIMER_TEXT response) header = true).
Proof.
  assert (Hkeep : forall piece,
      solid piece -> contains response piece = true ->
      contains (note_text DISCLAIMER_TEXT response) piece = true).
  { intros piece Hs Hc.
    pose proof (clean_markdown_keeps _ _ Hs Hc) as Hk.
    unfold note_text.
    destruct (contains (_clean_markdown response) DISCLAIMER_TEXT);
      [exact Hk|].
    simpl negb. cbv iota. apply contains_app_l.
    apply solid_rstrip_char; assumption. }
  split; [exact Hkeep|].
  intros Hp header Hh. apply Hkeep; [apply REQUIRED_HEADERS_solid, Hh|].
  destruct (contains response header) eqn:E; [reflexivity|].
  exfalso.
  assert (Hne : strip response <> []).
  { intro Hb. rewrite (strip_blank_validate _ Hb) in Hp. discriminate. }
  rewrite (validate_response_nonblank _ Hne) in Hp. simpl in Hp.
  assert (Hin : In (missing_header_error header) (expected_errors response)).
  { unfold expected_errors. rewrite !in_app_iff. right. left.
    apply in_map, filter_In. split; [exact Hh | rewrite E; reflexivity]. }
  destruct (expected_errors response); [destruct Hin | discriminate].
Qed.

End CleanMore.

(* ================================================================== *)
(** * More about the validation loop *)

Section LoopMore.

Local Open Scope Z_scope.

Variable generate : Z -> generated.
Variable max_retries : Z.

(** An attempt that does not end the loop with a response: the provider
    raised, or its text did not pass validation. *)
Definition rejected (attempt : Z) : Prop :=
  match generate attempt with
  | ApiException _ => True
  | Text raw_response => passed (validate_response raw_response) = false
  end.

(** The attempt returned [response] and it passed validation. *)
Definition accepts (attempt : Z) (response : str) : Prop :=
  generate attempt = Text response
  /\ passed (validate_response response) = true.

Lemma rejected_or_accepts attempt :
  rejected attempt \/ exists response, accepts attempt response.
Proof.
  unfold rejected, accepts. destruct (generate attempt) as [raw | e].
  - destruct (passed (validate_response raw)) eqn:E.
    + right. exists raw. split; reflexivity || exact E.
    + left. reflexivity.
  - left. exact I.
Qed.

Lemma rejected_not_accepts attempt response :
  rejected attempt -> accepts attempt response -> False.
Proof.
  unfold rejected, accepts. intros H [E P]. rewrite E in H. congruence.
Qed.

(** Attempts before the last that are rejected are passed over. *)
Lemma validation_loop_skips pre post :
  (forall j, In j pre -> rejected j /\ j <> max_retries) ->
  validation_loop generate max_retries (pre ++ post)
  = validation_loop generate max_retries post.
Proof.
  induction pre as [|j pre IH]; intro H; [reflexivity|]. simpl.
  destruct (H j (or_introl eq_refl)) as [Hr Hn]. unfold rejected in Hr.
  destruct (generate j) as [raw | e].
  - rewrite Hr. apply IH. intros i Hi. apply H. right. exact Hi.
  - destruct (Z.eqb_spec j max_retries); [contradiction|].
    apply IH. intros i Hi. apply H. right. exact Hi.
Qed.

Lemma loop_at k :
  1 <= k <= max_retries ->
  (forall j, 1 <= j < k -> rejected j) ->
  exists rest,
    validation_loop generate max_retries (Provider.attempts_upto max_retries)
    = validation_loop generate max_retries (k :: rest)
    /\ (k = max_retries -> rest = []).
Proof.
  intros Hk Hrej.
  destruct (ProviderFacts.attempts_upto_split k max_retries Hk) as [rest E].
  exists rest. split.
  - rewrite E, (ProviderFacts.attempts_upto_snoc k) by lia.
    rewrite <- app_assoc. apply validation_loop_skips.
    intros j Hj. apply ProviderFacts.attempts_upto_In in Hj.
    split; [apply Hrej; lia | lia].
  - intros ->. apply (f_equal (@List.length Z)) in E.
    rewrite length_app in E. destruct rest; [reflexivity|].
    simpl in E. lia.
Qed.

Lemma loop_accepted_at k response :
  1 <= k <= max_retries ->
  (forall j, 1 <= j < k -> rejected j) ->
  accepts k response ->
  validation_loop generate max_retries (Provider.attempts_upto max_retries)
  = Accepted response.
Proof.
  intros Hk Hrej [Eg Ep]. destruct (loop_at k Hk Hrej) as (rest & -> & _).
  simpl. rewrite Eg, Ep. reflexivity.
Qed.

Lemma loop_api_failed e :
  1 <= max_retries ->
  (forall j, 1 <= j < max_retries -> rejected j) ->
  generate max_retries = ApiException e ->
  validation_loop generate max_retries (Provider.attempts_upto max_retries)
  = ApiFailed e.
Proof.
  intros Hk Hrej Eg.
  destruct (loop_at max_retries (conj Hk (Z.le_refl _)) Hrej) as (rest & -> & _).
  simpl. rewrite Eg, Z.eqb_refl. reflexivity.
Qed.

Lemma loop_exhausted :
  (forall j, 1 <= j <= max_retries -> rejected j) ->
  (max_retries <= 0 \/ exists raw, generate max_retries = Text raw) ->
  validation_loop generate max_retries (Provider.attempts_upto max_retries)
  = Exhausted.
Proof.
  intros Hrej Hlast.
  destruct (Z_le_gt_dec max_retries 0) as [Hz | Hpos].
  - unfold Provider.attempts_upto.
    replace (Z.to_nat max_retries) with 0%nat by lia. reflexivity.
  - destruct Hlast as [Hz | [raw Eg]]; [lia|].
    assert (Hr : forall j, 1 <= j < max_retries -> rejected j)
      by (intros; apply Hrej; lia).
    destruct (loop_at max_retries ltac:(lia) Hr) as (rest & -> & Hrest).
    rewrite (Hrest eq_refl). simpl.
    pose proof (Hrej max_retries ltac:(lia)) as Hm. unfold rejected in Hm.
    rewrite Eg in Hm |- *. rewrite Hm. reflexivity.
Qed.

(** Every run of the loop falls under one of the three cases. *)
Lemma first_accepting_attempt (n : nat) :
  (forall j, 1 <= j <= Z.of_nat n -> rejected j)
  \/ exists k response,
       1 <= k <= Z.of_nat n
       /\ (forall j, 1 <= j < k -> rejected j)
       /\ accepts k response.
Proof.
  induction n as [|n IH].
  - left. intros j Hj. lia.
  - destruct IH as [Hall | (k & response & Hk & Hrej & Ha)].
    + destruct (rejected_or_accepts (Z.of_nat (S n))) as [Hr | [response Ha]].
      * left. intros j Hj.
        destruct (Z.eq_dec j (Z.of_nat (S n))) as [-> | Hne];
          [exact Hr | apply Hall; lia].
      * right. exists (Z.of_nat (S n)), response.
        split; [lia|]. split; [intros j Hj; apply Hall; lia | exact Ha].
    + right. exists k, response. split; [lia|]. split; assumption.
Qed.

(** X11.  The validation loop ends with the response of the first attempt
    among 1 to [max_retries] whose text passes validation; an exception
    of the provider ends it only on the last attempt, provided no earlier
    text passed; otherwise, also when [max_retries] is zero or less, it
    ends without a response. *)
Theorem validation_loop_outcome :
  let loop := validation_loop generate max_retries
                (Provider.attempts_upto max_retries) in
  (forall response,
      loop = Accepted response <->
      exists k, 1 <= k <= max_retries
                /\ (forall j, 1 <= j < k -> rejected j)
                /\ accepts k response)
  /\ (forall e,
      loop = ApiFailed e <->
      1 <= max_retries
      /\ (forall j, 1 <= j < max_retries -> rejected j)
      /\ generate max_retries = ApiException e)
  /\ (loop = Exhausted <->
      (forall j, 1 <= j <= max_retries -> rejected j)
      /\ (max_retries <= 0 \/ exists raw, generate max_retries = Text raw)).
Proof.
  cbv zeta.
  assert (Hcases :
    (exists k response, 1 <= k <= max_retries
        /\ (forall j, 1 <= j < k -> rejected j) /\ accepts k response)
    \/ (exists e, 1 <= max_retries
          /\ (forall j, 1 <= j < max_retries -> rejected j)
          /\ generate max_retries = ApiException e)
    \/ ((forall j, 1 <= j <= max_retries -> rejected j)
        /\ (max_retries <= 0 \/ exists raw, generate max_retries = Text raw))).
  { destruct (first_accepting_attempt (Z.to_nat max_retries))
      as [Hall | (k & response & Hk & Hrej & Ha)].
    - destruct (Z_le_gt_dec max_retries 0) as [Hz | Hpos].
      + right. right. split; [intros j Hj; lia | left; exact Hz].
      + destruct (generate max_retries) as [raw | e] eqn:Eg.
        * right. right. split; [intros j Hj; apply Hall; lia|].
          right. exists raw. reflexivity.
        * right. left. exists e. split; [lia|].
          split; [intros j Hj; apply Hall; lia | reflexivity].
    - left. exists k, response. split; [lia|]. split; assumption. }
  split; [|split].
  - intro response. split.
    + intro H.
      destruct Hcases as [(k & r & Hk & Hrej & Ha)
                         | [(e & Hm & Hrej & Eg) | [Hrej Hlast]]].
      * rewrite (loop_accepted_at k r Hk Hrej Ha) in H. injection H as ->.
        exists k. split; [exact Hk|]. split; [exact Hrej | exact Ha].
      * rewrite (loop_api_failed e Hm Hrej Eg) in H. discriminate.
      * rewrite (loop_exhausted Hrej Hlast) in H. discriminate.
    + intros (k & Hk & Hrej & Ha).
      exact (loop_accepted_at k response Hk Hrej Ha).
  - intro e. split.
    + intro H.
      destruct Hcases as [(k & r & Hk & Hrej & Ha)
                         | [(e' & Hm & Hrej & Eg) | [Hrej Hlast]]].
      * rewrite (loop_accepted_at k r Hk Hrej Ha) in H. discriminate.
      * rewrite (loop_api_failed e' Hm Hrej Eg) in H. injection H as ->.
        split; [exact Hm|]. split; [exact Hrej | exact Eg].
      * rewrite (loop_exhausted Hrej Hlast) in H. discriminate.
    + intros (Hm & Hrej & Eg). exact (loop_api_failed e Hm Hrej Eg).
  - split.
    + intro H.
      destruct Hcases as [(k & r & Hk & Hrej & Ha)
                         | [(e' & Hm & Hrej & Eg) | [Hrej Hlast]]].
      * rewrite (loop_accepted_at k r Hk Hrej Ha) in H. discriminate.
      * rewrite (loop_api_failed e' Hm Hrej Eg) in H. discriminate.
      * split; [exact Hrej | exact Hlast].
    + intros [Hrej Hlast]. exact (loop_exhausted Hrej Hlast).
Qed.

End LoopMore.

(* ================================================================== *)
(** * More about the orchestrator *)

Section PipelineMore.
Variable yaml_dump : yaml -> str.
Variable yaml_load : str -> load_outcome.
Variable sha256_hex : str -> str.
Variable DISCLAIMER_TEXT : str.
Variable now : str.

Local Open Scope Z_scope.

Local Abbreviation single := (_process_single_rule yaml_dump yaml_load sha256_hex DISCLAIMER_TEXT now).
Local Abbreviation all := (process_all yaml_dump yaml_load sha256_hex DISCLAIMER_TEXT now).
Local Abbreviation run := (process_rules yaml_dump yaml_load sha256_hex DISCLAIMER_TEXT now).
Local Abbreviation rule_hash := (compute_rule_hash yaml_dump sha256_hex).
Local Abbreviation handled' := (handled yaml_dump sha256_hex DISCLAIMER_TEXT now).
Local Abbreviation skip := (should_skip yaml_load).

Lemma contains_nonempty s piece : piece <> [] -> contains s piece = true -> s <> [].
Proof.
  intros Hp Hc ->. apply contains_spec in Hc. destruct Hc as (a & b & E).
  destruct a; [destruct piece; [congruence | discriminate] | discriminate].
Qed.

Lemma note_text_nonblank response :
  passed (validate_response response) = true ->
  strip (note_text DISCLAIMER_TEXT response) <> [].
Proof.
  intro H.
  apply (contains_nonempty _ DISCLAIMER_PREFIX); [discriminate|].
  apply solid_strip; [exact DISCLAIMER_PREFIX_solid|].
  apply note_text_keeps_marker, passed_has_disclaimer, H.
Qed.

(** X12.  Once a task has counted a document as processed, the output
    file holds the dump of the document with its note set, which has the
    content hash of the input, and the index holds that hash for the
    document.  From then on, under every index that keeps this entry and
    stores the prompt hash asked about, and with the output file kept,
    [should_skip] answers, and it answers true exactly when the text
    that was written parses again as a mapping whose note counts; so it
    answers true when the text parses back to the document that was
    dumped, and false when the parser refuses it. *)
Theorem processed_then_skipped
    (rule_file : RuleFile) (prompt_text prompt_hash : str)
    (max_retries : Z) (force : bool) (st st' : State) :
  single rule_file prompt_text prompt_hash max_retries force st = Done st' ->
  processed (result st') = S (processed (result st)) ->
  exists ca m h response written,
    rf_load rule_file = Loaded (YMap ca m)
    /\ rule_hash (YMap ca m) = Some h
    /\ loop_of rule_file prompt_text max_retries = Accepted response
    /\ written
       = YMap ca (Dict.set (lit "note")
                    (YStr LITERAL (note_text DISCLAIMER_TEXT response)) m)
    /\ rule_hash written = Some h
    /\ Dict.get (rf_relative rule_file) (out_files (fs st'))
       = Some (OutText (rf_dump rule_file written))
    /\ entry_of (cache st') (relative_str rule_file)
       = Some (EntryObject {| content_hash := Some h;
                              last_processed := Some now |})
    /\ forall later files ph,
         entry_of later (relative_str rule_file)
         = entry_of (cache st') (relative_str rule_file) ->
         Cache.prompt_hash later = Some ph ->
         Dict.get (rf_relative rule_file) (out_files files)
         = Dict.get (rf_relative rule_file) (out_files (fs st')) ->
         (skip later files (relative_str rule_file) h ph
            (rf_relative rule_file) = Done true
          <-> loads_with_note (yaml_load (rf_dump rule_file written)))
         /\ (~ loads_with_note (yaml_load (rf_dump rule_file written)) ->
             skip later files (relative_str rule_file) h ph
               (rf_relative rule_file) = Done false)
         /\ (yaml_load (rf_dump rule_file written) = Loaded written ->
             skip later files (relative_str rule_file) h ph
               (rf_relative rule_file) = Done true).
Proof.
  intros H Hp. apply single_rule_handled in H.
  destruct H as [Hr _ _ | msg Hr _ _ | ca m response e remains _ _ _ Hr _ _
                 | ca m h response Hload Hh Hloop _ _ Hcache Hfs];
    try (rewrite Hr in Hp; simpl in Hp; lia).
  exists ca, m, h, response, (enriched DISCLAIMER_TEXT ca m response).
  assert (Hget : Dict.get (rf_relative rule_file) (out_files (fs st'))
                 = Some (OutText
                           (rf_dump rule_file
                              (enriched DISCLAIMER_TEXT ca m response)))).
  { rewrite Hfs. unfold put_out_file. simpl. apply dict_get_set_same. }
  destruct (update_rule_returns _ _ _ _ _ Hcache) as (_ & _ & _ & _ & Hentry).
  split; [exact Hload|]. split; [exact Hh|].
  split; [exact Hloop|]. split; [reflexivity|].
  split.
  { unfold enriched. rewrite compute_rule_hash_map, dict_del_set_same.
    rewrite compute_rule_hash_map in Hh. exact Hh. }
  split; [exact Hget|]. split; [exact Hentry|].
  intros later files ph He Hph Hf.
  rewrite Hentry in He. rewrite Hget in Hf.
  assert (Hiff : skip later files (relative_str rule_file) h ph
                   (rf_relative rule_file) = Done true
                 <-> loads_with_note
                       (yaml_load
                          (rf_dump rule_file
                             (enriched DISCLAIMER_TEXT ca m response)))).
  { rewrite should_skip_true. unfold skip_conditions, has_nonblank_note.
    split.
    - intros (_ & _ & text & Ht & Hl). rewrite Hf in Ht.
      injection Ht as <-. exact Hl.
    - intro Hl. split; [exact Hph|].
      split; [eexists; split; [exact He | reflexivity]|].
      eexists. split; [exact Hf | exact Hl]. }
  split; [exact Hiff|]. split.
  - intro Hn.
    destruct (skip later files (relative_str rule_file) h ph
                (rf_relative rule_file)) as [[|] | e0] eqn:E.
    + exfalso. apply Hn, Hiff. reflexivity.
    + reflexivity.
    + exfalso. apply should_skip_raises in E.
      destruct E as (_ & [(_ & sized & Hs) | [(_ & Ho) | (_ & _ & Ho)]]).
      * unfold entry_of in He. rewrite Hs in He. discriminate.
      * congruence.
      * congruence.
  - intro Hback. apply Hiff. rewrite Hback.
    exists ca, (Dict.set (lit "note")
                  (YStr LITERAL (note_text DISCLAIMER_TEXT response)) m),
      (YStr LITERAL (note_text DISCLAIMER_TEXT response)).
    split; [reflexivity|]. split; [apply dict_get_set_same|].
    apply note_text_nonblank.
    exact (proj1 (validation_loop_accepted _ _ _ _ Hloop)).
Qed.

Ltac close_log consulted updated :=
  exists consulted, updated; simpl; rewrite ?app_nil_r, <- ?app_assoc;
  solve [repeat split; intros; try discriminate; try reflexivity; lia].

Ltac close_log_any :=
  first [ close_log false false | close_log true false
        | close_log false true | close_log true true ].

(** What a task appends to the log of cache operations. *)
Lemma single_rule_log rule_file prompt_text prompt_hash max_retries force st st' :
  single rule_file prompt_text prompt_hash max_retries force st = Done st' ->
  exists consulted updated : bool,
    log st' = log st
              ++ (if consulted then [CacheShouldSkip (relative_str rule_file)]
                  else [])
              ++ (if updated then [CacheUpdateRule (relative_str rule_file)]
                  else [])
    /\ (force = true -> consulted = false)
    /\ (skipped (result st') = S (skipped (result st)) -> force = false)
    /\ (if updated
        then processed (result st') = S (processed (result st))
        else processed (result st') = processed (result st)).
Proof.
  unfold _process_single_rule. fold (relative_str rule_file).
  destruct (rf_load rule_file) as [e | rule_data] eqn:Eload.
  { intros [= <-]. close_log_any. }
  destruct rule_data as [| p s | p z | p b | p truth text | p items | ca m].
  { intros [= <-]. close_log_any. }
  all: destruct (rule_hash _) as [h|] eqn:Eh; [|discriminate].
  all: destruct force;
    [| destruct (should_skip _ _ _ _ _ _ _) as [[|] | e];
       [intros [= <-]; close_log_any | | discriminate] ].
  all: destruct (validation_loop _ _ _) as [response | e |];
    try (intros [= <-]; close_log_any);
    try discriminate.
  all: destruct (rf_mkdir_ok rule_file); simpl; try discriminate.
  all: destruct (rf_write rule_file) as [| e remains].
  all: try (intros [= <-]; close_log_any).
  all: destruct (update_rule now _ _ h) as [cache' | e]; [|discriminate].
  all: intros [= <-]; close_log_any.
Qed.

(** A task keeps the version of the index, and keeps it loadable. *)
Lemma handled_cache_shape rule_file prompt_text max_retries st st' :
  handled' rule_file prompt_text max_retries st st' ->
  version (cache st') = version (cache st)
  /\ (rules_sized (cache st) -> rules_sized (cache st')).
Proof.
  intros [Hr Hc _ | msg Hr Hc _ | ca m response e remains _ _ _ Hr Hc _
          | ca m h response _ _ _ _ Hr Hc _].
  1-3: rewrite Hc; split; [reflexivity | tauto].
  destruct (update_rule_returns _ _ _ _ _ Hc) as (_ & Hv & _ & Hu & _).
  split; [exact Hv | intros _; exact (Hu false)].
Qed.


(** A cache operation made by a task, and one that records a document. *)
Definition is_task_event (ev : cache_event) : bool :=
  match ev with
  | CacheShouldSkip _ | CacheUpdateRule _ => true
  | _ => false
  end.

Definition is_update (ev : cache_event) : bool :=
  match ev with CacheUpdateRule _ => true | _ => false end.

Lemma process_all_log files prompt_text prompt_hash max_retries force :
  forall st st',
    all files prompt_text prompt_hash max_retries force st = Done st' ->
    exists evs,
      log st' = log st ++ evs
      /\ forallb is_task_event evs = true
      /\ (List.length (filter is_update evs) + processed (result st)
          = processed (result st'))%nat
      /\ version (cache st') = version (cache st)
      /\ (rules_sized (cache st) -> rules_sized (cache st'))
      /\ (force = true -> forallb is_update evs = true).
Proof.
  induction files as [|rule_file rest IH]; intros st st'; simpl.
  - intros [= <-]. exists []. rewrite app_nil_r. repeat split. tauto.
  - destruct (single rule_file prompt_text prompt_hash max_retries force st)
      as [st1|e] eqn:E; [|discriminate].
    intro Hall.
    destruct (single_rule_log _ _ _ _ _ _ _ E)
      as (consulted & updated & Hlog & Hc & _ & Hp).
    destruct (handled_cache_shape _ _ _ _ _
                (single_rule_handled _ _ _ _ _ _ _ _ _ _ _ _ E)) as [Hv Hz].
    destruct (IH st1 st' Hall) as (evs & Hl & Ht & Hn & Hv' & Hz' & Hf).
    exists ((if consulted then [CacheShouldSkip (relative_str rule_file)] else [])
            ++ (if updated then [CacheUpdateRule (relative_str rule_file)] else [])
            ++ evs).
    split; [rewrite Hl, Hlog, <- !app_assoc; reflexivity|].
    split; [destruct consulted, updated; simpl; exact Ht|].
    split; [destruct consulted, updated; simpl; lia|].
    split; [congruence|].
    split; [tauto|].
    intro Hforce. rewrite (Hc Hforce). destruct updated; simpl; exact (Hf Hforce).
Qed.

(** X14.  A run that returns has loaded the cache once, first, and saved
    it once, last, right after storing the prompt hash; in between the
    tasks only consulted [should_skip] and recorded documents, one record
    per processed document.  When the write of the save goes through, the
    file left behind loads again as the index that was saved, and it
    holds the hash of the prompt of this run. *)
Theorem run_saves_once_at_the_end
    (env : Env) (fs0 : FS) (max_retries : Z) (force : bool)
    (r : ProcessingResult) :
  run_end (run env fs0 max_retries force) = Done r ->
  exists prompt_text evs,
    env_prompt env = Some prompt_text
    /\ run_log (run env fs0 max_retries force)
       = CacheLoad :: evs ++ [CacheSetPromptHash; CacheSave]
    /\ forallb is_task_event evs = true
    /\ List.length (filter is_update evs) = processed r
    /\ (env_save env = WriteOk ->
        exists index,
          cache_path (run_fs (run env fs0 max_retries force))
          = Some (JsonIndex index)
          /\ Cache.init (run_fs (run env fs0 max_retries force)) = Done index
          /\ Cache.prompt_hash index
             = Some (compute_prompt_hash sha256_hex prompt_text)).
Proof.
  unfold process_rules.
  destruct (env_prompt env) as [prompt_text|]; [|discriminate].
  destruct (env_mkdir_ok env); simpl; [|discriminate].
  destruct (Cache.init fs0) as [cache0|e0] eqn:Ei; [|discriminate].
  destruct (Nat.eqb (List.length (env_files env)) 0); [discriminate|].
  match goal with
  | |- context [all ?fl ?pt ?ph ?mr ?fo ?st0] =>
      destruct (all fl pt ph mr fo st0) as [st|e] eqn:E; [|discriminate];
      destruct (process_all_log fl pt ph mr fo st0 st E)
        as (evs & Hl & Ht & Hn & Hv & Hz & _)
  end.
  simpl. intros [= <-]. simpl in Hl, Hn, Hv, Hz.
  exists prompt_text, evs.
  split; [reflexivity|]. split; [rewrite Hl; reflexivity|].
  split; [exact Ht|]. split; [lia|].
  intro Hw. rewrite Hw. simpl. eexists. split; [reflexivity|].
  split; [|reflexivity].
  apply (init_saved _ (fs st)).
  - simpl. rewrite Hv. exact (init_version _ _ Ei).
  - exact (Hz (init_sized _ _ Ei)).
Qed.

(** X15.  A rule file whose document is not a mapping (a list or a
    scalar) is never enriched: its task never counts it as processed and
    never touches the cache or the files, and when its response is
    accepted the task raises [TypeError], which ends the run. *)
Theorem non_mapping_is_never_written
    (rule_file : RuleFile) (prompt_text prompt_hash : str)
    (max_retries : Z) (force : bool) (st : State) (d : yaml) :
  rf_load rule_file = Loaded d ->
  (forall ca m, d <> YMap ca m) ->
  (forall st',
      single rule_file prompt_text prompt_hash max_retries force st = Done st' ->
      processed (result st') = processed (result st)
      /\ cache st' = cache st /\ fs st' = fs st)
  /\ (forall h response,
        rule_hash d = Some h ->
        (force = true
         \/ skip (cache st) (fs st) (relative_str rule_file) h
              prompt_hash (rf_relative rule_file) = Done false) ->
        loop_of rule_file prompt_text max_retries = Accepted response ->
        single rule_file prompt_text prompt_hash max_retries force st
        = Escapes TypeError)
  /\ (rule_hash d = None ->
      d <> YNull ->
      single rule_file prompt_text prompt_hash max_retries force st
      = Escapes TypeError).
Proof.
  intros Hload Hd. split; [|split].
  - intros st' H.
    pose proof (single_rule_handled _ _ _ _ _ _ _ _ _ _ _ _ H) as Hh.
    destruct Hh as [Hr Hc Hf | msg Hr Hc Hf
                   | ca m response e remains Hl _ _ _ _ _
                   | ca m h response Hl _ _ _ _ _ _].
    + rewrite Hr. repeat split; assumption.
    + rewrite Hr. repeat split; assumption.
    + rewrite Hload in Hl. injection Hl as ->. exfalso. exact (Hd ca m eq_refl).
    + rewrite Hload in Hl. injection Hl as ->. exfalso. exact (Hd ca m eq_refl).
  - intros h response Hh Hskip Hloop.
    unfold _process_single_rule. rewrite Hload.
    fold (loop_of rule_file prompt_text max_retries).
    fold (relative_str rule_file).
    destruct d as [| p s | p z | p b | p truth text | p items | ca m];
      try discriminate Hh;
      try (exfalso; exact (Hd ca m eq_refl));
      rewrite Hh, Hloop;
      (destruct force; [reflexivity|]);
      (destruct Hskip as [Hf | Hs]; [discriminate|]); rewrite Hs; reflexivity.
  - intros Hnone Hnn. unfold _process_single_rule. rewrite Hload.
    destruct d as [| p s | p z | p b | p truth text | p items | ca m];
      try congruence;
      try (exfalso; exact (Hd ca m eq_refl));
      try reflexivity;
      rewrite Hnone; reflexivity.
Qed.

End PipelineMore.

(* ================================================================== *)
(** * Audit mode and the exit status *)

Module Audit.

Section WithRender.
(** [str(note)] for a note that is not text: the rendering of a
    number, a boolean or a container by Python. *)
Variable render : yaml -> str.

Definition note_str (note : yaml) : str :=
  match note with
  | YStr _ s => s
  | _ => render note
  end.

(** [ValidationResult.__str__] *)
Definition validation_str (v : ValidationResult) : str :=
  if passed v then lit "Validation passed"
  else lit "Validation failed: " ++ join (lit "; ") (errors v).

(** The body of the loop of [check_rules] for one file; [None] is the
    [AttributeError] of [rule_data.get] on a document that is not a
    mapping, which nothing catches. *)
Definition check_one (rule_file : RuleFile) (result : ProcessingResult)
  : option ProcessingResult :=
  let relative_str := replace_char 92%N 47%N (rf_relative rule_file) in
  match rf_load rule_file with
  | LoadRaises _ =>
      Some (record_failure (relative_str ++ lit ": YAML parse error") result)
  | Loaded YNull => Some (record_skipped result)
  | Loaded (YMap _ m) =>
      let note := match Dict.get (lit "note") m with
                  | Some v => v
                  | None => YStr PLAIN []
                  end in
      if negb (truthy note) || is_empty (strip (note_str note)) then
        Some (record_skipped result)
      else
        let validation := validate_response (note_str note) in
        if passed validation then Some (record_processed result)
        else
          Some (record_failure
                  (relative_str ++ lit ": " ++ validation_str validation)
                  result)
  | Loaded _ => None
  end.

(** [for rule_file in yaml_files] *)
Fixpoint check_all (files : list RuleFile) (result : ProcessingResult)
  : option ProcessingResult :=
  match files with
  | [] => Some result
  | rule_file :: rest =>
      match check_one rule_file result with
      | Some result' => check_all rest result'
      | None => None
      end
  end.

(** [check_rules], over the files [_collect_yaml_files] found. *)
Definition check_rules (yaml_files : list RuleFile) : option ProcessingResult :=
  let result := {| total := List.length yaml_files; processed := 0;
                   skipped := 0; failed := 0; failures := [] |} in
  if Nat.eqb (total result) 0 then Some result
  else check_all yaml_files result.
End WithRender.

(** [main]: the status the process exits with.  [sys.exit(2)] when
    documents failed, [sys.exit(0)] otherwise; a [SystemExit] of the run
    keeps its code and any other exception ends the interpreter with
    status 1. *)
Definition exit_code (result : ProcessingResult) : Z :=
  if Nat.ltb 0 (failed result) then 2%Z else 0%Z.


Definition main_check_exit (checked : option ProcessingResult) : Z :=
  match checked with
  | Some result => exit_code result
  | None => 1%Z
  end.

End Audit.
Import Audit.

Section AuditFacts.
Variable render : yaml -> str.

(** The document of the file can be audited: it failed to load, is
    empty, or is a mapping. *)
Definition auditable (rule_file : RuleFile) : Prop :=
  match rf_load rule_file with
  | LoadRaises _ | Loaded YNull | Loaded (YMap _ _) => True
  | Loaded _ => False
  end.

Lemma check_one_counter rule_file result result' :
  check_one render rule_file result = Some result' ->
  one_counter result result'.
Proof.
  unfold check_one.
  destruct (rf_load rule_file)
    as [e | [| p s | p z | p b | p truth text | p items | ca m]];
    try discriminate.
  - intros [= <-]. unfold one_counter. simpl. split; [reflexivity|].
    right. right. repeat split. eexists. reflexivity.
  - intros [= <-]. unfold one_counter. simpl. split; [reflexivity|].
    right. left. repeat split.
  - cbv zeta. destruct (negb _ || _).
    + intros [= <-]. unfold one_counter. simpl. split; [reflexivity|].
      right. left. repeat split.
    + destruct (passed _); intros [= <-]; unfold one_counter; simpl;
        (split; [reflexivity|]).
      * left. repeat split.
      * right. right. repeat split. eexists. reflexivity.
Qed.

Lemma check_all_accounted files :
  forall seen result result',
    check_all render files result = Some result' ->
    accounted seen result ->
    accounted (seen + List.length files) result'
    /\ total result' = total result.
Proof.
  induction files as [|rule_file rest IH]; intros seen result result'; simpl.
  - intros [= <-] H. rewrite Nat.add_0_r. split; [exact H | reflexivity].
  - destruct (check_one render rule_file result) as [r1|] eqn:E; [|discriminate].
    intros Hall Hacc. pose proof (check_one_counter _ _ _ E) as H1.
    destruct (IH (S seen) r1 result' Hall (one_counter_accounted _ _ _ Hacc H1))
      as [A B].
    split.
    + replace (seen + S (List.length rest))%nat
        with (S seen + List.length rest)%nat by lia.
      exact A.
    + rewrite B. exact (proj1 H1).
Qed.

Lemma check_all_returns files :
  Forall auditable files ->
  forall result, exists result', check_all render files result = Some result'.
Proof.
  induction 1 as [|rule_file rest Ha _ IH]; intro result; simpl.
  - eexists. reflexivity.
  - assert (E : exists r1, check_one render rule_file result = Some r1).
    { unfold check_one. unfold auditable in Ha.
      destruct (rf_load rule_file)
        as [e | [| p s | p z | p b | p truth text | p items | ca m]];
        try contradiction; try (eexists; reflexivity).
      cbv zeta. destruct (negb _ || _); [eexists; reflexivity|].
      destruct (passed _); eexists; reflexivity. }
    destruct E as [r1 ->]. apply IH.
Qed.

(** X16.  When [check_rules] returns, each file has been counted exactly
    once as passed, without note, or failed: the three counters add up to
    [total], the number of files, and [failures] has [failed] entries.
    It returns, also for no file at all, whenever every document that
    loads is a mapping or empty; a document that is a list or a scalar
    makes it raise. *)
Theorem check_rules_counts (yaml_files : list RuleFile) :
  (forall r,
      check_rules render yaml_files = Some r ->
      (processed r + skipped r + failed r = total r)%nat
      /\ total r = List.length yaml_files
      /\ List.length (failures r) = failed r)
  /\ (Forall auditable yaml_files <->
      exists r, check_rules render yaml_files = Some r).
Proof.
  split.
  - intros r. unfold check_rules. simpl total.
    destruct yaml_files as [|f rest] eqn:Ef.
    + simpl. intros [= <-]. repeat split.
    + change (Nat.eqb (List.length (f :: rest)) 0) with false. cbv iota.
      intro H.
      destruct (check_all_accounted _ 0%nat _ _ H) as [[A B] C];
        [split; reflexivity|].
      simpl in A, C. rewrite C. repeat split; assumption.
  - unfold check_rules. simpl total. split.
    + intro H. destruct (Nat.eqb (List.length yaml_files) 0);
        [eexists; reflexivity | apply check_all_returns, H].
    + intros [r H]. destruct yaml_files as [|f rest]; [constructor|].
      change (Nat.eqb (List.length (f :: rest)) 0) with false in H.
      cbv iota in H. revert H.
      generalize {| total := List.length (f :: rest); processed := 0;
                    skipped := 0; failed := 0; failures := [] |}.
      generalize (f :: rest) as files. clear f rest.
      induction files as [|f rest IH]; intros result H; [constructor|].
      simpl in H.
      destruct (check_one render f result) as [r1|] eqn:E; [|discriminate].
      constructor; [|exact (IH r1 H)].
      unfold auditable. unfold check_one in E.
      destruct (rf_load f)
        as [e | [| p s | p z | p b | p truth text | p items | ca m]];
        try exact I; discriminate.
Qed.

End AuditFacts.

Section ExitStatus.
Variable yaml_dump : yaml -> str.
Variable yaml_load : str -> load_outcome.
Variable sha256_hex : str -> str.
Variable DISCLAIMER_TEXT : str.
Variable now : str.

Local Open Scope Z_scope.

Local Abbreviation run := (process_rules yaml_dump yaml_load sha256_hex DISCLAIMER_TEXT now).
Local Abbreviation all := (process_all yaml_dump yaml_load sha256_hex DISCLAIMER_TEXT now).




End ExitStatus.

(* ================================================================== *)
(** * More concrete runs *)

Module Demo2.

Definition short_text : str := lit "* too short ```".


Definition latin1_cache_fs : FS :=
  {| cache_path := Some JsonNotUtf8; out_files := [] |}.

(** The provider raises on the first attempt and answers on the next. *)
Definition second_time_lucky (attempt : Z) : generated :=
  if Z.eqb attempt 1 then ApiException (lit "503")
  else Text VALID_RESPONSE.

(** A rule file whose document is a list. *)
Definition list_rule : RuleFile :=
  {| rf_relative := lit "l.yml";
     rf_load := Loaded (YSeq PLAIN [YStr PLAIN (lit "title")]);
     rf_text := lit "- title
";
     rf_generate := fun _ _ _ => Text VALID_RESPONSE;
     rf_mkdir_ok := true;
     rf_dump := demo_dump;
     rf_write := WriteOk |}.

(** Files to audit: one without a note, one with the note the pipeline
    wrote, one that does not parse. *)
Definition audited : list RuleFile :=
  [ rule_a VALID_RESPONSE WriteOk;
    {| rf_relative := lit "b.yml";
       rf_load := Loaded (YMap demo_ca
                            (demo_rule
                               ++ [(lit "note", YStr LITERAL VALID_RESPONSE)]));
       rf_text := [];
       rf_generate := fun _ _ _ => Text [];
       rf_mkdir_ok := true;
       rf_dump := demo_dump;
       rf_write := WriteOk |};
    {| rf_relative := lit "c.yml";
       rf_load := LoadRaises (lit "mapping values are not allowed here");
       rf_text := [];
       rf_generate := fun _ _ _ => Text [];
       rf_mkdir_ok := true;
       rf_dump := demo_dump;
       rf_write := WriteOk |} ].

Definition no_render (v : yaml) : str := [].

Definition first_run : Run :=
  demo_run (env_of [rule_a VALID_RESPONSE WriteOk]) empty_fs.

Definition processed_once : ProcessingResult :=
  {| total := 1; processed := 1; skipped := 0; failed := 0; failures := [] |}.


End Demo2.
Import Demo2.

Section MoreRuns.

Local Open Scope Z_scope.

Lemma validate_response_reports_witness :
  strip short_text <> []
  /\ In (lit "Response too short (15 chars, minimum 200)")
       (errors (validate_response short_text))
  /\ validate_response (lit "
  ") = {| passed := false; errors := [lit "Response is empty"] |}.
Proof.
  assert (H : strip short_text <> []) by (vm_compute; discriminate).
  split; [exact H|]. split.
  - apply (proj2 (validate_response_reports short_text) H). left.
    split; [vm_compute; repeat constructor | reflexivity].
  - apply (proj1 (validate_response_reports _)). reflexivity.
Defined.

Lemma validate_response_passes_iff_witness :
  passed (validate_response VALID_RESPONSE) = true.
Proof.
  apply (proj2 (validate_response_passes_iff VALID_RESPONSE)).
  split; [vm_compute; repeat constructor|].
  split; [intros header [<- | [<- | [<- | [<- | []]]]]; vm_compute; reflexivity|].
  split; [vm_compute; reflexivity|].
  split; [vm_compute; reflexivity|].
  split; [vm_compute; reflexivity|].
  intros header [<- | [<- | [<- | [<- | []]]]]; vm_compute; reflexivity.
Defined.

Lemma star_bullet_search_iff_witness :
  star_bullet_search true (lit "a
  * b") = true
  /\ star_bullet_here (lit "  **bold** text") = false.
Proof.
  split.
  - apply (proj2 (proj1 (star_bullet_search_iff _))).
    exists (lit "a
"), (lit "  "), 32%N, (lit "b").
    split; [reflexivity|]. split; [right; exists (lit "a"); reflexivity|].
    split; reflexivity.
  - apply (proj2 (star_bullet_search_iff []) (lit "  ") (lit "bold** text")).
    reflexivity.
Defined.


Lemma update_rule_upserts_witness :
  exists data',
    update_rule demo_now demo_index (lit "b.yml") (lit "h2") = Done data'
    /\ entry_of data' (lit "a.yml") = entry_of demo_index (lit "a.yml")
    /\ update_rule demo_now list_rules_index (lit "b.yml") (lit "h2")
       = Escapes TypeError.
Proof.
  destruct (update_rule_upserts demo_now demo_now demo_index
              (lit "b.yml") (lit "h2") (lit "h1") (lit "ph")) as [Hup _].
  destruct Hup as (data' & Hd & _ & Hother & _);
    [intro sized; discriminate|].
  exists data'. split; [exact Hd|]. split; [apply Hother; discriminate|].
  apply (proj1 (proj2 (update_rule_upserts demo_now demo_now list_rules_index
                         (lit "b.yml") (lit "h2") (lit "h1") (lit "ph")))).
  exists true. reflexivity.
Defined.

Lemma generate_is_bounded_witness :
  Provider.outcome (Provider.OpenAIProvider.generate 3 calls_recovering)
  = Provider.Returns (lit "ok")
  /\ strip (lit "ok") = lit "ok"
  /\ ProviderMore.total_wait
       (Provider.sleeps (Provider.OpenAIProvider.generate 3 calls_recovering))
     <= 2 ^ (Z.max 0 3 + 1) - 2.
Proof.
  destruct (proj1 ProviderMore.generate_is_bounded calls_recovering 3)
    as (_ & Hw & Hs).
  split; [reflexivity|]. split; [apply Hs; reflexivity | exact Hw].
Defined.

Lemma generate_without_attempts_raises_none_witness :
  Provider.ClaudeProvider.generate 0 calls_overloaded
  = {| Provider.outcome := Provider.RaisesNone;
       Provider.calls := []; Provider.sleeps := [] |}.
Proof.
  apply (proj2 (ProviderMore.generate_without_attempts_raises_none 0
                  ltac:(lia))).
Defined.

Lemma note_keeps_headers_witness :
  passed (validate_response VALID_RESPONSE) = true
  /\ contains (note_text demo_disclaimer VALID_RESPONSE)
       (lit "### Prioritization") = true.
Proof.
  assert (H : passed (validate_response VALID_RESPONSE) = true)
    by (vm_compute; reflexivity).
  split; [exact H|].
  apply (proj2 (note_keeps_headers demo_disclaimer VALID_RESPONSE) H).
  simpl. tauto.
Defined.

Lemma validation_loop_outcome_witness :
  validation_loop second_time_lucky 3 (Provider.attempts_upto 3)
  = Accepted VALID_RESPONSE.
Proof.
  apply (proj2 (proj1 (validation_loop_outcome second_time_lucky 3)
                  VALID_RESPONSE)).
  exists 2. split; [lia|]. split.
  - intros j Hj. assert (j = 1) as -> by lia. exact I.
  - split; [reflexivity | vm_compute; reflexivity].
Defined.

Lemma processed_then_skipped_witness :
  demo_single (rule_a VALID_RESPONSE WriteOk) empty_state = Done after_a
  /\ exists h,
       compute_rule_hash demo_dump demo_sha256 demo_doc = Some h
       /\ should_skip demo_load (set_prompt_hash (cache after_a) (lit "ph"))
            (fs after_a) (lit "a.yml") h (lit "ph") (lit "a.yml") = Done true.
Proof.
  assert (H1 : demo_single (rule_a VALID_RESPONSE WriteOk) empty_state
               = Done after_a) by (vm_compute; reflexivity).
  assert (H2 : processed (result after_a) = S (processed (result empty_state)))
    by (vm_compute; reflexivity).
  split; [exact H1|].
  destruct (processed_then_skipped demo_dump demo_load demo_sha256
              demo_disclaimer demo_now _ _ _ _ _ _ _ H1 H2)
    as (ca & m & h & response & written & Hload & Hh & Hloop & Hw & _ & _ & _
        & Hskip).
  injection Hload as <- <-. exists h. split; [exact Hh|].
  assert (Hr : response = VALID_RESPONSE).
  { assert (E : loop_of (rule_a VALID_RESPONSE WriteOk) (lit "prompt v2") 3
                = Accepted VALID_RESPONSE) by (vm_compute; reflexivity).
    rewrite E in Hloop. injection Hloop as <-. reflexivity. }
  subst response written.
  apply (proj2 (proj2 (Hskip (set_prompt_hash (cache after_a) (lit "ph"))
                         (fs after_a) (lit "ph") eq_refl eq_refl eq_refl))).
  vm_compute. reflexivity.
Defined.


Lemma run_saves_once_at_the_end_witness :
  run_end first_run = Done processed_once
  /\ exists evs index,
       run_log first_run = CacheLoad :: evs ++ [CacheSetPromptHash; CacheSave]
       /\ Cache.init (run_fs first_run) = Done index
       /\ Cache.prompt_hash index = Some (demo_sha256 (lit "prompt v2")).
Proof.
  assert (H : run_end first_run = Done processed_once)
    by (vm_compute; reflexivity).
  split; [exact H|].
  destruct (run_saves_once_at_the_end demo_dump demo_load demo_sha256
              demo_disclaimer demo_now _ _ _ _ _ H)
    as (prompt_text & evs & Hp & Hlog & _ & _ & Hsave).
  injection Hp as <-.
  destruct (Hsave eq_refl) as (index & _ & Hi & Hph).
  exists evs, index. split; [exact Hlog|]. split; [exact Hi | exact Hph].
Defined.

Lemma non_mapping_is_never_written_witness :
  demo_single list_rule empty_state = Escapes TypeError.
Proof.
  apply (proj1 (proj2 (non_mapping_is_never_written demo_dump demo_load
                         demo_sha256 demo_disclaimer demo_now list_rule
                         (lit "prompt v2")
                         (demo_sha256 (lit "prompt v2")) 3 false empty_state
                         (YSeq PLAIN [YStr PLAIN (lit "title")]) eq_refl
                         ltac:(discriminate)))
           (demo_sha256 (demo_dump (YSeq PLAIN [YStr PLAIN (lit "title")])))
           VALID_RESPONSE).
  - reflexivity.
  - right. reflexivity.
  - vm_compute. reflexivity.
Defined.

Lemma check_rules_counts_witness :
  exists r,
    check_rules no_render audited = Some r
    /\ (processed r + skipped r + failed r = total r)%nat
    /\ total r = 3%nat.
Proof.
  destruct (proj1 (proj2 (check_rules_counts no_render audited))) as [r Hr].
  - repeat constructor.
  - exists r. split; [exact Hr|].
    destruct (proj1 (check_rules_counts no_render audited) r Hr) as (A & B & _).
    split; [exact A | exact B].
Defined.


(** A cache file that is not UTF-8 ends the run in the constructor of
    the cache, and a forced run over an index whose ["rules"] is a list
    ends in [update_rule], after the output has been written. *)
Example runs_over_unusable_caches :
  run_end (demo_run (env_of [rule_a VALID_RESPONSE WriteOk]) latin1_cache_fs)
  = Escapes UnicodeDecodeError
  /\ run_end
       (process_rules demo_dump demo_load demo_sha256 demo_disclaimer demo_now
          (env_of [rule_a VALID_RESPONSE WriteOk])
          {| cache_path := Some (JsonIndex list_rules_index); out_files := [] |}
          3 true)
     = Escapes TypeError.
Proof. split; vm_compute; reflexivity. Qed.

Example audit_of_three_files :
  check_rules no_render audited
  = Some {| total := 3; processed := 1; skipped := 1; failed := 1;
            failures := [lit "c.yml: YAML parse error"] |}.
Proof. vm_compute. reflexivity. Qed.

End MoreRuns.
